(** * eslint-plugin-sorting: the sort-imports, sort-object-keys and
      sort-pattern-keys rules, embedded and verified.

    The rules are JavaScript visitors over an ESTree/Babel syntax tree.  They
    are translated function by function: syntax nodes become records, the
    closure variables a visitor mutates become a record of locals threaded
    through a small state-and-exception monad together with the log of
    [context.report] calls, and the fix callbacks become computations that
    either complete with text edits or throw.

    Modelling conventions.
    - JavaScript strings are [string]s of 8-bit code units; [<] on strings is
      the code-unit lexicographic order ([String.ltb]) and [toLowerCase] folds
      the ASCII letters.
    - Text offsets ([range]) are natural numbers.
    - [undefined] and [null] are [None].
    - Object identity ([!==] on nodes) is equality of the [nid] field.
    - [Array.prototype.sort] is a stable insertion sort driven by the
      comparator (ECMAScript requires stability).
    - [require.resolve] is an oracle [resolves : string -> bool].
    - The syntax tree is the one the source annotates its handlers with
      ([babel-types]): the imported name of a named import specifier is an
      identifier.  A specifier that imports under a string-literal name, whose
      [imported] node has no [name], is outside the tree: on it
      [getImportSpecifierSortName] gives [undefined] and the [toLowerCase]
      calls of the rule throw.  The results below are about modules inside
      the tree. *)

From Stdlib Require Import List String Ascii Bool Arith ZArith Lia.
From Stdlib Require Import Sorting.Sorted Sorting.Permutation.
From Stdlib Require DecimalString OrderedTypeEx.
Import ListNotations.
Open Scope string_scope.
Open Scope list_scope.
Open Scope nat_scope.

Set Implicit Arguments.
Set Warnings "-register-all".

(* ------------------------------------------------------------------ *)
(** ** JavaScript strings *)

Module JS.

(** [c.toLowerCase()] on one code unit: 'A'..'Z' are moved to 'a'..'z'. *)
Definition lowerAscii (c : ascii) : ascii :=
  let n := nat_of_ascii c in
  if (65 <=? n) && (n <=? 90) then ascii_of_nat (n + 32) else c.

(** [String.prototype.toLowerCase]. *)
Fixpoint toLowerCase (s : string) : string :=
  match s with
  | EmptyString => EmptyString
  | String c s' => String (lowerAscii c) (toLowerCase s')
  end.

(** [a < b] on two strings. *)
Definition lt (a b : string) : bool := String.ltb a b.

(** [s.startsWith(p)]. *)
Definition startsWith (s p : string) : bool := String.prefix p s.

(** [s.slice(i, j)] for non-negative integer arguments. *)
Definition slice (s : string) (i j : nat) : string := String.substring i (j - i) s.

(** [s] ends with [suffix]: what a regular expression [suffix$] tests once
    its alternatives are spelled out. *)
Definition endsWith (s suffix : string) : bool :=
  let n := String.length s in
  let m := String.length suffix in
  (m <=? n) && (String.substring (n - m) m s =? suffix)%string.

(** The line feed, ['\n']. *)
Definition newline : string := String (ascii_of_nat 10) EmptyString.

(** [String(n)] for a non-negative integer. *)
Definition numberToString (n : nat) : string :=
  DecimalString.NilZero.string_of_uint (Nat.to_uint n).

End JS.

(* ------------------------------------------------------------------ *)
(** ** Completions: a computation returns or throws *)

Inductive Exn : Type :=
| Error (msg : string)          (* [throw new Error(msg)] *)
| TypeError (msg : string).     (* raised by the language itself *)

Inductive Completion (A : Type) : Type :=
| Normal (a : A)
| Throw (e : Exn).
Arguments Normal {A} a.
Arguments Throw {A} e.

Definition cbind {A B} (c : Completion A) (k : A -> Completion B) : Completion B :=
  match c with
  | Normal a => k a
  | Throw e => Throw e
  end.

Declare Scope completion_scope.
Delimit Scope completion_scope with C.
Notation "x <- c ;; k" := (cbind c (fun x => k))
  (at level 61, c at next level, right associativity) : completion_scope.

Definition isThrow {A} (c : Completion A) : bool :=
  match c with Throw _ => true | Normal _ => false end.

(* ------------------------------------------------------------------ *)
(** ** Syntax nodes, source text, reports *)

(** What every ESTree node and comment token carries: its identity and its
    [range] in the source text. *)
Record Node : Type := mkNode {
  nid : nat;
  range : nat * nat;
}.

Definition sameNode (a b : Node) : bool := nid a =? nid b.

(** [a !== l[0]] where the array lookup may come back [undefined]. *)
Definition differs (a : Node) (b : option Node) : bool :=
  match b with
  | Some b => negb (sameNode a b)
  | None => true
  end.

(** ESLint's [SourceCode]: the text and the comment tokens directly before
    each node. *)
Record SourceCode : Type := mkSource {
  text : string;
  getCommentsBefore : Node -> list Node;
}.

(** [source.getText(node)]. *)
Definition getText (source : SourceCode) (node : Node) : string :=
  JS.slice (text source) (fst (range node)) (snd (range node)).

(** The edit made by [fixer.replaceTextRange(range, text)]. *)
Record Fix : Type := mkFix {
  fixRange : nat * nat;
  fixText : string;
}.

(** One [context.report({node, message, data, fix})] call.  [data] maps the
    placeholder names of the message to their values, [None] standing for
    [undefined]; [fix_] is absent, or the completion of the [fix] callback
    as the host obtains it when it builds the problem. *)
Record Report : Type := mkReport {
  node : Node;
  message : string;
  data : list (string * option string);
  fix_ : option (Completion (list Fix));   (* [fix] is a keyword here *)
}.

(** The host applying one edit to the text. *)
Definition applyFix (src : string) (f : Fix) : string :=
  (JS.slice src 0 (fst (fixRange f)) ++ fixText f
    ++ JS.slice src (snd (fixRange f)) (String.length src))%string.

(* ------------------------------------------------------------------ *)
(** ** The visitor monad: report log, mutable locals, exceptions *)

Record Ctx (L : Type) : Type := mkCtx {
  reports : list Report;     (* [context.report] calls so far, oldest first *)
  locals : L;                (* the [let] variables the callbacks close over *)
}.

Definition M (L A : Type) : Type := Ctx L -> Ctx L * Completion A.

Definition ret {L A} (a : A) : M L A := fun c => (c, Normal a).

Definition bind {L A B} (m : M L A) (k : A -> M L B) : M L B :=
  fun c => match m c with
           | (c', Normal a) => k a c'
           | (c', Throw e) => (c', Throw e)
           end.

Definition throw {L A} (e : Exn) : M L A := fun c => (c, Throw e).

Definition report {L} (r : Report) : M L unit :=
  fun c => (mkCtx (reports c ++ [r]) (locals c), Normal tt).

Definition getLocals {L} : M L L := fun c => (c, Normal (locals c)).

Definition setLocals {L} (l : L) : M L unit :=
  fun c => (mkCtx (reports c) l, Normal tt).

Definition liftC {L A} (c : Completion A) : M L A := fun ctx => (ctx, c).

Declare Scope visitor_scope.
Delimit Scope visitor_scope with V.
Notation "x <- m ;; k" := (bind m (fun x => k))
  (at level 61, m at next level, right associativity) : visitor_scope.
Notation "m ;;; k" := (bind m (fun _ => k))
  (at level 61, right associativity) : visitor_scope.

(** [l.reduce(f, init)]. *)
Fixpoint reduceM {L A B} (f : B -> A -> M L B) (l : list A) (init : B) : M L B :=
  match l with
  | [] => ret init
  | x :: l' => bind (f init x) (reduceM f l')
  end.

(** [l.reduce(f)] without an initial value: the first element seeds the
    accumulator, and an empty array is a [TypeError]. *)
Definition reduce1 {L A} (f : A -> A -> M L A) (l : list A) : M L A :=
  match l with
  | [] => throw (TypeError "Reduce of empty array with no initial value")
  | x :: l' => reduceM f l' x
  end.

(** [l.forEach(f)]. *)
Fixpoint forEach {L A} (f : A -> M L unit) (l : list A) : M L unit :=
  match l with
  | [] => ret tt
  | x :: l' => bind (f x) (fun _ => forEach f l')
  end.

(** Running a visitor callback from an empty log. *)
Definition run {L A} (m : M L A) (l0 : L) : list Report * Completion A :=
  let '(c, r) := m (mkCtx [] l0) in (reports c, r).

(** [l.reduce((acc, x, idx) => ..., init)] for a callback that may throw and
    reads the index. *)
Fixpoint reduceIdxC {A B} (f : B -> A -> nat -> Completion B)
    (l : list A) (idx : nat) (init : B) : Completion B :=
  match l with
  | [] => Normal init
  | x :: l' => cbind (f init x idx) (reduceIdxC f l' (S idx))
  end.

(** [l.map(f)] for a callback that may throw. *)
Fixpoint mapC {A B} (f : A -> Completion B) (l : list A) : Completion (list B) :=
  match l with
  | [] => Normal []
  | x :: l' => (y <- f x ;; ys <- mapC f l' ;; Normal (y :: ys))%C
  end.

(* ------------------------------------------------------------------ *)
(** ** Array.prototype.sort *)

Section Sort.
Variable A : Type.
(** The comparator: negative, zero or positive, or an exception. *)
Variable compareFn : A -> A -> Completion Z.

Fixpoint insert (x : A) (l : list A) : Completion (list A) :=
  match l with
  | [] => Normal [x]
  | y :: l' =>
      (c <- compareFn x y ;;
       if (c <=? 0)%Z then Normal (x :: y :: l')
       else (r <- insert x l' ;; Normal (y :: r)))%C
  end.

(** [l.slice().sort(compareFn)]: stable; an array of fewer than two elements
    never calls the comparator. *)
Fixpoint sort (l : list A) : Completion (list A) :=
  match l with
  | [] => Normal []
  | x :: l' => (s <- sort l' ;; insert x s)%C
  end.
End Sort.

(* ------------------------------------------------------------------ *)
(** ** utils.js *)

(** [getSpanningRange(nodes)]:
    [[nodes[0].range[0], nodes[nodes.length - 1].range[1]]]. *)
Definition getSpanningRange (nodes : list Node) : Completion (nat * nat) :=
  match nodes with
  | [] => Throw (TypeError "Cannot read property 'range' of undefined")
  | first :: _ => Normal (fst (range first), snd (range (last nodes first)))
  end.

Definition getCommentedText (source : SourceCode) (node : Node) : Completion string :=
  let comments := getCommentsBefore source node in
  (range <- match comments with
            | comment0 :: _ => getSpanningRange [comment0; node]
            | [] => getSpanningRange [node; node]
            end ;;
   Normal (JS.slice (text source) (fst range) (snd range)))%C.

(** [nodeA] and [nodeB] come from array lookups, hence the options. *)
Definition getTextBetweenCommentedNodes (source : SourceCode)
    (nodeA nodeB : option Node) : Completion string :=
  match nodeB with
  | None => Normal ""
  | Some nodeB =>
      let commentsBeforeNodeB := getCommentsBefore source nodeB in
      let nextNode := match commentsBeforeNodeB with
                      | comment0 :: _ => comment0
                      | [] => nodeB
                      end in
      match nodeA with
      | None => Throw (TypeError "Cannot read property 'range' of undefined")
      | Some nodeA =>
          Normal (JS.slice (text source) (snd (range nodeA)) (fst (range nextNode)))
      end
  end.

(** What a sort function hands to [getSorter]: a string, or one of the two
    numeric sentinels. *)
Inductive SortKey : Type :=
| KString (s : string)
| KInfinity
| KNegInfinity.

(** [getSorter(sortFunction)]: the comparator for [sort].  The cases are tried
    in the order of the source's [if] chain. *)
Definition getSorter {A} (sortFunction : A -> Completion SortKey) (a b : A)
    : Completion Z :=
  (aName <- sortFunction a ;;
   bName <- sortFunction b ;;
   Normal (match aName, bName with
           | KInfinity, _ | _, KNegInfinity => 1
           | _, KInfinity | KNegInfinity, _ => -1
           | KString x, KString y =>
               if (x =? y)%string then 0 else if JS.lt x y then -1 else 1
           end)%Z)%C.

(** The expressions a property key can be.  A literal carries its value as
    [String(node.value)] renders it. *)
Inductive Expression : Type :=
| Identifier (name : string)
| Literal (value : string)
| BooleanLiteral (value : string)
| StringLiteral (value : string)
| NumericLiteral (value : string)
| TemplateLiteral (quasis : list string) (expressions : list Expression)
| OtherExpression.

(** [getExpressionSortName(node)] on a node that is there.  The template
    literal case walks [quasis] and pairs [quasis[idx]] with
    [expressions[idx]]; once the expressions are used up the remaining quasis
    are appended with the empty string of a missing node. *)
Fixpoint expressionSortName (node : Expression) : string :=
  match node with
  | Identifier name => name
  | Literal value | BooleanLiteral value | StringLiteral value
  | NumericLiteral value => value
  | TemplateLiteral quasis expressions =>
      (fix go (es : list Expression) (qs : list string) (text : string)
           {struct es} : string :=
         match es with
         | [] => fold_left (fun text raw => text ++ raw ++ "")%string qs text
         | e :: es' =>
             match qs with
             | [] => text
             | raw :: qs' => go es' qs' (text ++ raw ++ expressionSortName e)%string
             end
         end) expressions quasis ""
  | OtherExpression => ""
  end.

(** [getExpressionSortName(node)]; [None] is the [!node] case. *)
Definition getExpressionSortName (node : option Expression) : string :=
  match node with
  | None => ""
  | Some e => expressionSortName e
  end.

(* ------------------------------------------------------------------ *)
(** ** sort-imports *)

Module SortImports.

Module DECL_PRIORITIES.
Definition SideEffect : nat := 0.
Definition External : nat := 1.
Definition Internal : nat := 3.
Definition StaticAsset : nat := 4.
End DECL_PRIORITIES.

Definition DECL_TYPE_NAMES : list string :=
  ["side effect"; "external package"; "internal"; "static asset"].

(** The three kinds of import specifier, each with the names it has:
    [local.name], and [imported.name] for a destructured specifier, whose
    [imported] node is an identifier. *)
Inductive ImportSpecifierNode : Type :=
| ImportDefaultSpecifier (n : Node) (local : string)
| ImportNamespaceSpecifier (n : Node) (local : string)
| ImportSpecifier (n : Node) (imported local : string).

Definition specNode (s : ImportSpecifierNode) : Node :=
  match s with
  | ImportDefaultSpecifier n _ | ImportNamespaceSpecifier n _
  | ImportSpecifier n _ _ => n
  end.

(** [s.type === 'ImportSpecifier'] *)
Definition isImportSpecifier (s : ImportSpecifierNode) : bool :=
  match s with ImportSpecifier _ _ _ => true | _ => false end.

(** An import declaration; [source_value] is [node.source.value]. *)
Record ImportDeclaration : Type := mkImport {
  declNode : Node;
  specifiers : list ImportSpecifierNode;
  source_value : string;
}.

(** A statement of [program.body]. *)
Inductive Statement : Type :=
| ImportDecl (d : ImportDeclaration)
| OtherStatement (n : Node).

Definition getImportSpecifierSortName (node : ImportSpecifierNode) : string :=
  match node with
  | ImportDefaultSpecifier _ local => local
  | ImportNamespaceSpecifier _ local => local
  | ImportSpecifier _ imported _ => imported
  end.

Definition isImportSideEffect (node : ImportDeclaration) : bool :=
  negb (negb (List.length (specifiers node) =? 0)).

(** The callback of the reduce in [getImportDeclarationSortName]; [None] is
    the [null] the reduce starts from. *)
Definition smallerSortName (sortName : option string) (spec : ImportSpecifierNode)
    : option string :=
  if isImportSpecifier spec then
    match sortName with
    | None => Some (getImportSpecifierSortName spec)
    | Some name =>
        if JS.lt (JS.toLowerCase (getImportSpecifierSortName spec))
                 (JS.toLowerCase name)
        then Some (getImportSpecifierSortName spec)
        else sortName
    end
  else sortName.

(** [getImportDeclarationSortName(node)]. *)
Definition getImportDeclarationSortName (node : ImportDeclaration) : option string :=
  if isImportSideEffect node then Some (source_value node)
  else
    match specifiers node with
    | (ImportDefaultSpecifier _ _ | ImportNamespaceSpecifier _ _) as spec0 :: _ =>
        Some (getImportSpecifierSortName spec0)
    | _ => fold_left smallerSortName (specifiers node) None
    end.

(** The alternatives of
    [/\.(svg|woff|woff2|tts|eot|bmp|jpe?g|gif|png|json|txt)$/]. *)
Definition staticAssetSuffixes : list string :=
  [".svg"; ".woff"; ".woff2"; ".tts"; ".eot"; ".bmp"; ".jpg"; ".jpeg";
   ".gif"; ".png"; ".json"; ".txt"].

Definition isStaticAsset (importSource : string) : bool :=
  existsb (JS.endsWith importSource) staticAssetSuffixes.

Section Rule.
(** [require.resolve(name)] returns rather than throws. *)
Variable resolves : string -> bool.
(** The rule's options. *)
Variable declarationSort : string.
Variable fixOption : bool.

Definition isImportExternal (node : ImportDeclaration) : bool :=
  if JS.startsWith (source_value node) "." then false
  else resolves (source_value node).

Definition getImportDeclarationSortIdx (node : ImportDeclaration) : nat :=
  let importSource := JS.toLowerCase (source_value node) in
  if isImportSideEffect node then DECL_PRIORITIES.SideEffect
  else if isStaticAsset importSource then DECL_PRIORITIES.StaticAsset
  else if isImportExternal node then DECL_PRIORITIES.External
  else DECL_PRIORITIES.Internal.

(** The variables the [Program] handler's callbacks assign. *)
Record Locals : Type := mkLocals {
  declarationsWithUnsortedSpecifiers : list ImportDeclaration;
  fixable : bool;
  lastUnsortedDeclaration : option ImportDeclaration;
  isSorted : bool;     (* of the specifier scan in progress *)
}.

Definition initialLocals : Locals := mkLocals [] true None true.

Definition set_fixable (b : bool) : M Locals unit :=
  (l <- getLocals ;;
   setLocals (mkLocals (declarationsWithUnsortedSpecifiers l) b
                       (lastUnsortedDeclaration l) (isSorted l)))%V.

Definition set_lastUnsortedDeclaration (d : ImportDeclaration) : M Locals unit :=
  (l <- getLocals ;;
   setLocals (mkLocals (declarationsWithUnsortedSpecifiers l) (fixable l)
                       (Some d) (isSorted l)))%V.

Definition set_isSorted (b : bool) : M Locals unit :=
  (l <- getLocals ;;
   setLocals (mkLocals (declarationsWithUnsortedSpecifiers l) (fixable l)
                       (lastUnsortedDeclaration l) b))%V.

Definition push_declarationsWithUnsortedSpecifiers (d : ImportDeclaration)
    : M Locals unit :=
  (l <- getLocals ;;
   setLocals (mkLocals (declarationsWithUnsortedSpecifiers l ++ [d]) (fixable l)
                       (lastUnsortedDeclaration l) (isSorted l)))%V.

(** The [imports] array with the ad-hoc [nonImportFound] property. *)
Record ImportsArray : Type := mkImports {
  items : list ImportDeclaration;
  nonImportFound : bool;
}.

(** The callback of [program.body.reduce(..., [])]. *)
Definition collectImport (imports : ImportsArray) (statement : Statement)
    : M Locals ImportsArray :=
  match statement with
  | ImportDecl d =>
      ((if negb (List.length (items imports) =? 0) && nonImportFound imports
        then set_fixable false else ret tt) ;;;
       ret (mkImports (items imports ++ [d]) (nonImportFound imports)))%V
  | OtherStatement _ =>
      if negb (List.length (items imports) =? 0)
      then ret (mkImports (items imports) true)
      else ret imports
  end.

(** [x.toLowerCase()] on the result of [getImportDeclarationSortName]. *)
Definition toLowerCaseOf (x : option string) : Completion string :=
  match x with
  | Some s => Normal (JS.toLowerCase s)
  | None => Throw (TypeError "Cannot read property 'toLowerCase' of null")
  end.

(** The callback of the specifier scan. *)
Definition checkSpecifier (curImport : ImportDeclaration)
    (prevSpec curSpec : ImportSpecifierNode) : M Locals ImportSpecifierNode :=
  (l <- getLocals ;;
   (if isSorted l then
      let curSortName := getImportSpecifierSortName curSpec in
      let prevSortName := getImportSpecifierSortName prevSpec in
      if JS.lt (JS.toLowerCase curSortName) (JS.toLowerCase prevSortName) then
        set_isSorted false ;;;
        set_lastUnsortedDeclaration curImport ;;;
        (if fixable l then push_declarationsWithUnsortedSpecifiers curImport
         else ret tt) ;;;
        report (mkReport (specNode curSpec)
                  "Expected '{{a}}' to be before '{{b}}'"
                  [("a", Some curSortName); ("b", Some prevSortName)]
                  None)
      else ret tt
    else ret tt) ;;;
   ret curSpec)%V.

(** The part of the declaration scan that looks at the specifiers of
    [curImport]. *)
Definition checkSpecifiers (curImport : ImportDeclaration) : M Locals unit :=
  if negb (isImportSideEffect curImport) then
    let sortableSpecifiers := filter isImportSpecifier (specifiers curImport) in
    if 2 <=? List.length sortableSpecifiers then
      (set_isSorted true ;;;
       _ <- reduce1 (checkSpecifier curImport) sortableSpecifiers ;;
       ret tt)%V
    else ret tt
  else ret tt.

(** The group and name comparison of the declaration scan. *)
Definition checkDeclaration (prevImport curImport : ImportDeclaration)
    : M Locals unit :=
  let curDeclarationSortIdx := getImportDeclarationSortIdx curImport in
  let prevDeclarationSortIdx := getImportDeclarationSortIdx prevImport in
  if curDeclarationSortIdx <? prevDeclarationSortIdx then
    (set_lastUnsortedDeclaration curImport ;;;
     report (mkReport (declNode curImport)
               "Expected {{a}} imports to be before {{b}} imports."
               [("a", nth_error DECL_TYPE_NAMES curDeclarationSortIdx);
                ("b", nth_error DECL_TYPE_NAMES prevDeclarationSortIdx)]
               None))%V
  else if curDeclarationSortIdx =? prevDeclarationSortIdx then
    if (declarationSort =? "import")%string then
      let curSortName := getImportDeclarationSortName curImport in
      let prevSortName := getImportDeclarationSortName prevImport in
      (curLower <- liftC (toLowerCaseOf curSortName) ;;
       prevLower <- liftC (toLowerCaseOf prevSortName) ;;
       if JS.lt curLower prevLower then
         set_lastUnsortedDeclaration curImport ;;;
         report (mkReport (declNode curImport)
                   "Expected '{{impA}}' from '{{decA}}' to be before '{{impB}}' from '{{decB}}'."
                   [("impA", curSortName); ("impB", prevSortName);
                    ("decA", Some (source_value curImport));
                    ("decB", Some (source_value prevImport))]
                   None)
       else ret tt)%V
    else if (declarationSort =? "source")%string then
      let curSource := source_value curImport in
      let prevSource := source_value prevImport in
      if JS.lt (JS.toLowerCase curSource) (JS.toLowerCase prevSource) then
        (set_lastUnsortedDeclaration curImport ;;;
         report (mkReport (declNode curImport)
                   "Expected imports from '{{a}}' to be before imports from '{{b}}'"
                   [("a", Some curSource); ("b", Some prevSource)]
                   None))%V
      else ret tt
    else throw (Error "Unexpected sort strategy")
  else ret tt.

(** The callback of [imports.reduce(...)]. *)
Definition checkImport (prevImport curImport : ImportDeclaration)
    : M Locals ImportDeclaration :=
  (checkDeclaration prevImport curImport ;;;
   checkSpecifiers curImport ;;;
   ret curImport)%V.

(** The source text the fix callback reads, [context.getSourceCode()]. *)
Variable sourceCode : SourceCode.

(** The narrower fix: one declaration's destructured specifiers. *)
Definition fixSpecifiers (imp : ImportDeclaration) : Completion Fix :=
  let specifiers := filter isImportSpecifier (specifiers imp) in
  (range <- getSpanningRange (map specNode specifiers) ;;
   sorted <- sort (getSorter (fun node =>
               Normal (KString (JS.toLowerCase (getImportSpecifierSortName node)))))
             specifiers ;;
   text <- reduceIdxC
             (fun textBefore newSpec idx =>
                text <- (if differs (specNode newSpec)
                              (option_map specNode (nth_error specifiers 0))
                         then getCommentedText sourceCode (specNode newSpec)
                         else Normal (getText sourceCode (specNode newSpec))) ;;
                textAfter <- getTextBetweenCommentedNodes sourceCode
                               (option_map specNode (nth_error specifiers idx))
                               (option_map specNode (nth_error specifiers (idx + 1))) ;;
                Normal (textBefore ++ text ++ textAfter)%string)
             sorted 0 "" ;;
   Normal (mkFix range text))%C.

(** The sort function handed to [getSorter] for declarations: the group
    ordinal concatenated with the lower-cased name or source. *)
Definition declarationSortKey (node : ImportDeclaration) : Completion SortKey :=
  if (declarationSort =? "import")%string then
    (name <- toLowerCaseOf (getImportDeclarationSortName node) ;;
     Normal (KString (JS.numberToString (getImportDeclarationSortIdx node)
                        ++ name)%string))%C
  else if (declarationSort =? "source")%string then
    Normal (KString (JS.numberToString (getImportDeclarationSortIdx node)
                       ++ JS.toLowerCase (source_value node))%string)
  else Throw (Error "Unexpected sort strategy").

(** [imports.slice().sort(getSorter(...))] of the declaration fix. *)
Definition sortDeclarations (imports : list ImportDeclaration)
    : Completion (list ImportDeclaration) :=
  sort (getSorter declarationSortKey) imports.

(** The consolidated fix: all import declarations, one per line, a blank
    line between groups.  The accumulator carries [prevGroup] along with
    the text. *)
Definition fixDeclarations (imports : list ImportDeclaration) : Completion Fix :=
  (range <- getSpanningRange (map declNode imports) ;;
   sorted <- sortDeclarations imports ;;
   acc <- reduceIdxC
            (fun (acc : string * option nat) newImport idx =>
               let '(textBefore, prevGroup) := acc in
               let currentGroup := getImportDeclarationSortIdx newImport in
               let groupSeparator :=
                 match prevGroup with
                 | Some g => if negb (g =? currentGroup) then JS.newline else ""
                 | None => ""
                 end in
               text <- (if differs (declNode newImport)
                             (option_map declNode (nth_error imports 0))
                        then getCommentedText sourceCode (declNode newImport)
                        else Normal (getText sourceCode (declNode newImport))) ;;
               let textAfter :=
                 if idx <? List.length imports - 1 then JS.newline else "" in
               Normal ((textBefore ++ groupSeparator ++ text ++ textAfter)%string,
                       Some currentGroup))
            sorted 0 ("", None) ;;
   Normal (mkFix range (fst acc)))%C.

(** The [fix(fixer)] callback of the final report. *)
Definition fixCallback (imports declarationsWithUnsortedSpecifiers
                          : list ImportDeclaration) : Completion (list Fix) :=
  if negb (List.length declarationsWithUnsortedSpecifiers =? 0)
  then mapC fixSpecifiers declarationsWithUnsortedSpecifiers
  else (f <- fixDeclarations imports ;; Normal [f])%C.

(** The [Program] handler. *)
Definition Program (body : list Statement) : M Locals unit :=
  if List.length body <? 2 then ret tt
  else
    (imports <- reduceM collectImport body (mkImports [] false) ;;
     if List.length (items imports) <? 2 then ret tt
     else
       _ <- reduce1 checkImport (items imports) ;;
       l <- getLocals ;;
       match lastUnsortedDeclaration l with
       | Some lastUnsorted =>
           if fixOption && fixable l then
             report (mkReport (declNode lastUnsorted)
                       "Expected imports to be sorted."
                       []
                       (Some (fixCallback (items imports)
                                (declarationsWithUnsortedSpecifiers l))))
           else ret tt
       | None => ret tt
       end)%V.

(** One traversal call: the reports it makes and how it completes. *)
Definition runProgram (body : list Statement) : list Report * Completion unit :=
  run (Program body) initialLocals.
End Rule.
End SortImports.

(* ------------------------------------------------------------------ *)
(** ** Object properties, shared by the two key rules *)

(** An entry of an object literal or of a destructuring pattern.  A spread or
    rest entry has no [key]. *)
Record Property : Type := mkProperty {
  propNode : Node;
  type : string;
  key : option Expression;
}.

(** The text-rebuilding reduce both key rules use: the nodes in their new
    order, each followed by the text that followed the node of the same
    position in [original]; [first] is the node whose leading comments are not
    carried along. *)
Definition rebuildText (source : SourceCode) (original : list Property)
    (first : option Node) (sorted : list Property) : Completion string :=
  reduceIdxC
    (fun textBefore newProp idx =>
       (text <- (if differs (propNode newProp) first
                 then getCommentedText source (propNode newProp)
                 else Normal (getText source (propNode newProp))) ;;
        textAfter <- getTextBetweenCommentedNodes source
                       (option_map propNode (nth_error original idx))
                       (option_map propNode (nth_error original (idx + 1))) ;;
        Normal (textBefore ++ text ++ textAfter)%string)%C)
    sorted 0 "".

(* ------------------------------------------------------------------ *)
(** ** sort-pattern-keys *)

Module SortPatternKeys.

Definition isRestElement (node : Property) : bool :=
  (type node =? "RestProperty")%string
  || (type node =? "ExperimentalRestProperty")%string
  || (type node =? "RestElement")%string.

Record ObjectPatternNode : Type := mkPattern {
  patternNode : Node;
  properties : list Property;
}.

(** [properties < 2] compares the array itself with a number: the array is
    converted to a string and that string to a number.  The empty array
    gives the empty string and so 0; an array of node objects gives
    ["[object Object]"], joined by commas, which is [NaN] ([None]). *)
Definition arrayToNumber {A} (l : list A) : option nat :=
  match l with
  | [] => Some 0
  | _ :: _ => None
  end.

(** [x < n] on numbers, false when [x] is [NaN]. *)
Definition numberLt (x : option nat) (n : nat) : bool :=
  match x with
  | Some v => v <? n
  | None => false
  end.

Section Rule.
Variable fixOption : bool.
Variable sourceCode : SourceCode.

(** The callback of [node.properties.reduce(...)]; the local is
    [isSorted]. *)
Definition checkProperty (prevProp curProp : Property) : M bool Property :=
  if isRestElement curProp then ret curProp
  else
    let curName := getExpressionSortName (key curProp) in
    let prevName := getExpressionSortName (key prevProp) in
    ((if isRestElement prevProp then
        setLocals false ;;;
        report (mkReport (propNode prevProp)
                  "Expected rest element to be the last property."
                  [] None)
      else if JS.lt (JS.toLowerCase curName) (JS.toLowerCase prevName) then
        setLocals false ;;;
        report (mkReport (propNode curProp)
                  "Expected '{{a}}' to be before '{{b}}'"
                  [("a", Some curName); ("b", Some prevName)] None)
      else ret tt) ;;;
     ret curProp)%V.

(** The sort function of the fix: a rest element gets [Infinity]. *)
Definition patternSortKey (prop : Property) : Completion SortKey :=
  Normal (if isRestElement prop then KInfinity
          else KString (JS.toLowerCase (getExpressionSortName (key prop)))).

Definition fixCallback (props : list Property) : Completion (list Fix) :=
  (range <- getSpanningRange (map propNode props) ;;
   sorted <- sort (getSorter patternSortKey) props ;;
   text <- rebuildText sourceCode props
             (option_map propNode (nth_error props 0)) sorted ;;
   Normal [mkFix range text])%C.

(** The [ObjectPattern] handler. *)
Definition ObjectPattern (node : ObjectPatternNode) : M bool unit :=
  if numberLt (arrayToNumber (properties node)) 2 then ret tt
  else
    (setLocals true ;;;
     _ <- reduce1 checkProperty (properties node) ;;
     isSorted <- getLocals ;;
     if negb isSorted && fixOption then
       report (mkReport (patternNode node)
                 "Expected object properties to be sorted."
                 [] (Some (fixCallback (properties node))))
     else ret tt)%V.

Definition runObjectPattern (node : ObjectPatternNode)
    : list Report * Completion unit :=
  run (ObjectPattern node) true.
End Rule.
End SortPatternKeys.

(* ------------------------------------------------------------------ *)
(** ** sort-object-keys *)

Module SortObjectKeys.

Record ObjectExpressionNode : Type := mkObject {
  objectNode : Node;
  properties : list Property;
}.

Definition isSpread (prop : Property) : bool :=
  (type prop =? "SpreadProperty")%string
  || (type prop =? "ExperimentalSpreadProperty")%string.

(** The callback of the reduce in [getDefinedPropSpansOfObjectExpression];
    the state pairs the accumulator [propSpans] with the variable
    [propSpan] the callback assigns. *)
Definition spanStep (n : nat) (st : list (list Property) * list Property)
    (prop : Property) (idx : nat) : list (list Property) * list Property :=
  let '(propSpans, propSpan) := st in
  let '(propSpans, propSpan) :=
    if isSpread prop then
      if negb (List.length propSpan =? 0) then (propSpans ++ [propSpan], [])
      else (propSpans, propSpan)
    else (propSpans, propSpan ++ [prop]) in
  if negb (List.length propSpan =? 0) && (idx =? n - 1)
  then (propSpans ++ [propSpan], propSpan)
  else (propSpans, propSpan).

Fixpoint reduceIdx {A B} (f : B -> A -> nat -> B) (l : list A) (idx : nat)
    (init : B) : B :=
  match l with
  | [] => init
  | x :: l' => reduceIdx f l' (S idx) (f init x idx)
  end.

Definition getDefinedPropSpansOfObjectExpression (node : ObjectExpressionNode)
    : list (list Property) :=
  fst (reduceIdx (spanStep (List.length (properties node)))
         (properties node) 0 ([], [])).

Section Rule.
Variable fixOption : bool.
Variable sourceCode : SourceCode.

(** The callback of [span.reduce(...)]; the local is
    [lastUnsortedProperty]. *)
Definition checkProperty (prevProp curProp : Property)
    : M (option Property) Property :=
  let curName := getExpressionSortName (key curProp) in
  let prevName := getExpressionSortName (key prevProp) in
  ((if JS.lt (JS.toLowerCase curName) (JS.toLowerCase prevName) then
      setLocals (Some curProp) ;;;
      report (mkReport (propNode curProp)
                "Expected '{{a}}' to be before '{{b}}'."
                [("a", Some curName); ("b", Some prevName)] None)
    else ret tt) ;;;
   ret curProp)%V.

Definition spanSortKey (prop : Property) : Completion SortKey :=
  Normal (KString (JS.toLowerCase (getExpressionSortName (key prop)))).

Definition fixCallback (node : ObjectExpressionNode) (span : list Property)
    : Completion (list Fix) :=
  (range <- getSpanningRange (map propNode span) ;;
   sorted <- sort (getSorter spanSortKey) span ;;
   text <- rebuildText sourceCode span
             (option_map propNode (nth_error (properties node) 0)) sorted ;;
   Normal [mkFix range text])%C.

(** The callback of [forEach] over the spans. *)
Definition checkSpan (node : ObjectExpressionNode) (span : list Property)
    : M (option Property) unit :=
  if List.length span <? 2 then ret tt
  else
    (setLocals None ;;;
     _ <- reduce1 checkProperty span ;;
     lastUnsortedProperty <- getLocals ;;
     match lastUnsortedProperty with
     | Some lastUnsorted =>
         if fixOption then
           report (mkReport (propNode lastUnsorted)
                     "Expected object properties to be sorted."
                     [] (Some (fixCallback node span)))
         else ret tt
     | None => ret tt
     end)%V.

(** The [ObjectExpression] handler. *)
Definition ObjectExpression (node : ObjectExpressionNode)
    : M (option Property) unit :=
  if List.length (properties node) <? 2 then ret tt
  else forEach (checkSpan node) (getDefinedPropSpansOfObjectExpression node).

Definition runObjectExpression (node : ObjectExpressionNode)
    : list Report * Completion unit :=
  run (ObjectExpression node) None.
End Rule.
End SortObjectKeys.


(* ================================================================== *)
(** * Vocabulary of the specification *)

(** ** Sorting *)

(** [a] may stand before [b]: the comparator returns and does not say
    "after". *)
Definition before {A} (compareFn : A -> A -> Completion Z) (a b : A) : Prop :=
  exists z, compareFn a b = Normal z /\ (z <= 0)%Z.

(** ** Text spans *)

(** Where a node's owned text starts: at its first leading comment when it
    has one, otherwise at the node itself. *)
Definition ownedStart (source : SourceCode) (n : Node) : nat :=
  match getCommentsBefore source n with
  | comment0 :: _ => fst (range comment0)
  | [] => fst (range n)
  end.

(** ** sort-imports *)

Module ImportSpec.
Import SortImports.

Definition namedSpecifiers (node : ImportDeclaration) : list ImportSpecifierNode :=
  filter isImportSpecifier (specifiers node).

(** [k] is a minimum of [names] in the case-insensitive order: it is one of
    them and none of them is below it. *)
Definition isMinKey (k : string) (names : list string) : Prop :=
  In k names
  /\ forall n, In n names -> JS.lt (JS.toLowerCase n) (JS.toLowerCase k) = false.

(** The first adjacent pair of [prev :: rest] whose keys are out of
    case-insensitive order. *)
Fixpoint firstDisorder (prev : ImportSpecifierNode) (rest : list ImportSpecifierNode)
    : option (ImportSpecifierNode * ImportSpecifierNode) :=
  match rest with
  | [] => None
  | cur :: rest' =>
      if JS.lt (JS.toLowerCase (getImportSpecifierSortName cur))
               (JS.toLowerCase (getImportSpecifierSortName prev))
      then Some (prev, cur)
      else firstDisorder cur rest'
  end.

(** How many adjacent pairs of [prev :: rest] are out of order. *)
Fixpoint misorderedPairs (prev : ImportSpecifierNode) (rest : list ImportSpecifierNode)
    : nat :=
  match rest with
  | [] => 0
  | cur :: rest' =>
      (if JS.lt (JS.toLowerCase (getImportSpecifierSortName cur))
                (JS.toLowerCase (getImportSpecifierSortName prev))
       then 1 else 0) + misorderedPairs cur rest'
  end.

(** The diagnostic for the specifier [cur] being below its predecessor. *)
Definition specifierReport (prev cur : ImportSpecifierNode) : Report :=
  mkReport (specNode cur) "Expected '{{a}}' to be before '{{b}}'"
           [("a", Some (getImportSpecifierSortName cur));
            ("b", Some (getImportSpecifierSortName prev))]
           None.

(** The specifier diagnostics of one declaration: one for the first pair of
    named specifiers out of order, if there is such a pair. *)
Definition specifierReports (d : ImportDeclaration) : list Report :=
  match namedSpecifiers d with
  | [] => []
  | first :: rest =>
      match firstDisorder first rest with
      | Some (prev, cur) => [specifierReport prev cur]
      | None => []
      end
  end.

(** Has the declaration a pair of named specifiers out of order? *)
Definition hasSpecifierDisorder (d : ImportDeclaration) : bool :=
  negb (List.length (specifierReports d) =? 0).

(** The three diagnostics of the group-then-name comparison of two
    declarations. *)
Definition isDeclarationViolation (r : Report) : bool :=
  (message r =? "Expected {{a}} imports to be before {{b}} imports.")%string
  || (message r =? "Expected '{{impA}}' from '{{decA}}' to be before '{{impB}}' from '{{decB}}'.")%string
  || (message r =? "Expected imports from '{{a}}' to be before imports from '{{b}}'")%string.

(** The import declarations of a program body, in order. *)
Fixpoint importsOf (body : list Statement) : list ImportDeclaration :=
  match body with
  | [] => []
  | ImportDecl d :: body' => d :: importsOf body'
  | OtherStatement _ :: body' => importsOf body'
  end.

(** A statement that is not an import stands between two import
    declarations. *)
Definition interleaved (body : list Statement) : Prop :=
  exists front d1 mid1 n mid2 d2 after,
    body = front ++ ImportDecl d1 :: mid1 ++ OtherStatement n :: mid2
                  ++ ImportDecl d2 :: after.

(** Whether the body scan leaves [fixable] alone: [started] says an import
    has been seen, [gap] that a statement of another kind has been seen after
    it. *)
Fixpoint staysFixable (started gap : bool) (body : list Statement) : bool :=
  match body with
  | [] => true
  | ImportDecl _ :: body' =>
      if started && gap then false else staysFixable true gap body'
  | OtherStatement _ :: body' =>
      staysFixable started (if started then true else gap) body'
  end.

(** Do two neighbours of [prev :: rest] fall in the same group? *)
Fixpoint adjacentSameGroup (group : ImportDeclaration -> nat)
    (prev : ImportDeclaration) (rest : list ImportDeclaration) : bool :=
  match rest with
  | [] => false
  | cur :: rest' => (group cur =? group prev) || adjacentSameGroup group cur rest'
  end.

Definition someAdjacentSameGroup (group : ImportDeclaration -> nat)
    (imports : list ImportDeclaration) : bool :=
  match imports with
  | [] => false
  | first :: rest => adjacentSameGroup group first rest
  end.

(** The outcome of comparing a declaration with its predecessor. *)
Inductive Verdict : Type :=
| InOrder
| Violation (r : Report)
| Abort (e : Exn).

(** What an outcome does to the handler's state: a violation is reported and
    makes [cur] the last unsorted declaration. *)
Definition applyVerdict (v : Verdict) (cur : ImportDeclaration) (c : Ctx Locals)
    : Ctx Locals * Completion unit :=
  match v with
  | InOrder => (c, Normal tt)
  | Violation r =>
      (mkCtx (reports c ++ [r])
             (mkLocals (declarationsWithUnsortedSpecifiers (locals c))
                       (fixable (locals c)) (Some cur) (isSorted (locals c))),
       Normal tt)
  | Abort e => (c, Throw e)
  end.

(** Two states of the handler that a reader of the diagnostics cannot tell
    apart. *)
Definition agree (c1 c2 : Ctx Locals) : Prop :=
  reports c1 = reports c2
  /\ lastUnsortedDeclaration (locals c1) = lastUnsortedDeclaration (locals c2).

(** The report that carries the fix. *)
Definition fixReport (lastUnsorted : ImportDeclaration)
    (callback : Completion (list Fix)) : Report :=
  mkReport (declNode lastUnsorted) "Expected imports to be sorted." [] (Some callback).

(** What the handler does once the scan is over: an exception of the scan
    propagates; otherwise the fix is reported when there is an unsorted
    declaration, the option is on and the region is fixable.  [callback] is
    the fix callback, given the declarations with unsorted specifiers. *)
Definition finishScan (fixOption : bool)
    (callback : list ImportDeclaration -> Completion (list Fix))
    (s : Ctx Locals * Completion ImportDeclaration) : Ctx Locals * Completion unit :=
  match s with
  | (c, Throw e) => (c, Throw e)
  | (c, Normal _) =>
      match lastUnsortedDeclaration (locals c) with
      | Some lastUnsorted =>
          if fixOption && fixable (locals c)
          then (mkCtx (reports c
                         ++ [fixReport lastUnsorted
                               (callback (declarationsWithUnsortedSpecifiers (locals c)))])
                      (locals c),
                Normal tt)
          else (c, Normal tt)
      | None => (c, Normal tt)
      end
  end.

(** The string the declaration sort function computes in the two supported
    strategies: the group ordinal, then the lower-cased name or source. *)
Definition compositeKey (resolves : string -> bool) (declarationSort : string)
    (d : ImportDeclaration) : string :=
  (JS.numberToString (getImportDeclarationSortIdx resolves d)
   ++ JS.toLowerCase
        (if (declarationSort =? "import")%string
         then match getImportDeclarationSortName d with
              | Some name => name
              | None => ""
              end
         else source_value d))%string.

(** What a traversal shows: its reports and its completion. *)
Definition observe {A} (s : Ctx Locals * Completion A) : list Report * Completion A :=
  (reports (fst s), snd s).

End ImportSpec.

(** ** The key rules *)

Module KeySpec.

(** The lower-cased key two properties are compared by. *)
Definition propKey (p : Property) : string :=
  JS.toLowerCase (getExpressionSortName (key p)).

(** [a] followed by [b] is in order: the key of [b] is not below the key of
    [a]. *)
Definition keyOrdered (a b : Property) : Prop :=
  JS.lt (propKey b) (propKey a) = false.

(** The diagnostic of the pattern rule for a rest element that is not last. *)
Definition restNotLastReport (rest : Property) : Report :=
  mkReport (propNode rest) "Expected rest element to be the last property." [] None.

(** The diagnostic of the object rule for [cur] being below its predecessor. *)
Definition objectKeyReport (prev cur : Property) : Report :=
  mkReport (propNode cur) "Expected '{{a}}' to be before '{{b}}'."
           [("a", Some (getExpressionSortName (key cur)));
            ("b", Some (getExpressionSortName (key prev)))]
           None.

(** The diagnostics for the adjacent pairs of [prev :: rest] that are out of
    order, in order. *)
Fixpoint disorderReports (prev : Property) (rest : list Property) : list Report :=
  match rest with
  | [] => []
  | cur :: rest' =>
      (if JS.lt (propKey cur) (propKey prev) then [objectKeyReport prev cur] else [])
        ++ disorderReports cur rest'
  end.

(** The last property of [prev :: rest] that is below its predecessor. *)
Fixpoint lastDisorder (prev : Property) (rest : list Property) (found : option Property)
    : option Property :=
  match rest with
  | [] => found
  | cur :: rest' =>
      lastDisorder cur rest'
        (if JS.lt (propKey cur) (propKey prev) then Some cur else found)
  end.

(** The maximal runs of properties that are not spreads, in order; [run] is
    the run in progress. *)
Fixpoint runsOf (isSpread : Property -> bool) (run : list Property)
    (props : list Property) : list (list Property) :=
  match props with
  | [] => match run with [] => [] | _ :: _ => [run] end
  | p :: props' =>
      if isSpread p
      then match run with
           | [] => runsOf isSpread [] props'
           | _ :: _ => run :: runsOf isSpread [] props'
           end
      else runsOf isSpread (run ++ [p]) props'
  end.

End KeySpec.

(** ** sort-object-keys *)

Module ObjectSpec.
Import SortObjectKeys KeySpec.

(** The reports for one run of properties between spreads: nothing for a run
    of fewer than two properties; otherwise the diagnostics of the adjacent
    pairs out of order inside the run and, when there is one and the fix
    option is on, one report with the fix of that run. *)
Definition spanReports (fixOption : bool) (sourceCode : SourceCode)
    (node : ObjectExpressionNode) (span : list Property) : list Report :=
  match span with
  | first :: (_ :: _) as rest =>
      disorderReports first rest
        ++ match lastDisorder first rest None with
           | Some lastUnsorted =>
               if fixOption
               then [mkReport (propNode lastUnsorted)
                       "Expected object properties to be sorted." []
                       (Some (fixCallback sourceCode node span))]
               else []
           | None => []
           end
  | _ => []
  end.

End ObjectSpec.

(** ** The rebuilt text *)

Module RewriteSpec.

(** The text a reordered node brings along: from its first leading comment
    to its end, or its own text alone when it is the node [first] whose
    comments are left where they are. *)
Definition nodeText (source : SourceCode) (first : option Node) (n : Node) : string :=
  if differs n first
  then JS.slice (text source) (ownedStart source n) (snd (range n))
  else JS.slice (text source) (fst (range n)) (snd (range n)).

(** The text between the original node of position [idx] and the owned start
    of its original successor; empty after the last node. *)
Definition separatorAfter (source : SourceCode) (original : list Property) (idx : nat)
    : string :=
  match nth_error original idx, nth_error original (idx + 1) with
  | Some a, Some b =>
      JS.slice (text source) (snd (range (propNode a)))
               (ownedStart source (propNode b))
  | _, _ => ""
  end.

(** The nodes of [sorted] in turn, each followed by the separator of its new
    position, counted from [idx]. *)
Fixpoint rebuilt (source : SourceCode) (original : list Property) (first : option Node)
    (sorted : list Property) (idx : nat) : string :=
  match sorted with
  | [] => ""
  | p :: sorted' =>
      (nodeText source first (propNode p) ++ separatorAfter source original idx
       ++ rebuilt source original first sorted' (S idx))%string
  end.

(** The nodes after [prev] follow one another in the text: each one's owned
    text starts at or after the end of its predecessor and does not end
    before it starts. *)
Fixpoint inSequence (source : SourceCode) (prev : Node) (rest : list Node) : Prop :=
  match rest with
  | [] => True
  | n :: rest' =>
      snd (range prev) <= ownedStart source n
      /\ ownedStart source n <= snd (range n)
      /\ inSequence source n rest'
  end.

End RewriteSpec.

(** ** Template literal keys *)

Module TemplateSpec.

(** The raw segments of a template literal, each followed by the key of the
    expression of the same position when there is one. *)
Fixpoint templateKey (keyOf : Expression -> string) (quasis : list string)
    (expressions : list Expression) : string :=
  match quasis with
  | [] => ""
  | raw :: quasis' =>
      match expressions with
      | [] => (raw ++ templateKey keyOf quasis' [])%string
      | e :: expressions' =>
          (raw ++ keyOf e ++ templateKey keyOf quasis' expressions')%string
      end
  end.

End TemplateSpec.

(** ** The text of the declaration fix *)

Module DeclarationFixSpec.
Import SortImports.

(** The text a declaration brings along when the fix moves it: from its first
    leading comment to its end, or its own text alone when it is the first
    of the original import declarations. *)
Definition declarationText (source : SourceCode) (imports : list ImportDeclaration)
    (d : ImportDeclaration) : string :=
  RewriteSpec.nodeText source (option_map declNode (nth_error imports 0)) (declNode d).

(** The declarations of [sorted] in turn, from position [idx] on: each on a
    line of its own, with one more line feed before a declaration whose group
    differs from the group [prevGroup] of the declaration before it, and no
    line feed after the position of the last original declaration. *)
Fixpoint declarationLines (resolves : string -> bool) (source : SourceCode)
    (imports : list ImportDeclaration) (prevGroup : option nat)
    (sorted : list ImportDeclaration) (idx : nat) : string :=
  match sorted with
  | [] => ""
  | d :: sorted' =>
      let currentGroup := getImportDeclarationSortIdx resolves d in
      let groupSeparator :=
        match prevGroup with
        | Some g => if negb (g =? currentGroup) then JS.newline else ""
        | None => ""
        end in
      let textAfter := if idx <? List.length imports - 1 then JS.newline else "" in
      (groupSeparator ++ declarationText source imports d ++ textAfter
       ++ declarationLines resolves source imports (Some currentGroup) sorted' (S idx))%string
  end.

(** The strings of [pieces] stand in the text [t] one after another, in this
    order and without overlap, at or after the offset [from]. *)
Fixpoint occursInOrder (t : string) (pieces : list string) (from : nat) : Prop :=
  match pieces with
  | [] => True
  | piece :: pieces' =>
      exists offset,
        from <= offset
        /\ JS.slice t offset (offset + String.length piece) = piece
        /\ occursInOrder t pieces' (offset + String.length piece)
  end.

End DeclarationFixSpec.

(* ================================================================== *)
(** * Example inputs *)

(** ** sort-imports: group labels *)

Module GroupLabels.
Import SortImports.

(** [import img from './a.png'] followed by [import React from 'react'],
    where only ['react'] resolves to a package. *)
Definition resolves (name : string) : bool := (name =? "react")%string.

Definition imgDecl : ImportDeclaration :=
  mkImport (mkNode 1 (0, 26))
           [ImportDefaultSpecifier (mkNode 2 (7, 10)) "img"] "./a.png".
Definition reactDecl : ImportDeclaration :=
  mkImport (mkNode 3 (27, 52))
           [ImportDefaultSpecifier (mkNode 4 (34, 39)) "React"] "react".
Definition localDecl : ImportDeclaration :=
  mkImport (mkNode 5 (0, 22))
           [ImportDefaultSpecifier (mkNode 6 (7, 10)) "App"] "./app".

Definition noComments : Node -> list Node := fun _ => [].

Definition assetThenPackage : list Statement := [ImportDecl imgDecl; ImportDecl reactDecl].
Definition localThenPackage : list Statement := [ImportDecl localDecl; ImportDecl reactDecl].
End GroupLabels.

(** ** sort-imports: declaration keys *)

Module DeclarationKeys.
Import SortImports.

(** [import React, { zed } from 'react'] *)
Definition reactZed : ImportDeclaration :=
  mkImport (mkNode 1 (0, 33))
           [ImportDefaultSpecifier (mkNode 2 (7, 12)) "React";
            ImportSpecifier (mkNode 3 (16, 19)) "zed" "zed"] "react".

(** [import { Button, AnchorButton } from 'buttons'] *)
Definition buttons : ImportDeclaration :=
  mkImport (mkNode 1 (0, 46))
           [ImportSpecifier (mkNode 2 (9, 15)) "Button" "Button";
            ImportSpecifier (mkNode 3 (17, 29)) "AnchorButton" "AnchorButton"]
           "buttons".
End DeclarationKeys.

(** ** sort-imports: whole programs *)

Module Programs.
Import SortImports.

Definition resolves (name : string) : bool :=
  (name =? "react")%string || (name =? "prop-types")%string.

Definition noComments : Node -> list Node := fun _ => [].

(** [import './polyfill'] then [import React from 'react']. *)
Definition polyfill : ImportDeclaration :=
  mkImport (mkNode 1 (0, 19)) [] "./polyfill".
Definition react : ImportDeclaration :=
  mkImport (mkNode 2 (20, 45))
           [ImportDefaultSpecifier (mkNode 3 (27, 32)) "React"] "react".
Definition sideEffectThenPackage : list Statement :=
  [ImportDecl polyfill; ImportDecl react].

(** [import { c, b, a } from './letters'] *)
Definition letters : ImportDeclaration :=
  mkImport (mkNode 4 (46, 81))
           [ImportSpecifier (mkNode 5 (55, 56)) "c" "c";
            ImportSpecifier (mkNode 6 (58, 59)) "b" "b";
            ImportSpecifier (mkNode 7 (61, 62)) "a" "a"] "./letters".
Definition packageThenLetters : list Statement :=
  [ImportDecl react; ImportDecl letters].

(** [import PropTypes from 'prop-types'], and the program
    [import React from 'react'; setup(); import PropTypes from 'prop-types']. *)
Definition propTypes : ImportDeclaration :=
  mkImport (mkNode 8 (60, 95))
           [ImportDefaultSpecifier (mkNode 9 (67, 76)) "PropTypes"] "prop-types".
Definition setupCall : Statement := OtherStatement (mkNode 10 (46, 54)).
Definition interleavedProgram : list Statement :=
  [ImportDecl react; setupCall; ImportDecl propTypes].
End Programs.

(** ** sort-imports: the spec's end-to-end example *)

Module EndToEnd.
Import SortImports.

Definition resolves (name : string) : bool := (name =? "react")%string.

(** [import './side-effect'], [import SomeImage from '../images.png'],
    [import React from 'react'], one per line. *)
Definition sourceText : string :=
  ("import './side-effect'" ++ JS.newline
   ++ "import SomeImage from '../images.png'" ++ JS.newline
   ++ "import React from 'react'")%string.

Definition sideEffect : ImportDeclaration :=
  mkImport (mkNode 1 (0, 22)) [] "./side-effect".
Definition someImage : ImportDeclaration :=
  mkImport (mkNode 2 (23, 60))
           [ImportDefaultSpecifier (mkNode 3 (30, 39)) "SomeImage"] "../images.png".
Definition react : ImportDeclaration :=
  mkImport (mkNode 4 (61, 86))
           [ImportDefaultSpecifier (mkNode 5 (68, 73)) "React"] "react".

Definition imports : list ImportDeclaration := [sideEffect; someImage; react].
Definition sourceCode : SourceCode := mkSource sourceText (fun _ => []).

(** The text after the fix, [import './side-effect'], a blank line,
    [import React from 'react'], a blank line,
    [import SomeImage from '../images.png'], and its syntax tree. *)
Definition fixedText : string :=
  ("import './side-effect'" ++ JS.newline ++ JS.newline
   ++ "import React from 'react'" ++ JS.newline ++ JS.newline
   ++ "import SomeImage from '../images.png'")%string.

Definition fixedSideEffect : ImportDeclaration :=
  mkImport (mkNode 1 (0, 22)) [] "./side-effect".
Definition fixedReact : ImportDeclaration :=
  mkImport (mkNode 2 (24, 49))
           [ImportDefaultSpecifier (mkNode 3 (31, 36)) "React"] "react".
Definition fixedSomeImage : ImportDeclaration :=
  mkImport (mkNode 4 (51, 88))
           [ImportDefaultSpecifier (mkNode 5 (58, 67)) "SomeImage"] "../images.png".

Definition fixedBody : list Statement :=
  [ImportDecl fixedSideEffect; ImportDecl fixedReact; ImportDecl fixedSomeImage].
Definition fixedSourceCode : SourceCode := mkSource fixedText (fun _ => []).
End EndToEnd.

(** ** sort-imports: a comment before the first declaration *)

Module LeadingComment.
Import SortImports.

(** The text [/* c1 */ import B from 'b'], a line feed, [import A from 'a']. *)
Definition sourceText : string :=
  ("/* c1 */ import B from 'b'" ++ JS.newline ++ "import A from 'a'")%string.

Definition c1 : Node := mkNode 1 (0, 8).
Definition importB : ImportDeclaration :=
  mkImport (mkNode 2 (9, 26)) [ImportDefaultSpecifier (mkNode 3 (16, 17)) "B"] "b".
Definition importA : ImportDeclaration :=
  mkImport (mkNode 4 (27, 44)) [ImportDefaultSpecifier (mkNode 5 (34, 35)) "A"] "a".

(** The comment [c1] stands directly before the first declaration. *)
Definition sourceCode : SourceCode :=
  mkSource sourceText (fun n => if nid n =? 2 then [c1] else []).

Definition resolves (name : string) : bool := false.
Definition body : list Statement := [ImportDecl importB; ImportDecl importA].
End LeadingComment.

(** ** sort-pattern-keys: a pattern with a rest element *)

Module RestPattern.
Import SortPatternKeys.

(** The pattern [{b, a, ...rest}]. *)
Definition sourceText : string := "{b, a, ...rest}".
Definition propB : Property :=
  mkProperty (mkNode 1 (1, 2)) "Property" (Some (Identifier "b")).
Definition propA : Property :=
  mkProperty (mkNode 2 (4, 5)) "Property" (Some (Identifier "a")).
Definition rest : Property := mkProperty (mkNode 3 (7, 14)) "RestElement" None.
Definition pattern : ObjectPatternNode :=
  mkPattern (mkNode 0 (0, 15)) [propB; propA; rest].
Definition sourceCode : SourceCode := mkSource sourceText (fun _ => []).
End RestPattern.

(** ** sort-object-keys: an object literal with spreads *)

Module SpreadObject.
Import SortObjectKeys.

(** The object literal [{...x, b, a, ...y, d, c}]. *)
Definition sourceText : string := "{...x, b, a, ...y, d, c}".
Definition spreadX : Property :=
  mkProperty (mkNode 1 (1, 5)) "SpreadProperty" None.
Definition propB : Property :=
  mkProperty (mkNode 2 (7, 8)) "Property" (Some (Identifier "b")).
Definition propA : Property :=
  mkProperty (mkNode 3 (10, 11)) "Property" (Some (Identifier "a")).
Definition spreadY : Property :=
  mkProperty (mkNode 4 (13, 17)) "SpreadProperty" None.
Definition propD : Property :=
  mkProperty (mkNode 5 (19, 20)) "Property" (Some (Identifier "d")).
Definition propC : Property :=
  mkProperty (mkNode 6 (22, 23)) "Property" (Some (Identifier "c")).
Definition object : ObjectExpressionNode :=
  mkObject (mkNode 0 (0, 24)) [spreadX; propB; propA; spreadY; propD; propC].
Definition sourceCode : SourceCode := mkSource sourceText (fun _ => []).
End SpreadObject.

(** ** sort-object-keys: spreads as the ESTree parsers deliver them *)

Module SpreadElementObject.
Import SortObjectKeys.

(** The object literal [{...x, b, a, ...y, d, c}] again, its two spreads of
    node type 'SpreadElement'. *)
Definition sourceText : string := "{...x, b, a, ...y, d, c}".
Definition spreadX : Property :=
  mkProperty (mkNode 1 (1, 5)) "SpreadElement" None.
Definition propB : Property :=
  mkProperty (mkNode 2 (7, 8)) "Property" (Some (Identifier "b")).
Definition propA : Property :=
  mkProperty (mkNode 3 (10, 11)) "Property" (Some (Identifier "a")).
Definition spreadY : Property :=
  mkProperty (mkNode 4 (13, 17)) "SpreadElement" None.
Definition propD : Property :=
  mkProperty (mkNode 5 (19, 20)) "Property" (Some (Identifier "d")).
Definition propC : Property :=
  mkProperty (mkNode 6 (22, 23)) "Property" (Some (Identifier "c")).
Definition object : ObjectExpressionNode :=
  mkObject (mkNode 0 (0, 24)) [spreadX; propB; propA; spreadY; propD; propC].
Definition sourceCode : SourceCode := mkSource sourceText (fun _ => []).
End SpreadElementObject.

(** ** sort-pattern-keys: a pattern with a comment *)

Module CommentedPattern.
Import SortPatternKeys.

(** The pattern [{b, /* c */ a}]. *)
Definition sourceText : string := "{b, /* c */ a}".
Definition comment : Node := mkNode 3 (4, 11).
Definition propB : Property :=
  mkProperty (mkNode 1 (1, 2)) "Property" (Some (Identifier "b")).
Definition propA : Property :=
  mkProperty (mkNode 2 (12, 13)) "Property" (Some (Identifier "a")).
Definition sourceCode : SourceCode :=
  mkSource sourceText (fun n => if nid n =? 2 then [comment] else []).
End CommentedPattern.

(** ** Further inputs *)

Module MoreInputs.

(** [import { c, b, a } from './letters'] followed by a call: one import
    declaration. *)
Definition oneImport : list SortImports.Statement :=
  [SortImports.ImportDecl Programs.letters; Programs.setupCall].

(** The pattern [{b, ...rest, a}]: the rest element is not last. *)
Definition restInTheMiddle : list Property :=
  [RestPattern.propB] ++ RestPattern.rest :: [RestPattern.propA].

(** The object literal [{b, a}], without spreads. *)
Definition plainObject : SortObjectKeys.ObjectExpressionNode :=
  SortObjectKeys.mkObject (mkNode 0 (0, 6)) [SpreadObject.propB; SpreadObject.propA].

End MoreInputs.

(** ** sort-object-keys: a commented property after a spread *)

Module CommentAfterSpread.
Import SortObjectKeys.

(** The object literal [{...x, /* c */ b, a}]. *)
Definition sourceText : string := "{...x, /* c */ b, a}".
Definition comment : Node := mkNode 4 (7, 14).
Definition spreadX : Property := mkProperty (mkNode 1 (1, 5)) "SpreadProperty" None.
Definition propB : Property :=
  mkProperty (mkNode 2 (15, 16)) "Property" (Some (Identifier "b")).
Definition propA : Property :=
  mkProperty (mkNode 3 (18, 19)) "Property" (Some (Identifier "a")).
Definition object : ObjectExpressionNode :=
  mkObject (mkNode 0 (0, 20)) [spreadX; propB; propA].
Definition sourceCode : SourceCode :=
  mkSource sourceText (fun n => if nid n =? 2 then [comment] else []).
End CommentAfterSpread.

(* ================================================================== *)
(** * Verification *)

(** ** The visitor monad *)

Ltac unfold_visitor :=
  unfold bind, ret, report, getLocals, setLocals, liftC, throw in *.

Lemma reduceM_app {L A B} (f : B -> A -> M L B) (l1 l2 : list A) (init : B) (c : Ctx L) :
  reduceM f (l1 ++ l2) init c =
  match reduceM f l1 init c with
  | (c', Normal b) => reduceM f l2 b c'
  | (c', Throw e) => (c', Throw e)
  end.
Proof.
  revert init c.
  induction l1 as [|x l1 IH]; intros init c; simpl.
  - reflexivity.
  - unfold bind. destruct (f init x c) as [c' [b|e]]; [apply IH | reflexivity].
Qed.

(* ------------------------------------------------------------------ *)
(** ** sort-pattern-keys: fewer than two properties *)

Section PatternKeysShortLists.
Import SortPatternKeys.
Variable fixOption : bool.
Variable sourceCode : SourceCode.

(** C10.  A destructuring pattern with fewer than two properties is never
    reported or fixed and never makes the handler throw.  The empty
    property list is caught by the guard, without which the reduce with no
    initial value would throw; a one-element list is let through by the
    guard, which compares the array and not its length with 2, and the
    reduce returns that element without calling its callback. *)
Theorem C10_short_pattern_silent :
  (forall n, runObjectPattern fixOption sourceCode (mkPattern n []) = ([], Normal tt))
  /\ (forall n p, runObjectPattern fixOption sourceCode (mkPattern n [p]) = ([], Normal tt))
  /\ numberLt (arrayToNumber (@nil Property)) 2 = true
  /\ (forall c, exists msg, snd (reduce1 checkProperty [] c) = Throw (TypeError msg))
  /\ (forall p : Property, numberLt (arrayToNumber [p]) 2 = false)
  /\ (forall p c, reduce1 checkProperty [p] c = (c, Normal p)).
Proof.
  repeat split; try reflexivity.
  intros c. eexists. reflexivity.
Qed.
End PatternKeysShortLists.

(* ------------------------------------------------------------------ *)
(** ** sort-imports: group labels *)

(** C3.  The label table has four entries, indexed 0 to 3, while the group
    ordinals are 0, 1, 3 and 4: the static-asset group has no label, and the
    internal group gets the static-asset label.  A package import after a
    static-asset import is reported with [b] undefined, and after an internal
    import with [b] reading "static asset". *)
Theorem C3_group_label_lookup_misses :
  nth_error SortImports.DECL_TYPE_NAMES SortImports.DECL_PRIORITIES.StaticAsset = None
  /\ nth_error SortImports.DECL_TYPE_NAMES SortImports.DECL_PRIORITIES.Internal
     = Some "static asset"
  /\ SortImports.runProgram GroupLabels.resolves "source" false
       (mkSource "" GroupLabels.noComments) GroupLabels.assetThenPackage
     = ([mkReport (mkNode 3 (27, 52))
           "Expected {{a}} imports to be before {{b}} imports."
           [("a", Some "external package"); ("b", None)] None],
        Normal tt)
  /\ SortImports.runProgram GroupLabels.resolves "source" false
       (mkSource "" GroupLabels.noComments) GroupLabels.localThenPackage
     = ([mkReport (mkNode 3 (27, 52))
           "Expected {{a}} imports to be before {{b}} imports."
           [("a", Some "external package"); ("b", Some "static asset")] None],
        Normal tt).
Proof. repeat split; vm_compute; reflexivity. Qed.

(* ------------------------------------------------------------------ *)
(** ** The order on strings *)

Module StringOrder.

Lemma lt_iff (a b : string) : JS.lt a b = true <-> String.compare a b = Lt.
Proof.
  unfold JS.lt, String.ltb. destruct (String.compare a b); split; congruence.
Qed.

Lemma lt_irrefl (a : string) : JS.lt a a = false.
Proof.
  destruct (JS.lt a a) eqn:E; [|reflexivity].
  apply lt_iff in E.
  assert (H : String.compare a a = Eq) by (apply OrderedTypeEx.String_as_OT.cmp_eq; reflexivity).
  congruence.
Qed.

Lemma lt_trans (a b c : string) :
  JS.lt a b = true -> JS.lt b c = true -> JS.lt a c = true.
Proof.
  rewrite !lt_iff. intros H1 H2.
  apply OrderedTypeEx.String_as_OT.cmp_lt.
  apply OrderedTypeEx.String_as_OT.lt_trans with b;
    apply OrderedTypeEx.String_as_OT.cmp_lt; assumption.
Qed.

(** The order is total: two strings neither of which is below the other are
    the same string. *)
Lemma lt_total (a b : string) :
  JS.lt a b = false -> JS.lt b a = false -> a = b.
Proof.
  unfold JS.lt, String.ltb. rewrite (String.compare_antisym b a).
  destruct (String.compare a b) eqn:E; simpl; try discriminate.
  intros _ _. apply OrderedTypeEx.String_as_OT.cmp_eq. exact E.
Qed.

Lemma lt_asym (a b : string) : JS.lt a b = true -> JS.lt b a = false.
Proof.
  unfold JS.lt, String.ltb. rewrite (String.compare_antisym b a).
  destruct (String.compare a b); simpl; congruence.
Qed.

(** [a <= b], as "not [b < a]", is transitive. *)
Lemma le_trans (a b c : string) :
  JS.lt b a = false -> JS.lt c b = false -> JS.lt c a = false.
Proof.
  intros H1 H2. destruct (JS.lt c a) eqn:E; [|reflexivity].
  destruct (JS.lt a b) eqn:E2.
  - rewrite (lt_trans _ _ _ E E2) in H2. discriminate.
  - assert (a = b) by (apply lt_total; assumption). subst. congruence.
Qed.

End StringOrder.

(* ------------------------------------------------------------------ *)
(** ** sort-imports: the key of a declaration in 'import' mode *)

Section DeclarationKey.
Import ImportSpec.
Import SortImports.

Lemma smallerSortName_keeps_min (l : list ImportSpecifierNode) :
  forall (a : string) (seen : list string),
    isMinKey a seen ->
    exists k, fold_left smallerSortName l (Some a) = Some k
              /\ isMinKey k (seen ++ map getImportSpecifierSortName
                                       (filter isImportSpecifier l)).
Proof.
  induction l as [|spec l IH]; intros a seen Hmin; simpl.
  - exists a. rewrite app_nil_r. auto.
  - unfold smallerSortName at 2.
    destruct (isImportSpecifier spec) eqn:Hs; [|apply IH; assumption].
    simpl map.
    replace (seen ++ getImportSpecifierSortName spec
               :: map getImportSpecifierSortName (filter isImportSpecifier l))
      with ((seen ++ [getImportSpecifierSortName spec])
              ++ map getImportSpecifierSortName (filter isImportSpecifier l))
      by (rewrite <- app_assoc; reflexivity).
    destruct Hmin as [Hin Hle].
    destruct (JS.lt (JS.toLowerCase (getImportSpecifierSortName spec))
                    (JS.toLowerCase a)) eqn:Hlt; apply IH; split.
    + apply in_or_app. right. left. reflexivity.
    + intros n Hn. apply in_app_or in Hn. destruct Hn as [Hn|[<-|[]]].
      * apply StringOrder.le_trans with (JS.toLowerCase a).
        -- apply StringOrder.lt_asym. exact Hlt.
        -- apply Hle. exact Hn.
      * apply StringOrder.lt_irrefl.
    + apply in_or_app. left. exact Hin.
    + intros n Hn. apply in_app_or in Hn. destruct Hn as [Hn|[<-|[]]].
      * apply Hle. exact Hn.
      * exact Hlt.
Qed.

(** C1, as the code has it.  For a declaration that has specifiers: when the
    first specifier is a default or namespace specifier the key is that
    specifier's local name, whether or not named specifiers follow; otherwise
    the key is a minimum, in the case-insensitive order, of the imported names
    of the named specifiers. *)
Theorem C1_declaration_key (node : ImportDeclaration) :
  isImportSideEffect node = false ->
  match specifiers node with
  | ImportDefaultSpecifier _ local :: _ => getImportDeclarationSortName node = Some local
  | ImportNamespaceSpecifier _ local :: _ => getImportDeclarationSortName node = Some local
  | _ => exists k, getImportDeclarationSortName node = Some k
                   /\ isMinKey k (map getImportSpecifierSortName (namedSpecifiers node))
  end.
Proof.
  intros Hse. unfold getImportDeclarationSortName. rewrite Hse.
  unfold isImportSideEffect in Hse.
  destruct (specifiers node) as [|spec0 l] eqn:Hspecs; [discriminate|].
  destruct spec0 as [n local|n local|n imported local]; try reflexivity.
  unfold namedSpecifiers. rewrite Hspecs. simpl.
  destruct (smallerSortName_keeps_min l (a := imported) (seen := [imported])) as [k [Hk Hmin]].
  - split; [left; reflexivity|].
    intros x [<-|[]]. apply StringOrder.lt_irrefl.
  - exists k. split; [exact Hk | exact Hmin].
Qed.

(** The reduce never leaves its [null]: every declaration has a key. *)
Lemma sortName_defined (node : ImportDeclaration) :
  exists k, getImportDeclarationSortName node = Some k.
Proof.
  unfold getImportDeclarationSortName.
  destruct (isImportSideEffect node) eqn:Hse; [eexists; reflexivity|].
  unfold isImportSideEffect in Hse.
  destruct (specifiers node) as [|spec0 l]; [discriminate|].
  destruct spec0 as [n local|n local|n imported local]; try (eexists; reflexivity).
  simpl.
  destruct (smallerSortName_keeps_min l (a := imported) (seen := [imported])) as [k [Hk _]].
  - split; [left; reflexivity|].
    intros x [<-|[]]. apply StringOrder.lt_irrefl.
  - exists k. exact Hk.
Qed.

(** The theorem at [import { Button, AnchorButton } from 'buttons']. *)
Lemma C1_declaration_key_witness :
  isImportSideEffect DeclarationKeys.buttons = false
  /\ exists k, getImportDeclarationSortName DeclarationKeys.buttons = Some k
            /\ isMinKey k (map getImportSpecifierSortName
                             (namedSpecifiers DeclarationKeys.buttons)).
Proof.
  split; [reflexivity|].
  apply (C1_declaration_key DeclarationKeys.buttons). reflexivity.
Defined.

(** The claim fails at [import React, { zed } from 'react']: there is a named
    specifier, yet the key is ["React"], which is not the key of any named
    specifier, let alone their minimum. *)
Lemma C1_counterexample :
  isImportSideEffect DeclarationKeys.reactZed = false
  /\ namedSpecifiers DeclarationKeys.reactZed <> []
  /\ getImportDeclarationSortName DeclarationKeys.reactZed = Some "React"
  /\ ~ isMinKey "React" (map getImportSpecifierSortName
                           (namedSpecifiers DeclarationKeys.reactZed)).
Proof.
  repeat split; try discriminate.
  intros [[H|[]] _]. discriminate.
Qed.

End DeclarationKey.

(* ------------------------------------------------------------------ *)
(** ** sort-imports: the specifier scan *)

Section SpecifierScan.
Import SortImports ImportSpec.

Lemma last_cons {A} (l : list A) (x d : A) : last (x :: l) d = last l x.
Proof.
  revert x d. induction l as [|y l IH]; intros x d; [reflexivity|].
  change (last (x :: y :: l) d) with (last (y :: l) d).
  rewrite (IH y d), (IH y x). reflexivity.
Qed.

(** Once [isSorted] is false the scan runs to its end without effect. *)
Lemma checkSpecifier_done (curImport : ImportDeclaration) (rest : list ImportSpecifierNode) :
  forall prev c,
    isSorted (locals c) = false ->
    reduceM (checkSpecifier curImport) rest prev c = (c, Normal (last rest prev)).
Proof.
  induction rest as [|cur rest IH]; intros prev c Hs.
  - reflexivity.
  - cbn [reduceM]. unfold bind at 1. unfold checkSpecifier at 1. unfold_visitor.
    rewrite Hs. rewrite (IH cur c Hs), last_cons. reflexivity.
Qed.

(** While [isSorted] is true the scan stops at the first pair out of order,
    reports it and records the declaration. *)
Lemma checkSpecifier_scan (curImport : ImportDeclaration) (rest : list ImportSpecifierNode) :
  forall prev rs ds fx lu,
    reduceM (checkSpecifier curImport) rest prev (mkCtx rs (mkLocals ds fx lu true)) =
    match firstDisorder prev rest with
    | None => (mkCtx rs (mkLocals ds fx lu true), Normal (last rest prev))
    | Some (p, q) =>
        (mkCtx (rs ++ [specifierReport p q])
               (mkLocals (if fx then ds ++ [curImport] else ds) fx (Some curImport) false),
         Normal (last rest prev))
    end.
Proof.
  induction rest as [|cur rest IH]; intros prev rs ds fx lu.
  - reflexivity.
  - cbn [reduceM firstDisorder]. unfold bind at 1. unfold checkSpecifier at 1.
    unfold set_isSorted, set_lastUnsortedDeclaration,
      push_declarationsWithUnsortedSpecifiers.
    unfold_visitor. cbn [locals reports isSorted fixable lastUnsortedDeclaration
      declarationsWithUnsortedSpecifiers].
    destruct (JS.lt (JS.toLowerCase (getImportSpecifierSortName cur))
                    (JS.toLowerCase (getImportSpecifierSortName prev))) eqn:Hlt.
    + rewrite last_cons.
      destruct fx; cbn [locals reports isSorted fixable lastUnsortedDeclaration
        declarationsWithUnsortedSpecifiers];
        rewrite checkSpecifier_done by reflexivity; reflexivity.
    + rewrite IH, last_cons. reflexivity.
Qed.

(** What [checkSpecifiers] does to the context. *)
Lemma checkSpecifiers_effect (curImport : ImportDeclaration) (c : Ctx Locals) :
  exists sorted',
    checkSpecifiers curImport c =
    (mkCtx (reports c ++ specifierReports curImport)
           (mkLocals
              (if hasSpecifierDisorder curImport && fixable (locals c)
               then declarationsWithUnsortedSpecifiers (locals c) ++ [curImport]
               else declarationsWithUnsortedSpecifiers (locals c))
              (fixable (locals c))
              (if hasSpecifierDisorder curImport then Some curImport
               else lastUnsortedDeclaration (locals c))
              sorted'),
     Normal tt).
Proof.
  destruct c as [rs [ds fx lu srt]].
  unfold checkSpecifiers, specifierReports, hasSpecifierDisorder, specifierReports,
    namedSpecifiers, isImportSideEffect.
  simpl.
  destruct (specifiers curImport) as [|s0 ss] eqn:Hspecs.
  - simpl. exists srt. rewrite app_nil_r. reflexivity.
  - cbn [List.length Nat.eqb negb].
    rewrite <- Hspecs.
    destruct (filter isImportSpecifier (specifiers curImport)) as [|p [|q rest]] eqn:Hf.
    + simpl. exists srt. rewrite app_nil_r. reflexivity.
    + simpl. exists srt. rewrite app_nil_r. reflexivity.
    + cbn [List.length Nat.leb].
      unfold reduce1, set_isSorted. unfold_visitor. cbn [locals reports
        declarationsWithUnsortedSpecifiers fixable lastUnsortedDeclaration].
      rewrite checkSpecifier_scan.
      destruct (firstDisorder p (q :: rest)) as [[a b]|].
      * exists false. destruct fx; reflexivity.
      * exists true. simpl. rewrite app_nil_r. reflexivity.
Qed.

(** C7, as the code has it.  The specifier scan of a declaration makes at most
    one report: the one for the first adjacent pair of named specifiers whose
    keys are out of case-insensitive order, and none when there is no such
    pair; further pairs out of order in the same declaration are not
    reported.  The scan always completes. *)
Theorem C7_first_specifier_disorder_only (curImport : ImportDeclaration) (c : Ctx Locals) :
  reports (fst (checkSpecifiers curImport c)) = reports c ++ specifierReports curImport
  /\ snd (checkSpecifiers curImport c) = Normal tt
  /\ List.length (specifierReports curImport) <= 1
  /\ (specifierReports curImport = [] <->
      match namedSpecifiers curImport with
      | [] => True
      | first :: rest => misorderedPairs first rest = 0
      end).
Proof.
  destruct (checkSpecifiers_effect curImport c) as [srt ->].
  repeat split; simpl.
  - unfold specifierReports.
    destruct (namedSpecifiers curImport) as [|p rest]; [simpl; lia|].
    destruct (firstDisorder p rest) as [[a b]|]; simpl; lia.
  - unfold specifierReports.
    destruct (namedSpecifiers curImport) as [|p rest]; [trivial|].
    revert p. induction rest as [|q rest IH]; intros p; simpl; [trivial|].
    destruct (JS.lt _ _); [discriminate|]. simpl. apply IH.
  - unfold specifierReports.
    destruct (namedSpecifiers curImport) as [|p rest]; [trivial|].
    revert p. induction rest as [|q rest IH]; intros p; simpl; [trivial|].
    destruct (JS.lt _ _); [discriminate|]. simpl. apply IH.
Qed.

End SpecifierScan.

(* ------------------------------------------------------------------ *)
(** ** Array.prototype.sort *)

Section SortFacts.
Variable A : Type.
Variable compareFn : A -> A -> Completion Z.

Hypothesis compareFn_total : forall a b, exists z, compareFn a b = Normal z.

Lemma insert_returns (x : A) (l : list A) :
  exists out, insert compareFn x l = Normal out /\ Permutation (x :: l) out.
Proof.
  induction l as [|y l [r [Hr Hp]]]; simpl.
  - exists [x]. split; [reflexivity | apply Permutation_refl].
  - destruct (compareFn_total x y) as [z ->]. simpl.
    destruct (z <=? 0)%Z.
    + eexists. split; [reflexivity | apply Permutation_refl].
    + rewrite Hr. simpl. eexists. split; [reflexivity|].
      apply perm_trans with (y :: x :: l); [apply perm_swap | apply perm_skip, Hp].
Qed.

(** The sort returns, with the same elements. *)
Lemma sort_returns (l : list A) :
  exists out, sort compareFn l = Normal out /\ Permutation l out.
Proof.
  induction l as [|x l [s [Hs Hp]]]; simpl.
  - exists []. split; [reflexivity | apply perm_nil].
  - rewrite Hs. simpl.
    destruct (insert_returns x s) as [out [Ho Hpo]].
    exists out. split; [exact Ho|].
    apply perm_trans with (x :: s); [apply perm_skip, Hp | exact Hpo].
Qed.

Hypothesis compareFn_converse :
  forall a b z, compareFn a b = Normal z -> (0 < z)%Z -> before compareFn b a.

Lemma insert_HdRel (x y : A) (l out : list A) :
  insert compareFn x l = Normal out ->
  before compareFn y x -> HdRel (before compareFn) y l -> HdRel (before compareFn) y out.
Proof.
  destruct l as [|z l]; simpl; intros Hi Hyx Hyl.
  - injection Hi as <-. constructor. exact Hyx.
  - destruct (compareFn x z) as [c|e]; [|discriminate]. simpl in Hi.
    destruct (c <=? 0)%Z.
    + injection Hi as <-. constructor. exact Hyx.
    + destruct (insert compareFn x l) as [r|e]; [|discriminate].
      injection Hi as <-. constructor. inversion Hyl; assumption.
Qed.

Lemma insert_Sorted (x : A) (l : list A) :
  forall out, insert compareFn x l = Normal out ->
              Sorted (before compareFn) l -> Sorted (before compareFn) out.
Proof.
  induction l as [|y l IH]; simpl; intros out Hi Hs.
  - injection Hi as <-. repeat constructor.
  - destruct (compareFn x y) as [c|e] eqn:Hc; [|discriminate]. simpl in Hi.
    destruct (c <=? 0)%Z eqn:Hle.
    + injection Hi as <-. constructor; [exact Hs|].
      constructor. exists c. split; [exact Hc | apply Z.leb_le; exact Hle].
    + destruct (insert compareFn x l) as [r|e] eqn:Hr; [|discriminate].
      injection Hi as <-. inversion Hs as [|? ? Hsl Hhd]; subst.
      constructor; [apply IH; [reflexivity | exact Hsl]|].
      apply insert_HdRel with x l; [exact Hr | | exact Hhd].
      apply compareFn_converse with c; [exact Hc | apply Z.leb_gt in Hle; lia].
Qed.

(** In the sorted array every element may stand before its successor. *)
Lemma sort_Sorted (l : list A) :
  forall out, sort compareFn l = Normal out -> Sorted (before compareFn) out.
Proof.
  induction l as [|x l IH]; simpl; intros out Ho.
  - injection Ho as <-. constructor.
  - destruct (sort compareFn l) as [s|e]; [|discriminate]. simpl in Ho.
    apply insert_Sorted with x s; [exact Ho | apply IH; reflexivity].
Qed.

End SortFacts.

Section StringKeys.
Variable A : Type.
Variable sortFunction : A -> Completion SortKey.
Variable keyOf : A -> string.
Hypothesis sortFunction_string : forall a, sortFunction a = Normal (KString (keyOf a)).

Lemma stringSorter_value (a b : A) :
  getSorter sortFunction a b
  = Normal (if (keyOf a =? keyOf b)%string then 0
            else if JS.lt (keyOf a) (keyOf b) then -1 else 1)%Z.
Proof.
  unfold getSorter. rewrite !sortFunction_string. reflexivity.
Qed.

Lemma stringSorter_total (a b : A) :
  exists z, getSorter sortFunction a b = Normal z.
Proof. rewrite stringSorter_value. eexists. reflexivity. Qed.

(** [a] may stand before [b] exactly when the key of [b] is not below the key
    of [a]. *)
Lemma before_keys (a b : A) :
  before (getSorter sortFunction) a b <-> JS.lt (keyOf b) (keyOf a) = false.
Proof.
  unfold before. rewrite stringSorter_value. split.
  - intros [z [Hz Hle]]. injection Hz as <-.
    destruct (String.eqb_spec (keyOf a) (keyOf b)) as [->|Hne].
    + apply StringOrder.lt_irrefl.
    + destruct (JS.lt (keyOf a) (keyOf b)) eqn:Hlt; [|lia].
      apply StringOrder.lt_asym. exact Hlt.
  - intros Hlt. eexists. split; [reflexivity|].
    destruct (String.eqb_spec (keyOf a) (keyOf b)) as [Heq|Hne]; [lia|].
    destruct (JS.lt (keyOf a) (keyOf b)) eqn:Hab; [lia|].
    exfalso. apply Hne. apply StringOrder.lt_total; assumption.
Qed.

Lemma stringSorter_converse (a b : A) (z : Z) :
  getSorter sortFunction a b = Normal z -> (0 < z)%Z ->
  before (getSorter sortFunction) b a.
Proof.
  rewrite stringSorter_value. intros Hz Hpos. injection Hz as <-.
  apply before_keys.
  destruct (keyOf a =? keyOf b)%string; [lia|].
  destruct (JS.lt (keyOf a) (keyOf b)) eqn:Hlt; [lia | reflexivity].
Qed.

(** Sorting by string keys returns a permutation in which no key is below
    the key before it. *)
Lemma stringSort_sorted (l : list A) :
  exists out,
    sort (getSorter sortFunction) l = Normal out
    /\ Permutation l out
    /\ Sorted (fun a b => JS.lt (keyOf b) (keyOf a) = false) out.
Proof.
  destruct (@sort_returns _ _ stringSorter_total l) as [out [Hsort Hperm]].
  exists out. split; [exact Hsort|]. split; [exact Hperm|].
  pose proof (@sort_Sorted _ _ stringSorter_converse l out Hsort) as Hs.
  clear Hsort Hperm.
  induction Hs as [|x out' Hs' IH Hhd]; constructor.
  - exact IH.
  - destruct Hhd as [|y out'' Hb]; constructor. apply before_keys. exact Hb.
Qed.

End StringKeys.

Section SortAgreement.
Variable A : Type.
Variables compareFn compareFn' : A -> A -> Completion Z.

Lemma insert_In (x : A) (l : list A) :
  forall out y, insert compareFn x l = Normal out -> In y out -> y = x \/ In y l.
Proof.
  induction l as [|z l IH]; simpl; intros out y Hi Hy.
  - injection Hi as <-. destruct Hy as [<-|[]]. left. reflexivity.
  - destruct (compareFn x z) as [c|e]; [|discriminate]. simpl in Hi.
    destruct (c <=? 0)%Z.
    + injection Hi as <-. destruct Hy as [<-|Hy]; [left; reflexivity | right; exact Hy].
    + destruct (insert compareFn x l) as [r|e]; [|discriminate].
      injection Hi as <-. destruct Hy as [<-|Hy]; [right; left; reflexivity|].
      destruct (IH r y eq_refl Hy) as [->|H]; [left; reflexivity | right; right; exact H].
Qed.

Lemma sort_In (l : list A) :
  forall out y, sort compareFn l = Normal out -> In y out -> In y l.
Proof.
  induction l as [|x l IH]; simpl; intros out y Hs Hy.
  - injection Hs as <-. exact Hy.
  - destruct (sort compareFn l) as [s|e] eqn:Hsl; [|discriminate]. simpl in Hs.
    destruct (@insert_In x s out y Hs Hy) as [->|H]; [left; reflexivity|].
    right. apply (IH s y eq_refl H).
Qed.

Lemma insert_agree (x : A) (l : list A) :
  (forall y, In y l -> compareFn x y = compareFn' x y) ->
  insert compareFn x l = insert compareFn' x l.
Proof.
  induction l as [|y l IH]; intros H; simpl; [reflexivity|].
  rewrite <- (H y) by (left; reflexivity).
  destruct (compareFn x y) as [c|e]; [|reflexivity]. simpl.
  destruct (c <=? 0)%Z; [reflexivity|].
  rewrite IH by (intros z Hz; apply H; right; exact Hz). reflexivity.
Qed.

(** Two comparators that agree on the elements of an array sort it alike. *)
Lemma sort_agree (l : list A) :
  (forall a b, In a l -> In b l -> compareFn a b = compareFn' a b) ->
  sort compareFn l = sort compareFn' l.
Proof.
  induction l as [|x l IH]; intros H; simpl; [reflexivity|].
  rewrite <- IH by (intros a b Ha Hb; apply H; right; assumption).
  destruct (sort compareFn l) as [s|e] eqn:Hs; [|reflexivity]. simpl.
  apply insert_agree. intros y Hy. apply H; [left; reflexivity|].
  right. apply (@sort_In l s y Hs Hy).
Qed.

End SortAgreement.

Section SortPinned.
Variable A : Type.
Variable compareFn : A -> A -> Completion Z.
Variable r : A.

(** Inserting in front of a last element that everything precedes. *)
Lemma insert_pinned (x : A) (l : list A) :
  (exists z, compareFn x r = Normal z /\ (z <= 0)%Z) ->
  insert compareFn x (l ++ [r]) =
  cbind (insert compareFn x l) (fun s => Normal (s ++ [r])).
Proof.
  intros [z [Hz Hle]].
  induction l as [|y l IH]; simpl.
  - rewrite Hz. simpl. apply Z.leb_le in Hle. rewrite Hle. reflexivity.
  - destruct (compareFn x y) as [c|e]; [|reflexivity]. simpl.
    destruct (c <=? 0)%Z; [reflexivity|].
    rewrite IH. destruct (insert compareFn x l); reflexivity.
Qed.

Lemma sort_pinned (l : list A) :
  (forall x, In x l -> exists z, compareFn x r = Normal z /\ (z <= 0)%Z) ->
  sort compareFn (l ++ [r]) =
  cbind (sort compareFn l) (fun s => Normal (s ++ [r])).
Proof.
  induction l as [|x l IH]; intros H; simpl.
  - reflexivity.
  - rewrite IH by (intros y Hy; apply H; right; exact Hy).
    destruct (sort compareFn l) as [s|e] eqn:Hs; [|reflexivity]. simpl.
    assert (Hx : exists z, compareFn x r = Normal z /\ (z <= 0)%Z)
      by (apply H; left; reflexivity).
    apply insert_pinned. exact Hx.
Qed.

(** A sort function that throws makes the sort of two or more elements throw. *)
Lemma sort_throws {K} (sortFunction : K -> Completion SortKey) (e : Exn) (l : list K) :
  (forall a, sortFunction a = Throw e) ->
  2 <= List.length l ->
  sort (getSorter sortFunction) l = Throw e.
Proof.
  intros Hthrow.
  induction l as [|x l IH]; simpl; intros Hlen; [lia|].
  destruct l as [|y l]; [simpl in Hlen; lia|].
  destruct l as [|y' l].
  - simpl. unfold getSorter. rewrite Hthrow. reflexivity.
  - rewrite IH by (simpl; lia). reflexivity.
Qed.

End SortPinned.

(* ------------------------------------------------------------------ *)
(** ** sort-imports: the declaration scan *)

Section DeclarationScan.
Import SortImports ImportSpec.
Variable resolves : string -> bool.
Variable declarationSort : string.
Variable sourceCode : SourceCode.

Local Abbreviation group := (getImportDeclarationSortIdx resolves).
Local Abbreviation checkDeclaration := (checkDeclaration resolves declarationSort).
Local Abbreviation checkImport := (checkImport resolves declarationSort).

(** The comparison of two declarations has an outcome that does not depend
    on the state it runs in. *)
Lemma checkDeclaration_verdict (prevImport curImport : ImportDeclaration) :
  exists v,
    (forall c, checkDeclaration prevImport curImport c = applyVerdict v curImport c)
    /\ match v with
       | InOrder => True
       | Violation r => isDeclarationViolation r = true /\ fix_ r = None
       | Abort e =>
           e = Error "Unexpected sort strategy"
           /\ group curImport = group prevImport
           /\ declarationSort <> "import" /\ declarationSort <> "source"
       end.
Proof.
  unfold SortImports.checkDeclaration.
  destruct (group curImport <? group prevImport) eqn:Hlt.
  { eexists (Violation _). split; [intros c; reflexivity|]. split; reflexivity. }
  destruct (group curImport =? group prevImport) eqn:Heq.
  2:{ exists InOrder. split; [intros c; reflexivity|trivial]. }
  destruct (declarationSort =? "import")%string eqn:Hi.
  { destruct (sortName_defined curImport) as [kc Hc].
    destruct (sortName_defined prevImport) as [kp Hp].
    rewrite Hc, Hp. simpl toLowerCaseOf.
    destruct (JS.lt (JS.toLowerCase kc) (JS.toLowerCase kp)) eqn:Hk.
    - eexists (Violation _). split.
      + intros c. unfold_visitor. rewrite Hk. reflexivity.
      + split; reflexivity.
    - exists InOrder. split; [|trivial].
      intros c. unfold_visitor. rewrite Hk. reflexivity. }
  destruct (declarationSort =? "source")%string eqn:Hs.
  { destruct (JS.lt (JS.toLowerCase (source_value curImport))
                    (JS.toLowerCase (source_value prevImport))) eqn:Hk.
    - eexists (Violation _). split; [intros c; reflexivity|]. split; reflexivity.
    - exists InOrder. split; [intros c; reflexivity|trivial]. }
  exists (Abort (Error "Unexpected sort strategy")). split; [intros c; reflexivity|].
  repeat split.
  - apply Nat.eqb_eq. exact Heq.
  - apply String.eqb_neq. exact Hi.
  - apply String.eqb_neq. exact Hs.
Qed.

(** With an unsupported sort strategy the comparison throws exactly when the
    two declarations are in the same group. *)
Lemma checkDeclaration_unsupported (prevImport curImport : ImportDeclaration)
    (c : Ctx Locals) :
  declarationSort <> "import" -> declarationSort <> "source" ->
  if group curImport =? group prevImport
  then checkDeclaration prevImport curImport c = (c, Throw (Error "Unexpected sort strategy"))
  else exists c', checkDeclaration prevImport curImport c = (c', Normal tt).
Proof.
  intros Hi Hs. apply String.eqb_neq in Hi, Hs.
  unfold SortImports.checkDeclaration.
  destruct (group curImport =? group prevImport) eqn:Heq.
  - apply Nat.eqb_eq in Heq. rewrite Heq, Nat.ltb_irrefl, Hi, Hs. reflexivity.
  - destruct (group curImport <? group prevImport); eexists; reflexivity.
Qed.

(** One step of the scan, in terms of the outcome of the comparison. *)
Lemma checkImport_step (prevImport curImport : ImportDeclaration) (c : Ctx Locals) :
  checkImport prevImport curImport c =
  match checkDeclaration prevImport curImport c with
  | (c', Normal _) => (fst (checkSpecifiers curImport c'), Normal curImport)
  | (c', Throw e) => (c', Throw e)
  end.
Proof.
  unfold SortImports.checkImport. unfold bind at 1.
  destruct (SortImports.checkDeclaration _ _ _ _ _) as [c' [[]|e]]; [|reflexivity].
  unfold bind, ret.
  destruct (checkSpecifiers_effect curImport c') as [srt ->]. reflexivity.
Qed.

(** The body scan collects the import declarations in order, reports
    nothing, and clears [fixable] as [staysFixable] says. *)
Lemma collectImport_effect (body : list Statement) :
  forall its nif rs ds fx lu srt,
    exists nif',
      reduceM collectImport body (mkImports its nif) (mkCtx rs (mkLocals ds fx lu srt)) =
      (mkCtx rs (mkLocals ds (fx && staysFixable (negb (List.length its =? 0)) nif body)
                          lu srt),
       Normal (mkImports (its ++ importsOf body) nif')).
Proof.
  induction body as [|st body IH]; intros its nif rs ds fx lu srt.
  - exists nif. simpl. rewrite app_nil_r, andb_true_r. reflexivity.
  - destruct st as [d|n]; cbn [reduceM importsOf staysFixable].
    + unfold bind at 1. unfold collectImport at 1. unfold set_fixable. unfold_visitor.
      cbn [items nonImportFound locals reports declarationsWithUnsortedSpecifiers
           lastUnsortedDeclaration isSorted fixable].
      destruct (negb (List.length its =? 0) && nif) eqn:Hgap;
        cbn [items nonImportFound locals reports declarationsWithUnsortedSpecifiers
             lastUnsortedDeclaration isSorted fixable].
      * destruct (IH (its ++ [d]) nif rs ds false lu srt) as [nif' ->].
        exists nif'. rewrite andb_false_r, <- app_assoc. reflexivity.
      * destruct (IH (its ++ [d]) nif rs ds fx lu srt) as [nif' ->].
        exists nif'. rewrite <- app_assoc.
        replace (negb (List.length (its ++ [d]) =? 0)) with true
          by (rewrite length_app; simpl; rewrite Nat.add_1_r; reflexivity).
        reflexivity.
    + unfold bind at 1. unfold collectImport at 1. unfold_visitor.
      cbn [items nonImportFound].
      destruct (negb (List.length its =? 0)) eqn:Hne; cbn [items nonImportFound].
      * destruct (IH its true rs ds fx lu srt) as [nif' ->].
        exists nif'. rewrite Hne. reflexivity.
      * destruct (IH its nif rs ds fx lu srt) as [nif' ->].
        exists nif'. rewrite Hne. reflexivity.
Qed.

Lemma staysFixable_after_gap (l after : list Statement) (d : ImportDeclaration) :
  staysFixable true true (l ++ ImportDecl d :: after) = false.
Proof.
  induction l as [|[d'|n] l IH]; simpl; auto.
Qed.

Lemma staysFixable_gap_ahead (l mid after : list Statement) (n : Node)
    (d : ImportDeclaration) :
  forall gap,
    staysFixable true gap (l ++ OtherStatement n :: mid ++ ImportDecl d :: after) = false.
Proof.
  induction l as [|[d'|n'] l IH]; intros gap; simpl.
  - apply staysFixable_after_gap.
  - destruct gap; [reflexivity | apply IH].
  - apply IH.
Qed.

Lemma staysFixable_import_ahead (front mid1 mid2 after : list Statement) (n : Node)
    (d1 d2 : ImportDeclaration) :
  forall started gap,
    staysFixable started gap
      (front ++ ImportDecl d1 :: mid1 ++ OtherStatement n :: mid2
              ++ ImportDecl d2 :: after) = false.
Proof.
  induction front as [|[d'|n'] l IH]; intros started gap; simpl.
  - destruct (started && gap); [reflexivity | apply staysFixable_gap_ahead].
  - destruct (started && gap); [reflexivity | apply IH].
  - apply IH.
Qed.

(** A statement between two imports clears [fixable]. *)
Lemma interleaved_not_fixable (body : list Statement) :
  interleaved body -> staysFixable false false body = false.
Proof.
  intros (front & d1 & mid1 & n & mid2 & d2 & after & ->).
  apply staysFixable_import_ahead.
Qed.

Lemma importsOf_app (l1 l2 : list Statement) :
  importsOf (l1 ++ l2) = importsOf l1 ++ importsOf l2.
Proof.
  induction l1 as [|[d|n] l1 IH]; simpl; [reflexivity | f_equal; exact IH | exact IH].
Qed.

Lemma importsOf_imports (l : list ImportDeclaration) :
  importsOf (map ImportDecl l) = l.
Proof.
  induction l as [|d l IH]; simpl; [reflexivity | f_equal; exact IH].
Qed.

Lemma importsOf_length (body : list Statement) :
  List.length (importsOf body) <= List.length body.
Proof.
  induction body as [|[d|n] body IH]; simpl; lia.
Qed.

(** The handler, stage by stage. *)
Lemma Program_stages (fixOption : bool) (body : list Statement) (c : Ctx Locals) :
  Program resolves declarationSort fixOption sourceCode body c =
  if List.length body <? 2 then (c, Normal tt)
  else
    match reduceM collectImport body (mkImports [] false) c with
    | (c1, Throw e) => (c1, Throw e)
    | (c1, Normal imports) =>
        if List.length (items imports) <? 2 then (c1, Normal tt)
        else
          finishScan fixOption
            (fixCallback resolves declarationSort sourceCode (items imports))
            (reduce1 checkImport (items imports) c1)
    end.
Proof.
  unfold Program. destruct (List.length body <? 2); [reflexivity|].
  unfold bind at 1.
  destruct (reduceM collectImport body _ c) as [c1 [imports|e]]; [|reflexivity].
  destruct (List.length (items imports) <? 2); [reflexivity|].
  unfold bind at 1. unfold finishScan.
  destruct (reduce1 _ _ c1) as [c2 [d|e]]; [|reflexivity].
  unfold_visitor.
  destruct (lastUnsortedDeclaration (locals c2)); [|reflexivity].
  destruct (fixOption && fixable (locals c2)); reflexivity.
Qed.

Lemma runProgram_observe (fixOption : bool) (body : list Statement) :
  runProgram resolves declarationSort fixOption sourceCode body
  = observe (Program resolves declarationSort fixOption sourceCode body
               (mkCtx [] initialLocals)).
Proof.
  unfold runProgram, run, observe.
  destruct (Program _ _ _ _ _ _) as [c r]. reflexivity.
Qed.

(** A step of the scan treats indistinguishable states alike and leaves
    [fixable] as it is. *)
Lemma checkImport_agree (prevImport curImport : ImportDeclaration) (c1 c2 : Ctx Locals) :
  agree c1 c2 ->
  exists c1' c2' r,
    checkImport prevImport curImport c1 = (c1', r)
    /\ checkImport prevImport curImport c2 = (c2', r)
    /\ agree c1' c2'
    /\ fixable (locals c1') = fixable (locals c1)
    /\ fixable (locals c2') = fixable (locals c2).
Proof.
  intros [Hr Hl].
  rewrite !checkImport_step.
  destruct (checkDeclaration_verdict prevImport curImport) as [v [Hv _]].
  rewrite !Hv.
  destruct v as [|r|e]; cbn [applyVerdict].
  - destruct (checkSpecifiers_effect curImport c1) as [s1 ->].
    destruct (checkSpecifiers_effect curImport c2) as [s2 ->].
    do 3 eexists. repeat split; cbn [fst reports locals lastUnsortedDeclaration fixable].
    + rewrite Hr. reflexivity.
    + rewrite Hl. reflexivity.
  - match goal with
    | |- context [checkSpecifiers curImport ?c] =>
        destruct (checkSpecifiers_effect curImport c) as [s1 ->]
    end.
    match goal with
    | |- context [checkSpecifiers curImport ?c] =>
        destruct (checkSpecifiers_effect curImport c) as [s2 ->]
    end.
    do 3 eexists. repeat split; cbn [fst reports locals lastUnsortedDeclaration fixable].
    rewrite Hr. reflexivity.
  - do 3 eexists. repeat split; assumption.
Qed.

Lemma scan_agree (rest : list ImportDeclaration) :
  forall prev c1 c2,
    agree c1 c2 ->
    exists c1' c2' r,
      reduceM checkImport rest prev c1 = (c1', r)
      /\ reduceM checkImport rest prev c2 = (c2', r)
      /\ agree c1' c2'
      /\ fixable (locals c1') = fixable (locals c1)
      /\ fixable (locals c2') = fixable (locals c2).
Proof.
  induction rest as [|cur rest IH]; intros prev c1 c2 Hag.
  - do 3 eexists. repeat split. exact (proj1 Hag). exact (proj2 Hag).
  - cbn [reduceM]. unfold bind.
    destruct (checkImport_agree prev cur Hag)
      as (c1' & c2' & r & -> & -> & Hag' & Hf1 & Hf2).
    destruct r as [d|e].
    + destruct (IH d c1' c2' Hag') as (c1'' & c2'' & r' & -> & -> & Hag'' & Hf1' & Hf2').
      do 3 eexists. repeat split; try apply Hag''; congruence.
    + do 3 eexists. repeat split; try apply Hag'; assumption.
Qed.

(** With an unsupported sort strategy the scan throws exactly when two
    neighbours are in the same group. *)
Lemma scan_unsupported (rest : list ImportDeclaration) :
  declarationSort <> "import" -> declarationSort <> "source" ->
  forall prev c,
    if adjacentSameGroup group prev rest
    then snd (reduceM checkImport rest prev c) = Throw (Error "Unexpected sort strategy")
    else exists d, snd (reduceM checkImport rest prev c) = Normal d.
Proof.
  intros Hi Hs.
  induction rest as [|cur rest IH]; intros prev c; cbn [adjacentSameGroup reduceM].
  - eexists. reflexivity.
  - unfold bind. rewrite checkImport_step.
    pose proof (checkDeclaration_unsupported prev cur c Hi Hs) as Hd.
    destruct (group cur =? group prev); cbn [orb].
    + rewrite Hd. reflexivity.
    + destruct Hd as [c' ->]. apply IH.
Qed.

Lemma interleaved_two_imports (body : list Statement) :
  interleaved body -> 2 <= List.length (importsOf body).
Proof.
  intros (front & d1 & mid1 & n & mid2 & d2 & after & ->).
  rewrite importsOf_app. cbn [importsOf].
  rewrite importsOf_app. cbn [importsOf].
  rewrite importsOf_app. cbn [importsOf].
  rewrite length_app. cbn [List.length]. rewrite length_app.
  rewrite length_app. cbn [List.length]. lia.
Qed.

(** No step of the scan attaches a fix to a report. *)
Lemma scan_no_fix (rest : list ImportDeclaration) :
  forall prev c,
    Forall (fun r => fix_ r = None) (reports c) ->
    Forall (fun r => fix_ r = None) (reports (fst (reduceM checkImport rest prev c))).
Proof.
  induction rest as [|cur rest IH]; intros prev c Hc; cbn [reduceM].
  - exact Hc.
  - unfold bind. rewrite checkImport_step.
    destruct (checkDeclaration_verdict prev cur) as [v [Hv Hprop]].
    rewrite Hv.
    assert (Hspec : Forall (fun r => fix_ r = None) (specifierReports cur)).
    { unfold specifierReports. destruct (namedSpecifiers cur) as [|p l]; [constructor|].
      destruct (firstDisorder p l) as [[a b]|]; repeat constructor. }
    destruct v as [|r|e]; cbn [applyVerdict].
    + apply IH. destruct (checkSpecifiers_effect cur c) as [s ->]. cbn [fst reports].
      apply Forall_app. split; assumption.
    + apply IH.
      match goal with
      | |- context [checkSpecifiers cur ?c'] =>
          destruct (checkSpecifiers_effect cur c') as [s ->]
      end.
      cbn [fst reports]. apply Forall_app. split; [|assumption].
      apply Forall_app. split; [assumption|]. constructor; [apply Hprop | constructor].
    + exact Hc.
Qed.

(** When the fix is withheld the end of the traversal shows the same in two
    indistinguishable states. *)
Lemma finishScan_agree (c1 c2 : Ctx Locals) (r : Completion ImportDeclaration)
    (option1 option2 : bool)
    (callback1 callback2 : list ImportDeclaration -> Completion (list Fix)) :
  agree c1 c2 ->
  option1 && fixable (locals c1) = false ->
  option2 && fixable (locals c2) = false ->
  observe (finishScan option1 callback1 (c1, r))
  = observe (finishScan option2 callback2 (c2, r))
  /\ reports (fst (finishScan option1 callback1 (c1, r))) = reports c1.
Proof.
  intros [Hrep Hlast] H1 H2. unfold finishScan, observe.
  destruct r as [d|e]; [|cbn [fst snd]; rewrite Hrep; split; reflexivity].
  rewrite Hlast, H1, H2.
  destruct (lastUnsortedDeclaration (locals c2)); cbn [fst snd]; rewrite Hrep;
    split; reflexivity.
Qed.

(** C9.  When a statement that is not an import stands between two import
    declarations, the traversal makes the diagnostics, and completes, exactly
    as it does on the import declarations alone with the fix option off: every
    violation is still reported, and no report carries a fix. *)
Theorem C9_interleaving_suppresses_only_the_fix (fixOption : bool) (body : list Statement) :
  interleaved body ->
  runProgram resolves declarationSort fixOption sourceCode body
  = runProgram resolves declarationSort false sourceCode (map ImportDecl (importsOf body))
  /\ Forall (fun r => fix_ r = None)
            (fst (runProgram resolves declarationSort fixOption sourceCode body)).
Proof.
  intros Hint.
  pose proof (interleaved_two_imports Hint) as Hlen.
  pose proof (importsOf_length body) as Hlen'.
  rewrite !runProgram_observe, !Program_stages, length_map.
  replace (List.length body <? 2) with false by (symmetry; apply Nat.ltb_ge; lia).
  replace (List.length (importsOf body) <? 2) with false
    by (symmetry; apply Nat.ltb_ge; lia).
  unfold initialLocals.
  destruct (collectImport_effect body [] false [] [] true None true) as [nif1 ->].
  destruct (collectImport_effect (map ImportDecl (importsOf body))
              [] false [] [] true None true) as [nif2 ->].
  cbn [items app]. rewrite importsOf_imports.
  replace (List.length (importsOf body) <? 2) with false
    by (symmetry; apply Nat.ltb_ge; lia).
  change (negb (List.length (@nil ImportDeclaration) =? 0)) with false.
  rewrite (interleaved_not_fixable Hint).
  destruct (importsOf body) as [|first rest]; [simpl in Hlen; lia|].
  cbn [reduce1].
  set (cL := mkCtx [] (mkLocals [] (true && false) None true)).
  set (cR := mkCtx [] (mkLocals [] _ None true)).
  pose proof (@scan_no_fix rest first cL (Forall_nil _)) as Hnofix.
  destruct (@scan_agree rest first cL cR) as (c1' & c2' & r & H1 & H2 & Hag & Hf1 & _);
    [split; reflexivity|].
  rewrite H1 in Hnofix |- *. rewrite H2. cbn [fst] in Hnofix.
  destruct (@finishScan_agree c1' c2' r fixOption false
              (fixCallback resolves declarationSort sourceCode (first :: rest))
              (fixCallback resolves declarationSort sourceCode (first :: rest)) Hag)
    as [Hobs Hsame].
  - rewrite Hf1. apply andb_false_r.
  - reflexivity.
  - split; [exact Hobs|].
    unfold observe. cbn [fst]. rewrite Hsame. exact Hnofix.
Qed.

(** With an unsupported sort strategy the traversal throws exactly when two
    successive import declarations are in the same group. *)
Lemma Program_unsupported (fixOption : bool) (body : list Statement) :
  declarationSort <> "import" -> declarationSort <> "source" ->
  snd (runProgram resolves declarationSort fixOption sourceCode body)
  = if someAdjacentSameGroup group (importsOf body)
    then Throw (Error "Unexpected sort strategy")
    else Normal tt.
Proof.
  intros Hi Hs.
  pose proof (importsOf_length body) as Hlen.
  rewrite runProgram_observe, Program_stages. unfold observe. cbn [snd].
  destruct (List.length body <? 2) eqn:Hb.
  { apply Nat.ltb_lt in Hb.
    destruct (importsOf body) as [|a [|b l]]; [reflexivity | reflexivity | simpl in Hlen; lia]. }
  unfold initialLocals.
  destruct (collectImport_effect body [] false [] [] true None true) as [nif ->].
  cbn [items app].
  destruct (importsOf body) as [|first [|second rest]]; try reflexivity.
  cbn [List.length Nat.ltb Nat.leb reduce1 someAdjacentSameGroup].
  match goal with
  | |- context [reduceM checkImport ?l first ?c] =>
      pose proof (@scan_unsupported l Hi Hs first c) as Hscan;
      destruct (reduceM checkImport l first c) as [c2 r]
  end.
  cbn [snd] in Hscan. unfold finishScan.
  destruct (adjacentSameGroup group first (second :: rest)).
  - subst r. reflexivity.
  - destruct Hscan as [d ->].
    destruct (lastUnsortedDeclaration (locals c2)); [|reflexivity].
    destruct (fixOption && fixable (locals c2)); reflexivity.
Qed.

End DeclarationScan.

(* ------------------------------------------------------------------ *)
(** ** sort-imports: an unsupported sort strategy *)

Section UnsupportedStrategy.
Import SortImports ImportSpec.

Lemma fixCallback_unsupported (resolves : string -> bool) (declarationSort : string)
    (sourceCode : SourceCode) (imports : list ImportDeclaration) :
  declarationSort <> "import" -> declarationSort <> "source" ->
  2 <= List.length imports ->
  fixCallback resolves declarationSort sourceCode imports []
  = Throw (Error "Unexpected sort strategy").
Proof.
  intros Hi Hs Hlen. apply String.eqb_neq in Hi, Hs.
  unfold fixCallback, fixDeclarations, sortDeclarations. cbn [List.length Nat.eqb negb].
  destruct imports as [|first rest]; [simpl in Hlen; lia|].
  cbn [map getSpanningRange cbind].
  rewrite (@sort_throws _ (declarationSortKey resolves declarationSort)
             (Error "Unexpected sort strategy")); [reflexivity | | exact Hlen].
  intros a. unfold declarationSortKey. rewrite Hi, Hs. reflexivity.
Qed.

(** C8, as the code has it.  With a sort strategy that is neither 'import'
    nor 'source', the traversal throws "Unexpected sort strategy" exactly when
    two successive import declarations fall in the same group, and otherwise
    completes; and the fix callback that reorders two or more declarations
    throws the same error. *)
Theorem C8_unsupported_strategy_throws_on_same_group
    (resolves : string -> bool) (declarationSort : string) (fixOption : bool)
    (sourceCode : SourceCode) (body : list Statement) :
  declarationSort <> "import" -> declarationSort <> "source" ->
  snd (runProgram resolves declarationSort fixOption sourceCode body)
  = (if someAdjacentSameGroup (getImportDeclarationSortIdx resolves) (importsOf body)
     then Throw (Error "Unexpected sort strategy")
     else Normal tt)
  /\ (2 <= List.length (importsOf body) ->
      fixCallback resolves declarationSort sourceCode (importsOf body) []
      = Throw (Error "Unexpected sort strategy")).
Proof.
  intros Hi Hs. split.
  - apply Program_unsupported; assumption.
  - apply fixCallback_unsupported; assumption.
Qed.

(** The theorem at [import React from 'react'] followed by
    [import PropTypes from 'prop-types'], two packages, with the strategy
    'alphabetical'. *)
Lemma C8_unsupported_strategy_witness :
  "alphabetical" <> "import" /\ "alphabetical" <> "source"
  /\ snd (runProgram Programs.resolves "alphabetical" true
            (mkSource "" Programs.noComments)
            [ImportDecl Programs.react; ImportDecl Programs.propTypes])
     = Throw (Error "Unexpected sort strategy").
Proof.
  split; [discriminate|]. split; [discriminate|].
  apply (C8_unsupported_strategy_throws_on_same_group Programs.resolves true
           (mkSource "" Programs.noComments)
           [ImportDecl Programs.react; ImportDecl Programs.propTypes]
           (declarationSort := "alphabetical")); discriminate.
Defined.

(** The claim fails at [import './polyfill'] followed by
    [import React from 'react'] with the strategy 'alphabetical': there are
    two import declarations, and the traversal completes without a report and
    without an error. *)
Lemma C8_counterexample :
  "alphabetical" <> "import" /\ "alphabetical" <> "source"
  /\ 2 <= List.length (importsOf Programs.sideEffectThenPackage)
  /\ runProgram Programs.resolves "alphabetical" true
       (mkSource "" Programs.noComments) Programs.sideEffectThenPackage
     = ([], Normal tt).
Proof.
  split; [discriminate|]. split; [discriminate|].
  split; [simpl; lia | reflexivity].
Qed.

End UnsupportedStrategy.

(* ------------------------------------------------------------------ *)
(** ** sort-imports: examples of the scan *)

Section ScanExamples.
Import SortImports ImportSpec.

(** The theorem at
    [import React from 'react'; setup(); import PropTypes from 'prop-types']. *)
Lemma C9_interleaving_witness :
  interleaved Programs.interleavedProgram
  /\ runProgram Programs.resolves "source" true (mkSource "" Programs.noComments)
       Programs.interleavedProgram
     = runProgram Programs.resolves "source" false (mkSource "" Programs.noComments)
         (map ImportDecl (importsOf Programs.interleavedProgram))
  /\ Forall (fun r => fix_ r = None)
       (fst (runProgram Programs.resolves "source" true
               (mkSource "" Programs.noComments) Programs.interleavedProgram)).
Proof.
  assert (H : interleaved Programs.interleavedProgram).
  { exists [], Programs.react, [], (mkNode 10 (46, 54)), [], Programs.propTypes, [].
    reflexivity. }
  split; [exact H|].
  apply (C9_interleaving_suppresses_only_the_fix Programs.resolves "source"
           (mkSource "" Programs.noComments) true H).
Defined.

(** The claim fails at [import React from 'react'] followed by
    [import { c, b, a } from './letters']: two adjacent pairs of named
    specifiers are out of order, and the traversal makes one specifier
    report. *)
Lemma C7_counterexample :
  (match namedSpecifiers Programs.letters with
   | first :: rest => misorderedPairs first rest
   | [] => 0
   end) = 2
  /\ runProgram Programs.resolves "source" false (mkSource "" Programs.noComments)
       Programs.packageThenLetters
     = ([mkReport (mkNode 6 (58, 59)) "Expected '{{a}}' to be before '{{b}}'"
           [("a", Some "b"); ("b", Some "c")] None],
        Normal tt).
Proof. split; reflexivity. Qed.

End ScanExamples.

(* ------------------------------------------------------------------ *)
(** ** sort-imports: the order of the fix is an order the check accepts *)

Section FixThenCheck.
Import SortImports ImportSpec.
Variable resolves : string -> bool.
Variable declarationSort : string.
Hypothesis supported : declarationSort = "import" \/ declarationSort = "source".

Local Abbreviation group := (getImportDeclarationSortIdx resolves).
Local Abbreviation key := (compositeKey resolves declarationSort).
Local Abbreviation compareFn := (getSorter (declarationSortKey resolves declarationSort)).

Lemma group_cases (d : ImportDeclaration) :
  group d = 0 \/ group d = 1 \/ group d = 3 \/ group d = 4.
Proof.
  unfold getImportDeclarationSortIdx.
  destruct (isImportSideEffect d); [left; reflexivity|].
  destruct (isStaticAsset _); [do 3 right; reflexivity|].
  destruct (isImportExternal resolves d);
    [right; left; reflexivity | right; right; left; reflexivity].
Qed.

(** In a supported strategy the sort function returns the composite key. *)
Lemma declarationSortKey_string (d : ImportDeclaration) :
  declarationSortKey resolves declarationSort d = Normal (KString (key d)).
Proof.
  unfold declarationSortKey, compositeKey.
  destruct supported as [-> | ->]; cbn [String.eqb Ascii.eqb Bool.eqb].
  - destruct (sortName_defined d) as [k ->]. reflexivity.
  - reflexivity.
Qed.

Lemma compareFn_total (a b : ImportDeclaration) :
  exists z, compareFn a b = Normal z.
Proof. apply stringSorter_total with key. exact declarationSortKey_string. Qed.

Lemma compareFn_converse (a b : ImportDeclaration) (z : Z) :
  compareFn a b = Normal z -> (0 < z)%Z -> before compareFn b a.
Proof. apply stringSorter_converse with key. exact declarationSortKey_string. Qed.

(** Composite keys compare by group first and by name within a group: the
    four ordinals are single digits. *)
Lemma composite_order (g1 g2 : nat) (n1 n2 : string) :
  (g1 = 0 \/ g1 = 1 \/ g1 = 3 \/ g1 = 4) ->
  (g2 = 0 \/ g2 = 1 \/ g2 = 3 \/ g2 = 4) ->
  JS.lt (JS.numberToString g2 ++ n2) (JS.numberToString g1 ++ n1) = false ->
  g1 <= g2 /\ (g1 = g2 -> JS.lt n2 n1 = false).
Proof.
  intros H1 H2.
  destruct H1 as [-> | [-> | [-> | ->]]]; destruct H2 as [-> | [-> | [-> | ->]]];
    unfold JS.lt, String.ltb; cbn; intros H;
    try discriminate H; (split; [lia | intros E; try discriminate E; exact H]).
Qed.

(** The comparison of two declarations whose keys are in order reports
    nothing. *)
Lemma checkDeclaration_in_order (prevImport curImport : ImportDeclaration)
    (c : Ctx Locals) :
  JS.lt (key curImport) (key prevImport) = false ->
  checkDeclaration resolves declarationSort prevImport curImport c = (c, Normal tt).
Proof.
  intros Hkey.
  destruct (composite_order _ _ (group_cases prevImport) (group_cases curImport) Hkey)
    as [Hle Hname].
  unfold checkDeclaration.
  replace (group curImport <? group prevImport) with false
    by (symmetry; apply Nat.ltb_ge; exact Hle).
  destruct (group curImport =? group prevImport) eqn:Heq; [|reflexivity].
  apply Nat.eqb_eq in Heq. specialize (Hname (eq_sym Heq)).
  destruct supported as [E | E]; rewrite E in Hname |- *;
    cbn [String.eqb Ascii.eqb Bool.eqb] in Hname |- *.
  - destruct (sortName_defined curImport) as [kc Hc].
    destruct (sortName_defined prevImport) as [kp Hp].
    rewrite Hc, Hp in Hname |- *. unfold_visitor. cbn [toLowerCaseOf].
    rewrite Hname. reflexivity.
  - rewrite Hname. reflexivity.
Qed.

(** The scan of a sequence sorted by the comparator completes and makes only
    specifier reports. *)
Lemma scan_sorted (rest : list ImportDeclaration) :
  forall prev c,
    Sorted (before compareFn) (prev :: rest) ->
    Forall (fun r => isDeclarationViolation r = false) (reports c) ->
    exists c' d,
      reduceM (checkImport resolves declarationSort) rest prev c = (c', Normal d)
      /\ Forall (fun r => isDeclarationViolation r = false) (reports c').
Proof.
  induction rest as [|cur rest IH]; intros prev c Hs Hc; cbn [reduceM].
  - do 2 eexists. split; [reflexivity | exact Hc].
  - inversion Hs as [|? ? Hs' Hhd]; subst. inversion Hhd as [|? ? Hb]; subst.
    unfold bind. rewrite checkImport_step.
    rewrite checkDeclaration_in_order
      by (apply (@before_keys _ _ _ declarationSortKey_string); exact Hb).
    destruct (checkSpecifiers_effect cur c) as [s ->]. cbn [fst].
    apply IH; [exact Hs'|]. cbn [reports].
    apply Forall_app. split; [exact Hc|].
    unfold specifierReports. destruct (namedSpecifiers cur) as [|p l]; [constructor|].
    destruct (firstDisorder p l) as [[a b]|]; repeat constructor.
Qed.

End FixThenCheck.

(* ------------------------------------------------------------------ *)
(** ** The text range a fix replaces *)

Section FixRange.

Lemma last_map {A B} (f : A -> B) (l : list A) (d : A) :
  last (map f l) (f d) = f (last l d).
Proof.
  induction l as [|x l IH]; [reflexivity|].
  destruct l as [|y l]; [reflexivity|]. exact IH.
Qed.

(** The span of a non-empty node list: the first node's start and the last
    node's end, whatever comments stand before the first node. *)
Lemma getSpanningRange_nonempty (first : Node) (rest : list Node) :
  getSpanningRange (first :: rest)
  = Normal (fst (range first), snd (range (last (first :: rest) first))).
Proof. reflexivity. Qed.

Lemma getCommentedText_value (source : SourceCode) (n : Node) :
  getCommentedText source n
  = Normal (JS.slice (text source) (ownedStart source n) (snd (range n))).
Proof.
  unfold getCommentedText, ownedStart.
  destruct (getCommentsBefore source n); reflexivity.
Qed.

Lemma getCommentedText_returns (source : SourceCode) (n : Node) :
  exists t, getCommentedText source n = Normal t.
Proof.
  unfold getCommentedText.
  destruct (getCommentsBefore source n); eexists; reflexivity.
Qed.

(** A reduce whose callback returns at every index it is called with
    returns. *)
Lemma reduceIdxC_returns {A B} (f : B -> A -> nat -> Completion B) (l : list A) :
  forall idx init,
    (forall acc x i, idx <= i < idx + List.length l -> exists b, f acc x i = Normal b) ->
    exists b, reduceIdxC f l idx init = Normal b.
Proof.
  induction l as [|x l IH]; intros idx init Hf; cbn [reduceIdxC].
  - eexists. reflexivity.
  - destruct (Hf init x idx) as [b ->]; [simpl; lia|].
    cbn [cbind]. apply IH. intros acc y i Hi. apply Hf. simpl. lia.
Qed.

(** A comparator made from a sort function that returns, returns. *)
Lemma getSorter_total {A} (sortFunction : A -> Completion SortKey) :
  (forall a, exists k, sortFunction a = Normal k) ->
  forall a b, exists z, getSorter sortFunction a b = Normal z.
Proof.
  intros H a b. unfold getSorter.
  destruct (H a) as [ka ->]. destruct (H b) as [kb ->]. eexists. reflexivity.
Qed.

(** The reduce that rebuilds the text of the reordered properties returns
    when there are no more of them than original positions. *)
Lemma rebuildText_returns (source : SourceCode) (original sorted : list Property)
    (first : option Node) :
  List.length sorted <= List.length original ->
  exists replacement, rebuildText source original first sorted = Normal replacement.
Proof.
  intros Hlen. unfold rebuildText. apply reduceIdxC_returns.
  intros acc x i Hi.
  assert (Htext : exists t,
            (if differs (propNode x) first
             then getCommentedText source (propNode x)
             else Normal (getText source (propNode x))) = Normal t).
  { destruct (differs _ _); [apply getCommentedText_returns | eexists; reflexivity]. }
  destruct Htext as [t ->]. cbn [cbind].
  destruct (nth_error original i) as [a|] eqn:Ha.
  - unfold getTextBetweenCommentedNodes.
    destruct (option_map propNode (nth_error original (i + 1))); eexists; reflexivity.
  - apply nth_error_None in Ha. lia.
Qed.

(** The fix of the object rule replaces the range from the start of the
    run's first property to the end of its last, with the run sorted by key. *)
Lemma objectFix_returns (source : SourceCode) (node : SortObjectKeys.ObjectExpressionNode)
    (first : Property) (rest : list Property) :
  exists sorted replacement,
    sort (getSorter SortObjectKeys.spanSortKey) (first :: rest) = Normal sorted
    /\ Permutation (first :: rest) sorted
    /\ Sorted KeySpec.keyOrdered sorted
    /\ SortObjectKeys.fixCallback source node (first :: rest)
       = Normal [mkFix (fst (range (propNode first)),
                        snd (range (propNode (last (first :: rest) first))))
                       replacement].
Proof.
  destruct (@stringSort_sorted _ SortObjectKeys.spanSortKey KeySpec.propKey
              (fun a => eq_refl) (first :: rest))
    as [sorted [Hsort [Hperm Hsorted]]].
  destruct (@rebuildText_returns source (first :: rest) sorted
              (option_map propNode (nth_error (SortObjectKeys.properties node) 0)))
    as [replacement Hrep].
  { rewrite (Permutation_length Hperm). apply Nat.le_refl. }
  exists sorted, replacement.
  split; [exact Hsort|]. split; [exact Hperm|]. split; [exact Hsorted|].
  unfold SortObjectKeys.fixCallback. cbn [map].
  rewrite getSpanningRange_nonempty. cbn [cbind].
  rewrite Hsort. cbn [cbind]. rewrite Hrep. cbn [cbind].
  change (propNode first :: map propNode rest) with (map propNode (first :: rest)).
  rewrite last_map. reflexivity.
Qed.

(** The fix of the pattern rule replaces the range from the start of the
    first property to the end of the last. *)
Lemma patternFix_returns (source : SourceCode) (first : Property) (rest : list Property) :
  exists replacement,
    SortPatternKeys.fixCallback source (first :: rest)
    = Normal [mkFix (fst (range (propNode first)),
                     snd (range (propNode (last (first :: rest) first))))
                    replacement].
Proof.
  destruct (@sort_returns _ (getSorter SortPatternKeys.patternSortKey)
              (getSorter_total SortPatternKeys.patternSortKey
                 (fun a => ex_intro _ _ eq_refl))
              (first :: rest)) as [sorted [Hsort Hperm]].
  destruct (@rebuildText_returns source (first :: rest) sorted
              (option_map propNode (nth_error (first :: rest) 0)))
    as [replacement Hrep].
  { rewrite (Permutation_length Hperm). apply Nat.le_refl. }
  exists replacement.
  unfold SortPatternKeys.fixCallback. cbn [map].
  rewrite getSpanningRange_nonempty. cbn [cbind].
  rewrite Hsort. cbn [cbind]. rewrite Hrep. cbn [cbind].
  change (propNode first :: map propNode rest) with (map propNode (first :: rest)).
  rewrite last_map. reflexivity.
Qed.

(** The narrower fix of the import rule replaces the range from the start of
    the declaration's first named specifier to the end of its last. *)
Lemma specifierFix_returns (source : SourceCode) (imp : SortImports.ImportDeclaration)
    (first : SortImports.ImportSpecifierNode)
    (rest : list SortImports.ImportSpecifierNode) :
  ImportSpec.namedSpecifiers imp = first :: rest ->
  exists replacement,
    SortImports.fixSpecifiers source imp
    = Normal (mkFix (fst (range (SortImports.specNode first)),
                     snd (range (SortImports.specNode (last (first :: rest) first))))
                    replacement).
Proof.
  intros Hnamed. unfold SortImports.fixSpecifiers.
  unfold ImportSpec.namedSpecifiers in Hnamed. rewrite Hnamed. cbn [map].
  rewrite getSpanningRange_nonempty. cbn [cbind].
  destruct (@sort_returns _ _
              (getSorter_total
                 (fun node => Normal (KString (JS.toLowerCase
                                                 (SortImports.getImportSpecifierSortName node))))
                 (fun a => ex_intro _ _ eq_refl))
              (first :: rest)) as [sorted [-> Hperm]].
  cbn [cbind].
  match goal with
  | |- context [reduceIdxC ?f sorted 0 ?init] =>
      destruct (@reduceIdxC_returns _ _ f sorted 0 init) as [replacement ->]
  end.
  - intros acc x i Hi.
    match goal with
    | |- context [if ?b then getCommentedText ?s ?n else ?e] =>
        assert (Htext : exists t, (if b then getCommentedText s n else e) = Normal t)
          by (destruct b; [apply getCommentedText_returns | eexists; reflexivity])
    end.
    destruct Htext as [t ->]. cbn [cbind].
    destruct (nth_error (first :: rest) i) as [a|] eqn:Ha.
    + unfold getTextBetweenCommentedNodes.
      destruct (option_map SortImports.specNode (nth_error (first :: rest) (i + 1)));
        eexists; reflexivity.
    + apply nth_error_None in Ha. rewrite <- (Permutation_length Hperm) in Hi. lia.
  - cbn [cbind].
    change (SortImports.specNode first :: map SortImports.specNode rest)
      with (map SortImports.specNode (first :: rest)).
    rewrite last_map. exists replacement. reflexivity.
Qed.

End FixRange.

Section DeclarationFixRange.
Import SortImports ImportSpec.
Variable resolves : string -> bool.
Variable declarationSort : string.
Variable sourceCode : SourceCode.
Hypothesis supported : declarationSort = "import" \/ declarationSort = "source".

Lemma declarationFix_returns
    (first : ImportDeclaration) (rest : list ImportDeclaration) :
  exists replacement,
    fixCallback resolves declarationSort sourceCode (first :: rest) []
    = Normal [mkFix (fst (range (declNode first)),
                     snd (range (declNode (last (first :: rest) first))))
                    replacement].
Proof.
  unfold fixCallback, fixDeclarations, sortDeclarations.
  cbn [List.length Nat.eqb negb map].
  rewrite getSpanningRange_nonempty. cbn [cbind].
  destruct (@sort_returns _ _ (compareFn_total resolves supported) (first :: rest))
    as [sorted [-> _]].
  cbn [cbind].
  match goal with
  | |- context [reduceIdxC ?f sorted 0 ?init] =>
      destruct (@reduceIdxC_returns _ _ f sorted 0 init) as [acc ->]
  end.
  - intros [textBefore prevGroup] x i _.
    destruct (differs _ _).
    + destruct (getCommentedText_returns sourceCode (declNode x)) as [t ->].
      eexists. reflexivity.
    + eexists. reflexivity.
  - cbn [cbind fst snd].
    change (declNode first :: map declNode rest) with (map declNode (first :: rest)).
    rewrite last_map. eexists. reflexivity.
Qed.

(** C4, as the code has it.  Every fix replaces the range from the start of
    the first original node itself to the end of the last original node;
    comments before the first node are outside the range.  This holds for the
    consolidated declaration fix, for the narrower specifier fix, and for the
    fixes of the pattern rule and of the object rule. *)
Theorem C4_fix_range_starts_at_first_node
    (first : ImportDeclaration) (rest : list ImportDeclaration) :
  (exists replacement,
     fixCallback resolves declarationSort sourceCode (first :: rest) []
     = Normal [mkFix (fst (range (declNode first)),
                      snd (range (declNode (last (first :: rest) first))))
                     replacement])
  /\ (forall imp spec0 specs,
        namedSpecifiers imp = spec0 :: specs ->
        exists replacement,
          fixSpecifiers sourceCode imp
          = Normal (mkFix (fst (range (specNode spec0)),
                           snd (range (specNode (last (spec0 :: specs) spec0))))
                          replacement))
  /\ (forall prop0 props,
        exists replacement,
          SortPatternKeys.fixCallback sourceCode (prop0 :: props)
          = Normal [mkFix (fst (range (propNode prop0)),
                           snd (range (propNode (last (prop0 :: props) prop0))))
                          replacement])
  /\ (forall node prop0 props,
        exists replacement,
          SortObjectKeys.fixCallback sourceCode node (prop0 :: props)
          = Normal [mkFix (fst (range (propNode prop0)),
                           snd (range (propNode (last (prop0 :: props) prop0))))
                          replacement]).
Proof.
  split; [apply declarationFix_returns|].
  split; [intros imp spec0 specs H; apply specifierFix_returns; exact H|].
  split; [intros prop0 props; apply patternFix_returns|].
  intros node prop0 props.
  destruct (objectFix_returns sourceCode node prop0 props)
    as (sorted & replacement & _ & _ & _ & H).
  exists replacement. exact H.
Qed.

End DeclarationFixRange.

(** The theorem at [/* c1 */ import B from 'b'] followed by
    [import A from 'a']. *)
Lemma C4_fix_range_witness :
  ("source" = "import" \/ "source" = "source")
  /\ exists replacement,
       SortImports.fixCallback LeadingComment.resolves "source"
         LeadingComment.sourceCode [LeadingComment.importB; LeadingComment.importA] []
       = Normal [mkFix (9, 44) replacement].
Proof.
  split; [right; reflexivity|].
  apply (@C4_fix_range_starts_at_first_node LeadingComment.resolves "source"
           LeadingComment.sourceCode (or_intror eq_refl)
           LeadingComment.importB [LeadingComment.importA]).
Defined.

(** The claim fails at [/* c1 */ import B from 'b'] followed by
    [import A from 'a']: the first declaration has a leading comment that
    starts at offset 0, and the fix the traversal offers replaces the range
    from offset 9, the start of the declaration. *)
Lemma C4_counterexample :
  getCommentsBefore LeadingComment.sourceCode
    (SortImports.declNode LeadingComment.importB) = [LeadingComment.c1]
  /\ ownedStart LeadingComment.sourceCode
       (SortImports.declNode LeadingComment.importB) = 0
  /\ exists diagnostic replacement,
       fst (SortImports.runProgram LeadingComment.resolves "source" true
              LeadingComment.sourceCode LeadingComment.body)
       = [diagnostic;
          ImportSpec.fixReport LeadingComment.importA
            (Normal [mkFix (9, 44) replacement])]
       /\ 9 <> ownedStart LeadingComment.sourceCode
                 (SortImports.declNode LeadingComment.importB).
Proof.
  split; [reflexivity|]. split; [reflexivity|].
  do 2 eexists. split; [vm_compute; reflexivity | vm_compute; discriminate].
Qed.

(* ------------------------------------------------------------------ *)
(** ** Strings: append, length and slices *)

Module StringFacts.

Lemma append_nil_r (s : string) : (s ++ "")%string = s.
Proof. induction s as [|c s IH]; cbn; [reflexivity | rewrite IH; reflexivity]. Qed.

Lemma append_assoc (a b c : string) : ((a ++ b) ++ c)%string = (a ++ b ++ c)%string.
Proof. induction a as [|x a IH]; cbn; [reflexivity | rewrite IH; reflexivity]. Qed.

Lemma length_append (a b : string) :
  String.length (a ++ b) = String.length a + String.length b.
Proof. induction a as [|x a IH]; cbn; [reflexivity | rewrite IH; reflexivity]. Qed.

Lemma substring_split (s : string) :
  forall n a b,
    String.substring n (a + b) s
    = (String.substring n a s ++ String.substring (n + a) b s)%string.
Proof.
  induction s as [|c s IH]; intros n a b.
  - destruct n, a, b; reflexivity.
  - destruct n as [|n].
    + destruct a as [|a]; cbn [Nat.add String.substring].
      * destruct b; reflexivity.
      * rewrite (IH 0 a b). reflexivity.
    + cbn [Nat.add String.substring]. apply IH.
Qed.

Lemma substring_length (s : string) :
  forall n m, n + m <= String.length s -> String.length (String.substring n m s) = m.
Proof.
  induction s as [|c s IH]; intros n m H; cbn [String.length] in H.
  - destruct n, m; try reflexivity; lia.
  - destruct n as [|n]; cbn [String.substring].
    + destruct m as [|m]; [reflexivity|]. cbn [String.length]. rewrite IH; [reflexivity | lia].
    + apply IH. lia.
Qed.

Lemma substring_zero (s : string) : forall n, String.substring n 0 s = "".
Proof.
  induction s as [|c s IH]; intros n; destruct n; cbn [String.substring];
    try reflexivity. apply IH.
Qed.

Lemma substring_all (s : string) : String.substring 0 (String.length s) s = s.
Proof. induction s as [|c s IH]; cbn; [reflexivity | rewrite IH; reflexivity]. Qed.

(** Two slices that meet make one slice. *)
Lemma slice_join (s : string) (i j k : nat) :
  i <= j -> j <= k ->
  (JS.slice s i j ++ JS.slice s j k)%string = JS.slice s i k.
Proof.
  intros Hij Hjk. unfold JS.slice.
  replace (k - i) with ((j - i) + (k - j)) by lia.
  rewrite substring_split. replace (i + (j - i)) with j by lia. reflexivity.
Qed.

Lemma slice_length (s : string) (i j : nat) :
  j <= String.length s -> String.length (JS.slice s i j) = j - i.
Proof.
  intros H. unfold JS.slice.
  destruct (Nat.le_gt_cases i j) as [Hij|Hij].
  - apply substring_length. lia.
  - replace (j - i) with 0 by lia. rewrite substring_zero. reflexivity.
Qed.

(** The middle one of three strings put together is the slice between its
    ends. *)
Lemma substring_skip (a s : string) :
  forall n m,
    String.substring (String.length a + n) m (a ++ s) = String.substring n m s.
Proof. induction a as [|c a IH]; intros n m; cbn; [reflexivity | apply IH]. Qed.

Lemma substring_prefix (b c : string) :
  String.substring 0 (String.length b) (b ++ c) = b.
Proof. induction b as [|x b IH]; cbn; [destruct c | rewrite IH]; reflexivity. Qed.

Lemma slice_middle (a b c : string) :
  JS.slice (a ++ b ++ c) (String.length a) (String.length a + String.length b) = b.
Proof.
  unfold JS.slice.
  replace (String.length a + String.length b - String.length a)
    with (String.length b) by lia.
  rewrite <- (Nat.add_0_r (String.length a)) at 1.
  rewrite substring_skip. apply substring_prefix.
Qed.

End StringFacts.

(* ------------------------------------------------------------------ *)
(** ** sort-imports: the text of the declaration fix and its order *)

Section FixedOrder.
Import SortImports ImportSpec DeclarationFixSpec.
Variable resolves : string -> bool.
Variable declarationSort : string.
Hypothesis supported : declarationSort = "import" \/ declarationSort = "source".
Variable sourceCode : SourceCode.

Local Abbreviation key := (compositeKey resolves declarationSort).
Local Abbreviation compareFn := (getSorter (declarationSortKey resolves declarationSort)).

(** The reduce of the declaration fix writes the lines of the declarations
    it is given, in the order it is given them. *)
Lemma declarationLines_reduce (imports sorted : list ImportDeclaration) :
  forall idx textBefore prevGroup,
    exists lastGroup,
      reduceIdxC
        (fun (acc : string * option nat) newImport idx =>
           let '(textBefore, prevGroup) := acc in
           let currentGroup := getImportDeclarationSortIdx resolves newImport in
           let groupSeparator :=
             match prevGroup with
             | Some g => if negb (g =? currentGroup) then JS.newline else ""
             | None => ""
             end in
           (text <- (if differs (declNode newImport)
                          (option_map declNode (nth_error imports 0))
                     then getCommentedText sourceCode (declNode newImport)
                     else Normal (getText sourceCode (declNode newImport))) ;;
            let textAfter :=
              if idx <? List.length imports - 1 then JS.newline else "" in
            Normal ((textBefore ++ groupSeparator ++ text ++ textAfter)%string,
                    Some currentGroup))%C)
        sorted idx (textBefore, prevGroup)
      = Normal ((textBefore
                 ++ declarationLines resolves sourceCode imports prevGroup sorted idx)%string,
                lastGroup).
Proof.
  induction sorted as [|d sorted IH]; intros idx textBefore prevGroup;
    cbn [reduceIdxC declarationLines].
  - exists prevGroup. rewrite StringFacts.append_nil_r. reflexivity.
  - assert (Htext : (if differs (declNode d) (option_map declNode (nth_error imports 0))
                     then getCommentedText sourceCode (declNode d)
                     else Normal (getText sourceCode (declNode d)))
                    = Normal (declarationText sourceCode imports d)).
    { unfold declarationText, RewriteSpec.nodeText.
      destruct (differs (declNode d) _); [apply getCommentedText_value | reflexivity]. }
    rewrite Htext. cbn [cbind].
    match goal with
    | |- context [reduceIdxC _ sorted (S idx) (?t, ?g)] =>
        destruct (IH (S idx) t g) as [lastGroup Hrest]
    end.
    exists lastGroup. etransitivity; [exact Hrest|].
    rewrite !StringFacts.append_assoc. reflexivity.
Qed.

Lemma occursInOrder_later (t : string) (pieces : list string) (from from' : nat) :
  from <= from' -> occursInOrder t pieces from' -> occursInOrder t pieces from.
Proof.
  intros Hle. destruct pieces as [|piece pieces]; cbn [occursInOrder]; [trivial|].
  intros (offset & Hfrom & Hslice & Hrest).
  exists offset. split; [lia|]. split; assumption.
Qed.

(** The lines hold the texts of the declarations, in the order of the
    declarations, wherever the lines stand in a text. *)
Lemma declarationLines_occur (imports sorted : list ImportDeclaration) :
  forall front prevGroup idx back,
    occursInOrder
      (front ++ declarationLines resolves sourceCode imports prevGroup sorted idx ++ back)
      (map (declarationText sourceCode imports) sorted)
      (String.length front).
Proof.
  induction sorted as [|d sorted IH]; intros front prevGroup idx back;
    cbn [declarationLines map occursInOrder]; [exact I|].
  set (separator := match prevGroup with
                    | Some g =>
                        if negb (g =? getImportDeclarationSortIdx resolves d)
                        then JS.newline else ""
                    | None => ""
                    end).
  set (piece := declarationText sourceCode imports d).
  set (textAfter := if idx <? List.length imports - 1 then JS.newline else "").
  set (lines := declarationLines resolves sourceCode imports
                  (Some (getImportDeclarationSortIdx resolves d)) sorted (S idx)).
  exists (String.length (front ++ separator)%string).
  split; [rewrite StringFacts.length_append; lia|]. split.
  - replace (front ++ (separator ++ piece ++ textAfter ++ lines) ++ back)%string
      with ((front ++ separator) ++ piece ++ (textAfter ++ lines ++ back))%string
      by (rewrite !StringFacts.append_assoc; reflexivity).
    apply StringFacts.slice_middle.
  - apply occursInOrder_later
      with (String.length (front ++ separator ++ piece ++ textAfter)%string);
      [rewrite !StringFacts.length_append; lia|].
    replace (front ++ (separator ++ piece ++ textAfter ++ lines) ++ back)%string
      with ((front ++ separator ++ piece ++ textAfter) ++ lines ++ back)%string
      by (rewrite !StringFacts.append_assoc; reflexivity).
    apply IH.
Qed.

(** A sequence sorted by the comparator has its composite keys in order. *)
Lemma sorted_by_key (l : list ImportDeclaration) :
  Sorted (before compareFn) l ->
  Sorted (fun a b => JS.lt (key b) (key a) = false) l.
Proof.
  induction 1 as [|a l Hs IH Hhd]; constructor; [exact IH|].
  destruct Hhd as [|b l Hb]; constructor.
  apply (@before_keys _ _ _ (declarationSortKey_string resolves supported)). exact Hb.
Qed.

(** C2.  In a supported strategy the declaration fix replaces the range of
    the import declarations by the lines of the same declarations in the
    order its sort returns: a permutation of the declarations, in the order
    of the composite key.  The replacement is the text of each declaration of
    that order in turn, one per line, with a blank line where the group
    changes; in the text with the fix applied these texts stand one after
    another in that order.  The traversal of any program whose import
    declarations stand in that order completes without a group or name
    violation: every report it makes is a specifier report or the fix report.
    At [import './side-effect'], [import SomeImage from '../images.png'],
    [import React from 'react'] in the 'source' strategy the fix gives the
    side effect, [react] and the image, blank lines between them, and the
    traversal of that text reports nothing. *)
Theorem C2_fixed_order_passes_declaration_check (fixOption : bool)
    (first : ImportDeclaration) (rest : list ImportDeclaration) :
  (exists sorted,
     sortDeclarations resolves declarationSort (first :: rest) = Normal sorted
     /\ Permutation (first :: rest) sorted
     /\ Sorted (fun a b => JS.lt (key b) (key a) = false) sorted
     /\ fixCallback resolves declarationSort sourceCode (first :: rest) []
        = Normal [mkFix (fst (range (declNode first)),
                         snd (range (declNode (last (first :: rest) first))))
                        (declarationLines resolves sourceCode (first :: rest)
                           None sorted 0)]
     /\ occursInOrder
          (applyFix (text sourceCode)
             (mkFix (fst (range (declNode first)),
                     snd (range (declNode (last (first :: rest) first))))
                    (declarationLines resolves sourceCode (first :: rest)
                       None sorted 0)))
          (map (declarationText sourceCode (first :: rest)) sorted)
          (String.length (JS.slice (text sourceCode) 0 (fst (range (declNode first)))))
     /\ forall fixedSource body,
          importsOf body = sorted ->
          snd (runProgram resolves declarationSort fixOption fixedSource body) = Normal tt
          /\ Forall (fun r => isDeclarationViolation r = false)
                    (fst (runProgram resolves declarationSort fixOption fixedSource body)))
  /\ fixCallback EndToEnd.resolves "source" EndToEnd.sourceCode EndToEnd.imports []
     = Normal [mkFix (0, 86)
                 ("import './side-effect'" ++ JS.newline ++ JS.newline
                  ++ "import React from 'react'" ++ JS.newline ++ JS.newline
                  ++ "import SomeImage from '../images.png'")]
  /\ applyFix EndToEnd.sourceText
       (mkFix (0, 86)
          ("import './side-effect'" ++ JS.newline ++ JS.newline
           ++ "import React from 'react'" ++ JS.newline ++ JS.newline
           ++ "import SomeImage from '../images.png'"))
     = EndToEnd.fixedText
  /\ map (fun d => getText EndToEnd.fixedSourceCode (declNode d))
         (importsOf EndToEnd.fixedBody)
     = ["import './side-effect'"; "import React from 'react'";
        "import SomeImage from '../images.png'"]
  /\ map (fun d => (map getImportSpecifierSortName (specifiers d), source_value d))
         (importsOf EndToEnd.fixedBody)
     = map (fun d => (map getImportSpecifierSortName (specifiers d), source_value d))
           [EndToEnd.sideEffect; EndToEnd.react; EndToEnd.someImage]
  /\ runProgram EndToEnd.resolves "source" true EndToEnd.fixedSourceCode
       EndToEnd.fixedBody
     = ([], Normal tt).
Proof.
  split; [|split; [|split; [|split; [|split]]]; vm_compute; reflexivity].
  unfold fixCallback.
  change (negb (List.length (@nil ImportDeclaration) =? 0)) with false.
  unfold fixDeclarations, sortDeclarations.
  destruct (@sort_returns _ compareFn (compareFn_total resolves supported) (first :: rest))
    as [sorted [Hsort Hperm]].
  pose proof (@sort_Sorted _ compareFn (compareFn_converse resolves supported)
                (first :: rest) sorted Hsort) as Hsorted.
  exists sorted. split; [exact Hsort|]. split; [exact Hperm|].
  split; [apply sorted_by_key; exact Hsorted|].
  split; [|split].
  - change (map declNode (first :: rest)) with (declNode first :: map declNode rest).
    rewrite getSpanningRange_nonempty. cbn [cbind]. rewrite Hsort. cbn [cbind].
    destruct (declarationLines_reduce (first :: rest) sorted 0 "" None)
      as [lastGroup Hreduce].
    match goal with
    | |- context [reduceIdxC ?f sorted 0 ?init] =>
        replace (reduceIdxC f sorted 0 init)
          with (Normal (("" ++ declarationLines resolves sourceCode (first :: rest)
                                 None sorted 0)%string, lastGroup))
          by (symmetry; exact Hreduce)
    end.
    cbn [cbind fst snd append].
    change (declNode first :: map declNode rest) with (map declNode (first :: rest)).
    rewrite last_map. reflexivity.
  - unfold applyFix. cbn [fixRange fixText fst snd].
    apply declarationLines_occur.
  - intros fixedSource body Hbody.
    rewrite runProgram_observe, Program_stages. unfold observe.
    destruct (List.length body <? 2); [split; [reflexivity | constructor]|].
    unfold initialLocals.
    destruct (collectImport_effect body [] false [] [] true None true) as [nif ->].
    cbn [items app]. rewrite Hbody.
    destruct (List.length sorted <? 2) eqn:Hlen; [split; [reflexivity | constructor]|].
    destruct sorted as [|first' rest']; [discriminate Hlen|].
    cbn [reduce1].
    match goal with
    | |- context [reduceM _ rest' first' ?c] =>
        destruct (@scan_sorted resolves declarationSort supported rest' first' c
                    Hsorted (Forall_nil _)) as (c' & d & -> & Hc')
    end.
    unfold finishScan.
    destruct (lastUnsortedDeclaration (locals c')); [|split; [reflexivity | exact Hc']].
    destruct (fixOption && fixable (locals c')); cbn [fst snd reports];
      (split; [reflexivity|]); [|exact Hc'].
    apply Forall_app. split; [exact Hc' | repeat constructor].
Qed.

End FixedOrder.

(** The theorem at the three declarations [import './side-effect'],
    [import SomeImage from '../images.png'], [import React from 'react'] in
    the 'source' strategy. *)
Lemma C2_fixed_order_witness :
  ("source" = "import" \/ "source" = "source")
  /\ exists sorted,
       SortImports.sortDeclarations EndToEnd.resolves "source" EndToEnd.imports
       = Normal sorted
       /\ SortImports.fixCallback EndToEnd.resolves "source" EndToEnd.sourceCode
            EndToEnd.imports []
          = Normal [mkFix (0, 86)
                      (DeclarationFixSpec.declarationLines EndToEnd.resolves
                         EndToEnd.sourceCode EndToEnd.imports None sorted 0)]
       /\ forall fixedSource body,
            ImportSpec.importsOf body = sorted ->
            snd (SortImports.runProgram EndToEnd.resolves "source" true
                   fixedSource body) = Normal tt
            /\ Forall (fun r => ImportSpec.isDeclarationViolation r = false)
                      (fst (SortImports.runProgram EndToEnd.resolves "source" true
                              fixedSource body)).
Proof.
  split; [right; reflexivity|].
  destruct (@C2_fixed_order_passes_declaration_check EndToEnd.resolves "source"
              (or_intror eq_refl) EndToEnd.sourceCode true
              EndToEnd.sideEffect [EndToEnd.someImage; EndToEnd.react])
    as [(sorted & Hsort & _ & _ & Hfix & _ & Hcheck) _].
  exists sorted. split; [exact Hsort|]. split; [exact Hfix | exact Hcheck].
Defined.

(* ------------------------------------------------------------------ *)
(** ** sort-pattern-keys: the rest element *)

Section RestElement.
Import SortPatternKeys KeySpec.
Variable sourceCode : SourceCode.

(** A rest element as the current property is passed over. *)
Lemma checkProperty_rest (prevProp curProp : Property) (c : Ctx bool) :
  isRestElement curProp = true ->
  checkProperty prevProp curProp c = (c, Normal curProp).
Proof. intros H. unfold checkProperty. rewrite H. reflexivity. Qed.

(** A property that follows a rest element gets the rest element reported. *)
Lemma checkProperty_after_rest (prevProp curProp : Property) (c : Ctx bool) :
  isRestElement prevProp = true -> isRestElement curProp = false ->
  checkProperty prevProp curProp c
  = (mkCtx (reports c ++ [restNotLastReport prevProp]) false, Normal curProp).
Proof.
  intros Hp Hc. unfold checkProperty. rewrite Hc, Hp. reflexivity.
Qed.

(** The sort function gives a property that is not a rest element its
    lower-cased key. *)
Lemma patternSorter_string (a b : Property) :
  isRestElement a = false -> isRestElement b = false ->
  getSorter patternSortKey a b
  = getSorter (fun p => Normal (KString (propKey p))) a b.
Proof.
  intros Ha Hb. unfold getSorter, patternSortKey. rewrite Ha, Hb. reflexivity.
Qed.

(** Against a rest element every other property comes first. *)
Lemma patternSorter_rest_last (a r : Property) :
  isRestElement a = false -> isRestElement r = true ->
  getSorter patternSortKey a r = Normal (-1)%Z.
Proof.
  intros Ha Hr. unfold getSorter, patternSortKey. rewrite Ha, Hr. reflexivity.
Qed.

(** The handler on a pattern with at least one property, stage by stage. *)
Lemma ObjectPattern_stages (fixOption : bool) (n : Node) (first : Property)
    (rest : list Property) (c : Ctx bool) :
  ObjectPattern fixOption sourceCode (mkPattern n (first :: rest)) c =
  match reduceM checkProperty rest first (mkCtx (reports c) true) with
  | (c', Throw e) => (c', Throw e)
  | (c', Normal _) =>
      if negb (locals c') && fixOption
      then (mkCtx (reports c'
                     ++ [mkReport n "Expected object properties to be sorted." []
                           (Some (fixCallback sourceCode (first :: rest)))])
                  (locals c'),
            Normal tt)
      else (c', Normal tt)
  end.
Proof.
  unfold ObjectPattern. cbn [properties arrayToNumber numberLt reduce1 patternNode].
  unfold bind at 1. unfold setLocals at 1. unfold bind at 1.
  destruct (reduceM checkProperty rest first _) as [c' [b|e]]; [|reflexivity].
  unfold_visitor. destruct (negb (locals c') && fixOption); reflexivity.
Qed.

(** C6.  For a pattern whose last property is a rest element and whose other
    properties are not: the rest element adds no report (the traversal shows
    what it shows on the properties before it); a property standing after a
    rest element gets "rest element must be last" reported on the rest
    element; and the sort of the fix orders the other properties by their
    lower-cased keys and leaves the rest element last.  On [{b, a, ...rest}]
    the one violation is 'a' before 'b', and the fix yields
    [{a, b, ...rest}]. *)
Theorem C6_rest_element_stays_last
    (n : Node) (init : list Property) (r : Property) :
  Forall (fun p => isRestElement p = false) init ->
  isRestElement r = true ->
  runObjectPattern false sourceCode (mkPattern n (init ++ [r]))
  = runObjectPattern false sourceCode (mkPattern n init)
  /\ (forall cur c, isRestElement cur = false ->
        checkProperty r cur c
        = (mkCtx (reports c ++ [restNotLastReport r]) false, Normal cur))
  /\ (exists sortedInit,
        sort (getSorter patternSortKey) (init ++ [r]) = Normal (sortedInit ++ [r])
        /\ Permutation init sortedInit
        /\ Sorted keyOrdered sortedInit)
  /\ runObjectPattern false RestPattern.sourceCode RestPattern.pattern
     = ([mkReport (mkNode 2 (4, 5)) "Expected '{{a}}' to be before '{{b}}'"
           [("a", Some "a"); ("b", Some "b")] None],
        Normal tt)
  /\ fixCallback RestPattern.sourceCode (properties RestPattern.pattern)
     = Normal [mkFix (1, 14) "a, b, ...rest"]
  /\ applyFix RestPattern.sourceText (mkFix (1, 14) "a, b, ...rest")
     = "{a, b, ...rest}".
Proof.
  intros Hinit Hr. split; [|split; [|split; [|repeat split]]].
  - destruct init as [|first rest]; [reflexivity|].
    unfold runObjectPattern, run. cbn [app].
    rewrite !ObjectPattern_stages, reduceM_app.
    destruct (reduceM checkProperty rest first _) as [c' [b|e]]; [|reflexivity].
    cbn [reduceM]. unfold bind at 1. rewrite (@checkProperty_rest b r c' Hr).
    unfold ret at 1. rewrite !andb_false_r. reflexivity.
  - intros cur c Hc. apply checkProperty_after_rest; assumption.
  - destruct (@stringSort_sorted _ (fun p => Normal (KString (propKey p))) propKey
                (fun a => eq_refl) init) as [sortedInit [Hsort [Hperm Hsorted]]].
    exists sortedInit. split; [|split; [exact Hperm | exact Hsorted]].
    rewrite sort_pinned.
    + rewrite (@sort_agree _ (getSorter patternSortKey)
                 (getSorter (fun p => Normal (KString (propKey p)))) init).
      * rewrite Hsort. reflexivity.
      * intros a b Ha Hb. rewrite Forall_forall in Hinit.
        apply patternSorter_string; apply Hinit; assumption.
    + intros x Hx. exists (-1)%Z. split; [|lia].
      rewrite Forall_forall in Hinit.
      apply patternSorter_rest_last; [apply Hinit; exact Hx | exact Hr].
Qed.

End RestElement.

(** The theorem at [{b, a, ...rest}]. *)
Lemma C6_rest_element_witness :
  Forall (fun p => SortPatternKeys.isRestElement p = false)
         [RestPattern.propB; RestPattern.propA]
  /\ SortPatternKeys.isRestElement RestPattern.rest = true
  /\ exists sortedInit,
       sort (getSorter SortPatternKeys.patternSortKey)
            ([RestPattern.propB; RestPattern.propA] ++ [RestPattern.rest])
       = Normal (sortedInit ++ [RestPattern.rest])
       /\ Permutation [RestPattern.propB; RestPattern.propA] sortedInit
       /\ Sorted KeySpec.keyOrdered sortedInit.
Proof.
  assert (H1 : Forall (fun p => SortPatternKeys.isRestElement p = false)
                      [RestPattern.propB; RestPattern.propA])
    by (repeat constructor).
  assert (H2 : SortPatternKeys.isRestElement RestPattern.rest = true) by reflexivity.
  split; [exact H1|]. split; [exact H2|].
  apply (@C6_rest_element_stays_last RestPattern.sourceCode (mkNode 0 (0, 15))
           [RestPattern.propB; RestPattern.propA] RestPattern.rest H1 H2).
Defined.

(* ------------------------------------------------------------------ *)
(** ** sort-object-keys: spreads as barriers *)

Section SpreadBarrier.
Import SortObjectKeys KeySpec ObjectSpec.

(** The reduce of [getDefinedPropSpansOfObjectExpression], started anywhere
    in a non-empty rest of the property list, closes the runs as [runsOf]
    does. *)
Lemma spans_are_runs (n : nat) (props : list Property) :
  forall idx propSpans propSpan,
    props <> [] ->
    idx + List.length props = n ->
    fst (reduceIdx (spanStep n) props idx (propSpans, propSpan))
    = propSpans ++ runsOf isSpread propSpan props.
Proof.
  induction props as [|p props IH]; intros idx propSpans propSpan Hne Hlen;
    [contradiction|].
  cbn [reduceIdx runsOf]. cbn [List.length] in Hlen.
  destruct props as [|q props].
  - (* the last property *)
    replace (spanStep n (propSpans, propSpan) p idx)
      with (if isSpread p
            then match propSpan with
                 | [] => (propSpans, @nil Property)
                 | _ :: _ => (propSpans ++ [propSpan], [])
                 end
            else (propSpans ++ [propSpan ++ [p]], propSpan ++ [p])).
    + destruct (isSpread p); [destruct propSpan|]; cbn [reduceIdx fst runsOf].
      * rewrite app_nil_r. reflexivity.
      * reflexivity.
      * destruct (propSpan ++ [p]) eqn:E; [|reflexivity].
        apply app_eq_nil in E. destruct E as [_ E]. discriminate.
    + unfold spanStep. replace (idx =? n - 1) with true
        by (symmetry; apply Nat.eqb_eq; simpl in Hlen; lia).
      destruct (isSpread p).
      * destruct propSpan; reflexivity.
      * rewrite length_app. cbn [List.length]. rewrite Nat.add_1_r. reflexivity.
  - (* more properties follow *)
    replace (spanStep n (propSpans, propSpan) p idx)
      with (if isSpread p
            then match propSpan with
                 | [] => (propSpans, @nil Property)
                 | _ :: _ => (propSpans ++ [propSpan], [])
                 end
            else (propSpans, propSpan ++ [p])).
    + destruct (isSpread p); [destruct propSpan|];
        rewrite IH by (try discriminate; cbn [List.length] in *; lia).
      * reflexivity.
      * rewrite <- app_assoc. reflexivity.
      * reflexivity.
    + unfold spanStep. replace (idx =? n - 1) with false
        by (symmetry; apply Nat.eqb_neq; cbn [List.length] in Hlen; lia).
      destruct (isSpread p).
      * destruct propSpan; cbn [List.length Nat.eqb negb andb]; reflexivity.
      * rewrite andb_false_r. reflexivity.
Qed.

(** The runs hold the properties that are not spreads, in order, and nothing
    else; no run is empty. *)
Lemma runsOf_concat (props : list Property) :
  forall run,
    List.concat (runsOf isSpread run props)
    = run ++ filter (fun p => negb (isSpread p)) props.
Proof.
  induction props as [|p props IH]; intros run; cbn [runsOf filter].
  - destruct run; [reflexivity|]. cbn [List.concat]. rewrite !app_nil_r. reflexivity.
  - destruct (isSpread p); cbn [negb].
    + destruct run; [apply IH|]. cbn [List.concat]. rewrite IH. reflexivity.
    + rewrite IH, <- app_assoc. reflexivity.
Qed.

Lemma runsOf_nonempty (props : list Property) :
  forall run, Forall (fun r => r <> []) (runsOf isSpread run props).
Proof.
  induction props as [|p props IH]; intros run; cbn [runsOf].
  - destruct run; repeat constructor. discriminate.
  - destruct (isSpread p); [|apply IH].
    destruct run; [apply IH|]. constructor; [discriminate | apply IH].
Qed.

Lemma getDefinedPropSpans_runs (node : ObjectExpressionNode) :
  getDefinedPropSpansOfObjectExpression node = runsOf isSpread [] (properties node).
Proof.
  unfold getDefinedPropSpansOfObjectExpression.
  destruct (properties node) as [|p props] eqn:E; [reflexivity|].
  rewrite spans_are_runs; [reflexivity | discriminate | reflexivity].
Qed.

(** The scan of one run reports each adjacent pair out of order and keeps the
    last offender. *)
Lemma checkProperty_scan (rest : list Property) :
  forall prev rs found,
    reduceM checkProperty rest prev (mkCtx rs found)
    = (mkCtx (rs ++ disorderReports prev rest) (lastDisorder prev rest found),
       Normal (last rest prev)).
Proof.
  induction rest as [|cur rest IH]; intros prev rs found.
  - cbn [reduceM disorderReports lastDisorder last]. rewrite app_nil_r. reflexivity.
  - cbn [reduceM disorderReports lastDisorder]. unfold bind at 1.
    unfold checkProperty at 1. unfold_visitor. fold (propKey cur) (propKey prev).
    destruct (JS.lt (propKey cur) (propKey prev)); cbn [reports locals];
      rewrite IH, last_cons.
    + rewrite <- app_assoc. reflexivity.
    + reflexivity.
Qed.

Variable fixOption : bool.
Variable sourceCode : SourceCode.

Lemma checkSpan_effect (node : ObjectExpressionNode) (span : list Property)
    (c : Ctx (option Property)) :
  exists found,
    checkSpan fixOption sourceCode node span c
    = (mkCtx (reports c ++ spanReports fixOption sourceCode node span) found, Normal tt).
Proof.
  destruct c as [rs found0]. unfold checkSpan, spanReports.
  destruct span as [|first [|second rest]].
  - exists found0. cbn. rewrite app_nil_r. reflexivity.
  - exists found0. cbn. rewrite app_nil_r. reflexivity.
  - cbn [List.length Nat.ltb Nat.leb reduce1]. unfold bind at 1. unfold setLocals at 1.
    cbn [reports]. unfold bind at 1. rewrite checkProperty_scan.
    unfold_visitor. cbn [locals reports].
    destruct (lastDisorder first (second :: rest) None) as [lastUnsorted|].
    + destruct fixOption; cbn [locals reports].
      * eexists. rewrite <- app_assoc. reflexivity.
      * eexists. rewrite app_nil_r. reflexivity.
    + eexists. rewrite app_nil_r. reflexivity.
Qed.

Lemma forEach_spans (node : ObjectExpressionNode) (spans : list (list Property)) :
  forall c, exists found,
    forEach (checkSpan fixOption sourceCode node) spans c
    = (mkCtx (reports c
                ++ flat_map (spanReports fixOption sourceCode node) spans) found,
       Normal tt).
Proof.
  induction spans as [|span spans IH]; intros c; cbn [forEach flat_map].
  - exists (locals c). unfold ret. rewrite app_nil_r. destruct c. reflexivity.
  - unfold bind. destruct (checkSpan_effect node span c) as [found ->].
    destruct (IH (mkCtx (reports c ++ spanReports fixOption sourceCode node span) found))
      as [found' ->].
    exists found'. cbn [reports]. rewrite <- app_assoc. reflexivity.
Qed.

(** X20.  Properties of the two node types the rule tests for, 'SpreadProperty'
    and 'ExperimentalSpreadProperty', cut the property list into the maximal
    runs of the other properties.  The traversal reports run by run: a run of
    fewer than two properties gives nothing, and a longer run gives the
    diagnostics of its own adjacent pairs out of order and at most one fix,
    which sorts that run alone.  On [{...x, b, a, ...y, d, c}] with spreads
    of type 'SpreadProperty' the runs are [b, a] and [d, c], 'a' and 'c' are
    reported, and the two fixes yield [{...x, a, b, ...y, c, d}]. *)
Theorem X20_recognised_spreads_are_barriers (node : ObjectExpressionNode) :
  getDefinedPropSpansOfObjectExpression node = runsOf isSpread [] (properties node)
  /\ List.concat (getDefinedPropSpansOfObjectExpression node)
     = filter (fun p => negb (isSpread p)) (properties node)
  /\ Forall (fun span => span <> []) (getDefinedPropSpansOfObjectExpression node)
  /\ runObjectExpression fixOption sourceCode node
     = (if List.length (properties node) <? 2 then []
        else flat_map (spanReports fixOption sourceCode node)
                      (runsOf isSpread [] (properties node)),
        Normal tt)
  /\ spanReports fixOption sourceCode node [] = []
  /\ (forall prop, spanReports fixOption sourceCode node [prop] = [])
  /\ (forall first rest,
        exists sorted replacement,
          sort (getSorter spanSortKey) (first :: rest) = Normal sorted
          /\ Permutation (first :: rest) sorted
          /\ Sorted keyOrdered sorted
          /\ fixCallback sourceCode node (first :: rest)
             = Normal [mkFix (fst (range (propNode first)),
                              snd (range (propNode (last (first :: rest) first))))
                             replacement])
  /\ getDefinedPropSpansOfObjectExpression SpreadObject.object
     = [[SpreadObject.propB; SpreadObject.propA]; [SpreadObject.propD; SpreadObject.propC]]
  /\ runObjectExpression true SpreadObject.sourceCode SpreadObject.object
     = ([objectKeyReport SpreadObject.propB SpreadObject.propA;
         mkReport (mkNode 3 (10, 11)) "Expected object properties to be sorted." []
                  (Some (Normal [mkFix (7, 11) "a, b"]));
         objectKeyReport SpreadObject.propD SpreadObject.propC;
         mkReport (mkNode 6 (22, 23)) "Expected object properties to be sorted." []
                  (Some (Normal [mkFix (19, 23) "c, d"]))],
        Normal tt)
  /\ applyFix (applyFix SpreadObject.sourceText (mkFix (19, 23) "c, d"))
              (mkFix (7, 11) "a, b")
     = "{...x, a, b, ...y, c, d}".
Proof.
  split; [apply getDefinedPropSpans_runs|].
  split; [rewrite getDefinedPropSpans_runs; apply (runsOf_concat (properties node) [])|].
  split; [rewrite getDefinedPropSpans_runs; apply runsOf_nonempty|].
  split.
  { unfold runObjectExpression, run, ObjectExpression.
    destruct (List.length (properties node) <? 2); [reflexivity|].
    rewrite getDefinedPropSpans_runs.
    destruct (forEach_spans node (runsOf isSpread [] (properties node)) (mkCtx [] None))
      as [found ->].
    reflexivity. }
  split; [reflexivity|].
  split; [reflexivity|].
  split; [|repeat split].
  intros first rest. apply objectFix_returns.
Qed.

End SpreadBarrier.

(** C5.  The object rule knows a spread by the node types 'SpreadProperty'
    and 'ExperimentalSpreadProperty' only, while the pattern rule knows a
    rest element by 'RestElement' too.  At the object literal
    [{...x, b, a, ...y, d, c}] whose spreads have the ESTree node type
    'SpreadElement' the spreads are therefore no barriers: all six
    properties form one run, the spread [...y] itself is reported as out of
    order after 'a', and the one fix replaces the range from [...x] to [c],
    moving both spreads to the front: [{...x, ...y, a, b, c, d}], where the
    claim has [{...x, a, b, ...y, c, d}]. *)
Theorem C5_spread_element_is_no_barrier :
  SortObjectKeys.isSpread SpreadElementObject.spreadX = false
  /\ SortObjectKeys.isSpread SpreadElementObject.spreadY = false
  /\ SortPatternKeys.isRestElement (mkProperty (mkNode 4 (13, 17)) "RestElement" None)
     = true
  /\ SortObjectKeys.getDefinedPropSpansOfObjectExpression SpreadElementObject.object
     = [[SpreadElementObject.spreadX; SpreadElementObject.propB;
         SpreadElementObject.propA; SpreadElementObject.spreadY;
         SpreadElementObject.propD; SpreadElementObject.propC]]
  /\ SortObjectKeys.runObjectExpression true SpreadElementObject.sourceCode
       SpreadElementObject.object
     = ([mkReport (mkNode 3 (10, 11)) "Expected '{{a}}' to be before '{{b}}'."
                  [("a", Some "a"); ("b", Some "b")] None;
         mkReport (mkNode 4 (13, 17)) "Expected '{{a}}' to be before '{{b}}'."
                  [("a", Some ""); ("b", Some "a")] None;
         mkReport (mkNode 6 (22, 23)) "Expected '{{a}}' to be before '{{b}}'."
                  [("a", Some "c"); ("b", Some "d")] None;
         mkReport (mkNode 6 (22, 23)) "Expected object properties to be sorted." []
                  (Some (Normal [mkFix (1, 23) "...x, ...y, a, b, c, d"]))],
        Normal tt)
  /\ applyFix SpreadElementObject.sourceText (mkFix (1, 23) "...x, ...y, a, b, c, d")
     = "{...x, ...y, a, b, c, d}"
  /\ applyFix SpreadElementObject.sourceText (mkFix (1, 23) "...x, ...y, a, b, c, d")
     <> "{...x, a, b, ...y, c, d}".
Proof.
  repeat split; try reflexivity.
  vm_compute. discriminate.
Qed.

(* ================================================================== *)
(** * Further properties of the rules *)

(* ------------------------------------------------------------------ *)
(** ** sort-imports: the group of a declaration *)

Section Groups.
Import SortImports.
Variable resolves : string -> bool.

Local Abbreviation group := (getImportDeclarationSortIdx resolves).

(** X1.  The group ordinal of a declaration is 0, 1, 3 or 4, never 2; it is 0
    exactly when the declaration has no specifiers; and a declaration whose
    source starts with a dot is never put in the external group, whatever
    the resolver says. *)
Theorem X1_group_ordinals (d : ImportDeclaration) :
  (group d = 0 \/ group d = 1 \/ group d = 3 \/ group d = 4)
  /\ (group d = DECL_PRIORITIES.SideEffect <-> specifiers d = [])
  /\ (JS.startsWith (source_value d) "." = true -> group d <> DECL_PRIORITIES.External).
Proof.
  unfold getImportDeclarationSortIdx, isImportSideEffect, isImportExternal.
  destruct (specifiers d) as [|s l]; cbn [List.length Nat.eqb negb].
  - repeat split; auto.
  - destruct (isStaticAsset _).
    + repeat split; auto; try discriminate.
    + destruct (JS.startsWith (source_value d) ".").
      * repeat split; auto; try discriminate.
      * destruct (resolves (source_value d)); repeat split; auto; try discriminate.
Qed.

End Groups.

(** The theorem at [import App from './app'] with a resolver that accepts
    every name. *)
Lemma X1_group_ordinals_witness :
  JS.startsWith (SortImports.source_value GroupLabels.localDecl) "." = true
  /\ SortImports.getImportDeclarationSortIdx (fun _ => true) GroupLabels.localDecl
     <> SortImports.DECL_PRIORITIES.External.
Proof.
  split; [reflexivity|].
  apply (X1_group_ordinals (fun _ => true) GroupLabels.localDecl). reflexivity.
Defined.

(* ------------------------------------------------------------------ *)
(** ** sort-imports: the traversal in a supported strategy *)

Section SupportedTraversal.
Import SortImports ImportSpec.
Variable resolves : string -> bool.
Variable declarationSort : string.
Variable sourceCode : SourceCode.
Hypothesis supported : declarationSort = "import" \/ declarationSort = "source".

Local Abbreviation group := (getImportDeclarationSortIdx resolves).
Local Abbreviation key := (compositeKey resolves declarationSort).
Local Abbreviation checkDeclaration := (checkDeclaration resolves declarationSort).
Local Abbreviation checkImport := (checkImport resolves declarationSort).

(** An equation that makes a state with one more report equal to the state
    it came from is absurd. *)
Ltac report_grew H :=
  apply (f_equal (fun s : Ctx SortImports.Locals * Completion unit =>
                    List.length (reports (fst s)))) in H;
  cbn [fst reports] in H; rewrite length_app in H; cbn [List.length] in H; lia.

(** A composite key that is below another has the lower group, or the same
    group and the lower name. *)
Lemma composite_below (g1 g2 : nat) (n1 n2 : string) :
  (g1 = 0 \/ g1 = 1 \/ g1 = 3 \/ g1 = 4) ->
  (g2 = 0 \/ g2 = 1 \/ g2 = 3 \/ g2 = 4) ->
  JS.lt (JS.numberToString g2 ++ n2) (JS.numberToString g1 ++ n1) = true ->
  g2 < g1 \/ (g2 = g1 /\ JS.lt n2 n1 = true).
Proof.
  intros H1 H2.
  destruct H1 as [-> | [-> | [-> | ->]]]; destruct H2 as [-> | [-> | [-> | ->]]];
    unfold JS.lt, String.ltb; cbn; intros H;
    try discriminate H; try (left; lia); right; (split; [reflexivity | exact H]).
Qed.

(** The comparison of two declarations whose keys are out of order reports a
    violation. *)
Lemma checkDeclaration_out_of_order (prevImport curImport : ImportDeclaration)
    (c : Ctx Locals) :
  JS.lt (key curImport) (key prevImport) = true ->
  exists r,
    checkDeclaration prevImport curImport c = applyVerdict (Violation r) curImport c
    /\ isDeclarationViolation r = true /\ fix_ r = None.
Proof.
  intros Hkey.
  destruct (checkDeclaration_verdict resolves declarationSort prevImport curImport)
    as [v [Hv Hprop]].
  destruct v as [|r|e].
  - (* in order: the keys would be in order *)
    exfalso.
    destruct (composite_below _ _ (group_cases resolves prevImport)
                (group_cases resolves curImport) Hkey) as [Hlt | [Heq Hname]].
    + specialize (Hv c). unfold SortImports.checkDeclaration in Hv.
      apply Nat.ltb_lt in Hlt. rewrite Hlt in Hv. cbn [applyVerdict] in Hv.
      unfold_visitor. unfold set_lastUnsortedDeclaration in Hv. unfold_visitor.
      report_grew Hv.
    + specialize (Hv c). unfold SortImports.checkDeclaration in Hv.
      rewrite Heq, Nat.ltb_irrefl, Nat.eqb_refl in Hv. cbn [applyVerdict] in Hv.
      destruct supported as [E | E]; rewrite E in Hv, Hname;
        cbn [String.eqb Ascii.eqb Bool.eqb] in Hv, Hname.
      * destruct (sortName_defined curImport) as [kc Hc].
        destruct (sortName_defined prevImport) as [kp Hp].
        rewrite Hc, Hp in Hv, Hname. unfold_visitor. cbn [toLowerCaseOf] in Hv.
        rewrite Hname in Hv. unfold set_lastUnsortedDeclaration in Hv. unfold_visitor.
        report_grew Hv.
      * rewrite Hname in Hv. unfold set_lastUnsortedDeclaration in Hv. unfold_visitor.
        report_grew Hv.
  - exists r. split; [apply Hv | exact Hprop].
  - exfalso. destruct Hprop as (_ & _ & Hi & Hs). destruct supported; contradiction.
Qed.

(** X2.  In a supported strategy the comparison of two successive
    declarations reports a violation exactly when the fixer's composite key
    of the current declaration is below that of the previous one: the
    checker and the fixer use the same order. *)
Theorem X2_check_agrees_with_composite_key
    (prevImport curImport : ImportDeclaration) (c : Ctx Locals) :
  reports (fst (checkDeclaration prevImport curImport c)) = reports c
  <-> JS.lt (key curImport) (key prevImport) = false.
Proof.
  split.
  - intros Hsame.
    destruct (JS.lt (key curImport) (key prevImport)) eqn:Hkey; [|reflexivity].
    destruct (checkDeclaration_out_of_order prevImport curImport c Hkey) as [r [Hr _]].
    rewrite Hr in Hsame. cbn [applyVerdict fst reports] in Hsame.
    apply (f_equal (@List.length Report)) in Hsame. rewrite length_app in Hsame.
    cbn [List.length] in Hsame. lia.
  - intros Hkey.
    rewrite (checkDeclaration_in_order resolves supported prevImport curImport c Hkey).
    reflexivity.
Qed.

End SupportedTraversal.

(* ------------------------------------------------------------------ *)
(** ** sort-imports: the traversal in any strategy *)

Section AnyStrategy.
Import SortImports ImportSpec.
Variable resolves : string -> bool.
Variable declarationSort : string.
Variable sourceCode : SourceCode.

(** X3.  A module with fewer than two import declarations is left alone:
    whatever the options and whatever else the module holds, the traversal
    reports nothing and completes, also when the one import declaration has
    its specifiers out of order. *)
Theorem X3_fewer_than_two_imports_silent (fixOption : bool) (body : list Statement) :
  List.length (importsOf body) < 2 ->
  runProgram resolves declarationSort fixOption sourceCode body = ([], Normal tt).
Proof.
  intros Hlen.
  rewrite runProgram_observe, Program_stages. unfold observe.
  destruct (List.length body <? 2); [reflexivity|].
  unfold initialLocals.
  destruct (collectImport_effect body [] false [] [] true None true) as [nif ->].
  cbn [items app].
  replace (List.length (importsOf body) <? 2) with true
    by (symmetry; apply Nat.ltb_lt; exact Hlen).
  reflexivity.
Qed.

(** X4.  The fix option changes nothing but the fix: with the option on, the
    traversal makes the reports it makes with the option off, in the same
    order, followed by at most one more report, the one that carries the
    fix; it completes or throws alike; and with the option off no report
    carries a fix. *)
Theorem X4_fix_option_only_adds_the_fix (body : list Statement) :
  exists tail,
    fst (runProgram resolves declarationSort true sourceCode body)
    = fst (runProgram resolves declarationSort false sourceCode body) ++ tail
    /\ (tail = [] \/ exists lastUnsorted callback, tail = [fixReport lastUnsorted callback])
    /\ snd (runProgram resolves declarationSort true sourceCode body)
       = snd (runProgram resolves declarationSort false sourceCode body)
    /\ Forall (fun r => fix_ r = None)
              (fst (runProgram resolves declarationSort false sourceCode body)).
Proof.
  rewrite !runProgram_observe, !Program_stages. unfold observe.
  destruct (List.length body <? 2).
  { exists []. cbn [fst snd reports]. repeat split; auto. }
  unfold initialLocals.
  destruct (collectImport_effect body [] false [] [] true None true) as [nif ->].
  cbn [items app].
  destruct (List.length (importsOf body) <? 2).
  { exists []. cbn [fst snd reports]. repeat split; auto. }
  destruct (importsOf body) as [|first rest] eqn:Himports.
  { exists []. cbn. repeat split; auto. }
  cbn [reduce1].
  match goal with
  | |- context [reduceM _ rest first ?c] =>
      pose proof (@scan_no_fix resolves declarationSort rest first c (Forall_nil _))
        as Hnofix;
      destruct (reduceM (checkImport resolves declarationSort) rest first c)
        as [c2 [d|e]]
  end; cbn [fst] in Hnofix; unfold finishScan.
  - destruct (lastUnsortedDeclaration (locals c2)) as [lastUnsorted|].
    + cbn [andb]. destruct (fixable (locals c2)); cbn [fst snd reports].
      * eexists. split; [reflexivity|]. split; [right; do 2 eexists; reflexivity|].
        split; [reflexivity | exact Hnofix].
      * exists []. rewrite app_nil_r. repeat split; auto.
    + exists []. cbn [fst snd]. rewrite app_nil_r. repeat split; auto.
  - exists []. cbn [fst snd]. rewrite app_nil_r. repeat split; auto.
Qed.

End AnyStrategy.

(* ------------------------------------------------------------------ *)
(** ** sort-imports: what the scan reports *)

Section ScanReports.
Import SortImports ImportSpec.
Variable resolves : string -> bool.
Variable declarationSort : string.
Variable sourceCode : SourceCode.

Local Abbreviation key := (compositeKey resolves declarationSort).
Local Abbreviation checkImport := (checkImport resolves declarationSort).

(** Every report of the scan is a group or name violation, or a specifier
    report of one of the declarations the scan takes as current. *)
Lemma scan_report_origin (all : list ImportDeclaration) (rest : list ImportDeclaration) :
  forall prev c,
    incl rest all ->
    Forall (fun r => isDeclarationViolation r = true
                     \/ exists cur, In cur all /\ In r (specifierReports cur))
           (reports c) ->
    Forall (fun r => isDeclarationViolation r = true
                     \/ exists cur, In cur all /\ In r (specifierReports cur))
           (reports (fst (reduceM checkImport rest prev c))).
Proof.
  induction rest as [|cur rest IH]; intros prev c Hincl Hc; cbn [reduceM].
  - exact Hc.
  - unfold bind. rewrite checkImport_step.
    destruct (checkDeclaration_verdict resolves declarationSort prev cur)
      as [v [Hv Hprop]].
    rewrite Hv.
    assert (Hcur : In cur all) by (apply Hincl; left; reflexivity).
    assert (Hrest : incl rest all) by (intros x Hx; apply Hincl; right; exact Hx).
    assert (Hspec : Forall (fun r => isDeclarationViolation r = true
                                     \/ exists cur, In cur all /\ In r (specifierReports cur))
                           (specifierReports cur)).
    { apply Forall_forall. intros r Hr. right. exists cur. split; assumption. }
    destruct v as [|r|e]; cbn [applyVerdict].
    + apply IH; [exact Hrest|].
      destruct (checkSpecifiers_effect cur c) as [s ->]. cbn [fst reports].
      apply Forall_app. split; assumption.
    + apply IH; [exact Hrest|].
      match goal with
      | |- context [checkSpecifiers cur ?c'] =>
          destruct (checkSpecifiers_effect cur c') as [s ->]
      end.
      cbn [fst reports]. apply Forall_app. split; [|assumption].
      apply Forall_app. split; [assumption|].
      constructor; [left; apply Hprop | constructor].
    + exact Hc.
Qed.

(** X5.  The specifiers of the first import declaration of a module are
    never checked: every report of a traversal is a group or name violation,
    the report that carries the fix, or the specifier report of an import
    declaration after the first. *)
Theorem X5_first_declaration_specifiers_unchecked (fixOption : bool)
    (body : list Statement) :
  Forall (fun r => isDeclarationViolation r = true
                   \/ (exists lastUnsorted callback, r = fixReport lastUnsorted callback)
                   \/ exists cur, In cur (tl (importsOf body))
                                  /\ In r (specifierReports cur))
         (fst (runProgram resolves declarationSort fixOption sourceCode body)).
Proof.
  rewrite runProgram_observe, Program_stages. unfold observe. cbn [fst].
  destruct (List.length body <? 2); [constructor|].
  unfold initialLocals.
  destruct (collectImport_effect body [] false [] [] true None true) as [nif ->].
  cbn [items app].
  destruct (List.length (importsOf body) <? 2); [constructor|].
  destruct (importsOf body) as [|first rest]; [constructor|].
  cbn [reduce1 tl].
  match goal with
  | |- context [reduceM _ rest first ?c] =>
      pose proof (@scan_report_origin rest rest first c (incl_refl _) (Forall_nil _))
        as Horigin;
      destruct (reduceM checkImport rest first c) as [c2 [d|e]]
  end; cbn [fst] in Horigin; unfold finishScan.
  2:{ cbn [fst]. eapply Forall_impl; [|exact Horigin]. intros r [H|H]; auto. }
  assert (Hscan : Forall (fun r => isDeclarationViolation r = true
                    \/ (exists lastUnsorted callback, r = fixReport lastUnsorted callback)
                    \/ exists cur, In cur rest /\ In r (specifierReports cur))
                  (reports c2)).
  { eapply Forall_impl; [|exact Horigin]. intros r [H|H]; auto. }
  destruct (lastUnsortedDeclaration (locals c2)) as [lastUnsorted|]; [|exact Hscan].
  destruct (fixOption && fixable (locals c2)); [|exact Hscan].
  cbn [fst reports]. apply Forall_app. split; [exact Hscan|].
  constructor; [|constructor]. right. left. do 2 eexists. reflexivity.
Qed.

Hypothesis supported : declarationSort = "import" \/ declarationSort = "source".

(** One step of the scan in a supported strategy: it returns, and it reports
    a violation for the pair when the keys are out of order, then what the
    specifier scan of the current declaration reports. *)
Lemma checkImport_effect (prevImport curImport : ImportDeclaration) (c : Ctx Locals) :
  exists violation c',
    checkImport prevImport curImport c = (c', Normal curImport)
    /\ reports c' = reports c ++ violation ++ specifierReports curImport
    /\ (violation = [] <-> JS.lt (key curImport) (key prevImport) = false)
    /\ fixable (locals c') = fixable (locals c)
    /\ lastUnsortedDeclaration (locals c')
       = (if negb (List.length (violation ++ specifierReports curImport) =? 0)
          then Some curImport
          else lastUnsortedDeclaration (locals c)).
Proof.
  rewrite checkImport_step.
  destruct (JS.lt (key curImport) (key prevImport)) eqn:Hkey.
  - destruct (checkDeclaration_out_of_order resolves supported
                prevImport curImport c Hkey) as [r [-> _]].
    cbn [applyVerdict].
    match goal with
    | |- context [checkSpecifiers curImport ?c'] =>
        destruct (checkSpecifiers_effect curImport c') as [s ->]
    end.
    exists [r]. eexists. cbn [fst reports locals fixable lastUnsortedDeclaration].
    split; [reflexivity|]. split; [rewrite <- app_assoc; reflexivity|].
    split; [split; discriminate|]. split; [reflexivity|].
    cbn [app List.length Nat.eqb negb].
    destruct (hasSpecifierDisorder curImport); reflexivity.
  - rewrite (checkDeclaration_in_order resolves supported prevImport curImport c Hkey).
    destruct (checkSpecifiers_effect curImport c) as [s ->].
    exists []. eexists. cbn [fst reports locals fixable lastUnsortedDeclaration app].
    split; [reflexivity|]. split; [reflexivity|].
    split; [split; reflexivity|]. split; [reflexivity|].
    unfold hasSpecifierDisorder. reflexivity.
Qed.

End ScanReports.

(* ------------------------------------------------------------------ *)
(** ** sort-imports: diagnostics and order *)

Section DiagnosticsAndOrder.
Import SortImports ImportSpec.
Variable resolves : string -> bool.
Variable declarationSort : string.
Variable sourceCode : SourceCode.
Hypothesis supported : declarationSort = "import" \/ declarationSort = "source".

Local Abbreviation key := (compositeKey resolves declarationSort).
Local Abbreviation checkImport := (checkImport resolves declarationSort).
Local Abbreviation ordered :=
  (fun a b : ImportDeclaration => JS.lt (key b) (key a) = false).
Local Abbreviation clean := (fun d : ImportDeclaration => specifierReports d = []).

(** The scan in a supported strategy: it returns; it adds reports exactly
    when some pair of neighbours is out of order or some declaration after
    the first has its specifiers out of order; and it records an unsorted
    declaration exactly when it adds a report. *)
Lemma scan_trace (rest : list ImportDeclaration) :
  forall prev c,
    exists added c',
      reduceM checkImport rest prev c = (c', Normal (last rest prev))
      /\ reports c' = reports c ++ added
      /\ fixable (locals c') = fixable (locals c)
      /\ (added = [] <-> Sorted ordered (prev :: rest) /\ Forall clean rest)
      /\ (added = [] ->
          lastUnsortedDeclaration (locals c') = lastUnsortedDeclaration (locals c))
      /\ (added <> [] -> lastUnsortedDeclaration (locals c') <> None).
Proof.
  induction rest as [|cur rest IH]; intros prev c.
  - exists [], c. cbn [reduceM last]. unfold ret. rewrite app_nil_r.
    repeat split; auto.
  - cbn [reduceM]. unfold bind.
    destruct (checkImport_effect resolves supported prev cur c)
      as (violation & c1 & -> & Hrep1 & Hviol & Hfix1 & Hlast1).
    destruct (IH cur c1) as (added & c' & -> & Hrep & Hfix & Hiff & Hkeep & Hset).
    exists ((violation ++ specifierReports cur) ++ added), c'.
    rewrite last_cons.
    split; [reflexivity|].
    split; [rewrite Hrep, Hrep1, <- !app_assoc; reflexivity|].
    split; [congruence|].
    split; [|split].
    + split.
      * intros Hnil. apply app_eq_nil in Hnil. destruct Hnil as [Hstep Hadded].
        apply app_eq_nil in Hstep. destruct Hstep as [Hv Hs].
        destruct (proj1 Hiff Hadded) as [Hsorted Hclean].
        split.
        -- constructor; [exact Hsorted|]. constructor. apply Hviol. exact Hv.
        -- constructor; assumption.
      * intros [Hsorted Hclean].
        inversion Hsorted as [|? ? Hs' Hhd]; subst.
        inversion Hhd as [|? ? Hord]; subst.
        inversion Hclean as [|? ? Hc Hcl]; subst.
        rewrite (proj2 Hviol Hord), Hc. cbn [app].
        apply Hiff. split; assumption.
    + intros Hnil. apply app_eq_nil in Hnil. destruct Hnil as [Hstep Hadded].
      rewrite (Hkeep Hadded), Hlast1, Hstep. reflexivity.
    + intros Hne.
      destruct added as [|a added'].
      * rewrite (Hkeep eq_refl), Hlast1.
        destruct (violation ++ specifierReports cur) as [|x l];
          [exfalso; apply Hne; reflexivity | discriminate].
      * apply Hset. discriminate.
Qed.

(** X6.  In a supported strategy a traversal of a module of this syntax
    tree, in which every named import specifier imports an identifier name,
    never throws: whatever such a module and the fix option, the handler
    completes.  (A specifier that imports under a string-literal name has no
    [imported.name] and is outside the tree: see [ImportSpecifierNode].) *)
Theorem X6_supported_traversal_completes (fixOption : bool) (body : list Statement) :
  snd (runProgram resolves declarationSort fixOption sourceCode body) = Normal tt.
Proof.
  rewrite runProgram_observe, Program_stages. unfold observe. cbn [snd].
  destruct (List.length body <? 2); [reflexivity|].
  unfold initialLocals.
  destruct (collectImport_effect body [] false [] [] true None true) as [nif ->].
  cbn [items app].
  destruct (importsOf body) as [|first [|second rest]]; try reflexivity.
  cbn [List.length Nat.ltb Nat.leb reduce1].
  match goal with
  | |- context [reduceM _ ?l first ?c] =>
      destruct (scan_trace l first c) as (added & c' & -> & _)
  end.
  unfold finishScan.
  destruct (lastUnsortedDeclaration (locals c')); [|reflexivity].
  destruct (fixOption && fixable (locals c')); reflexivity.
Qed.

(** X7.  In a supported strategy a traversal reports nothing exactly when
    the import declarations of the module are in the order of the fixer's
    composite key and every import declaration after the first has its named
    specifiers in order: the checker has no false alarm on a sorted module
    and misses no disorder it is built to see. *)
Theorem X7_silent_iff_ordered (fixOption : bool) (body : list Statement) :
  fst (runProgram resolves declarationSort fixOption sourceCode body) = []
  <-> Sorted ordered (importsOf body) /\ Forall clean (tl (importsOf body)).
Proof.
  pose proof (importsOf_length body) as Hlen.
  rewrite runProgram_observe, Program_stages. unfold observe. cbn [fst].
  destruct (List.length body <? 2) eqn:Hb.
  { apply Nat.ltb_lt in Hb.
    destruct (importsOf body) as [|a [|b l]]; cbn [tl reports].
    - split; [intros _; split; constructor | reflexivity].
    - split; [intros _; split; repeat constructor | reflexivity].
    - simpl in Hlen. lia. }
  unfold initialLocals.
  destruct (collectImport_effect body [] false [] [] true None true) as [nif ->].
  cbn [items app].
  destruct (importsOf body) as [|first [|second rest]]; cbn [List.length Nat.ltb Nat.leb tl].
  - cbn [reports]. split; [intros _; split; constructor | reflexivity].
  - cbn [reports]. split; [intros _; split; repeat constructor | reflexivity].
  - cbn [reduce1].
    match goal with
    | |- context [reduceM _ ?l first ?c] =>
        destruct (scan_trace l first c)
          as (added & c' & -> & Hrep & _ & Hiff & Hkeep & Hset)
    end.
    cbn [reports app locals lastUnsortedDeclaration] in Hrep, Hkeep.
    unfold finishScan. rewrite <- Hiff.
    destruct added as [|a added'].
    + rewrite (Hkeep eq_refl). cbn [fst]. rewrite Hrep. split; reflexivity.
    + split; [|discriminate].
      destruct (lastUnsortedDeclaration (locals c')); [|cbn [fst]; rewrite Hrep; discriminate].
      destruct (fixOption && fixable (locals c')); cbn [fst reports]; rewrite Hrep;
        discriminate.
Qed.

Lemma staysFixable_no_imports (post : list Statement) :
  importsOf post = [] -> forall started gap, staysFixable started gap post = true.
Proof.
  induction post as [|[d|n] post IH]; intros H started gap; cbn [staysFixable].
  - reflexivity.
  - discriminate H.
  - apply IH. exact H.
Qed.

Lemma staysFixable_contiguous (pre post : list Statement)
    (imports : list ImportDeclaration) :
  importsOf pre = [] -> importsOf post = [] ->
  staysFixable false false (pre ++ map ImportDecl imports ++ post) = true.
Proof.
  intros Hpre Hpost.
  induction pre as [|[d|n] pre IH]; cbn [app staysFixable].
  - generalize false at 1 as started.
    induction imports as [|d imports IHi]; intros started; cbn [map app staysFixable].
    + apply staysFixable_no_imports. exact Hpost.
    + rewrite andb_false_r. apply IHi.
  - discriminate Hpre.
  - apply IH. exact Hpre.
Qed.

(** X8.  In a supported strategy, 'import' or 'source', when the import
    declarations of a module stand together, with no other statement between
    them, and the fix option is on, every traversal that reports a violation
    also offers the fix: its reports are those made with the option off
    followed by the one report that carries the fix. *)
Theorem X8_contiguous_imports_get_the_fix (pre post : list Statement)
    (imports : list ImportDeclaration) :
  importsOf pre = [] -> importsOf post = [] ->
  fst (runProgram resolves declarationSort false sourceCode
         (pre ++ map ImportDecl imports ++ post)) <> [] ->
  exists lastUnsorted callback,
    fst (runProgram resolves declarationSort true sourceCode
           (pre ++ map ImportDecl imports ++ post))
    = fst (runProgram resolves declarationSort false sourceCode
             (pre ++ map ImportDecl imports ++ post))
        ++ [fixReport lastUnsorted callback].
Proof.
  intros Hpre Hpost.
  rewrite !runProgram_observe, !Program_stages. unfold observe. cbn [fst].
  destruct (List.length (pre ++ map ImportDecl imports ++ post) <? 2);
    [intros H; exfalso; apply H; reflexivity|].
  unfold initialLocals.
  destruct (collectImport_effect (pre ++ map ImportDecl imports ++ post)
              [] false [] [] true None true) as [nif ->].
  cbn [items app].
  change (negb (List.length (@nil ImportDeclaration) =? 0)) with false.
  rewrite (staysFixable_contiguous pre post imports Hpre Hpost).
  destruct (importsOf (pre ++ map ImportDecl imports ++ post))
    as [|first [|second rest]]; cbn [List.length Nat.ltb Nat.leb];
    try (intros H; exfalso; apply H; reflexivity).
  cbn [reduce1].
  match goal with
  | |- context [reduceM _ ?l first ?c] =>
      destruct (scan_trace l first c)
        as (added & c' & -> & Hrep & Hfix & _ & _ & Hset)
  end.
  cbn [reports app locals fixable andb] in Hrep, Hfix.
  unfold finishScan. rewrite Hfix. cbn [andb].
  destruct added as [|a added'].
  - destruct (lastUnsortedDeclaration (locals c')); cbn [fst]; rewrite Hrep;
      intros H; exfalso; apply H; reflexivity.
  - destruct (lastUnsortedDeclaration (locals c')) as [lastUnsorted|] eqn:Hlast.
    + intros _. cbn [fst reports]. do 2 eexists. reflexivity.
    + exfalso. apply Hset; [discriminate | reflexivity].
Qed.

End DiagnosticsAndOrder.

(* ------------------------------------------------------------------ *)
(** ** getSorter and the sort *)

Section Comparator.
Variable A : Type.
Variable sortFunction : A -> Completion SortKey.
Variable keyOf : A -> string.
Hypothesis sortFunction_string : forall a, sortFunction a = Normal (KString (keyOf a)).

(** X9.  On string keys the comparator of [getSorter] is a proper three-way
    comparison: it answers -1, 0 or 1, swapping the arguments negates the
    answer, and the answer is 0 exactly for equal keys. *)
Theorem X9_comparator_on_strings (a b : A) :
  exists z,
    getSorter sortFunction a b = Normal z
    /\ getSorter sortFunction b a = Normal (- z)%Z
    /\ (z = (-1)%Z \/ z = 0%Z \/ z = 1%Z)
    /\ (z = 0%Z <-> keyOf a = keyOf b)
    /\ (z = (-1)%Z <-> JS.lt (keyOf a) (keyOf b) = true).
Proof.
  rewrite !(@stringSorter_value _ _ _ sortFunction_string).
  destruct (String.eqb_spec (keyOf a) (keyOf b)) as [Heq|Hne].
  - exists 0%Z. rewrite Heq, String.eqb_refl, StringOrder.lt_irrefl.
    repeat split; auto; try discriminate; lia.
  - assert (Hne' : (keyOf b =? keyOf a)%string = false)
      by (apply String.eqb_neq; intros E; apply Hne; symmetry; exact E).
    rewrite Hne'.
    destruct (JS.lt (keyOf a) (keyOf b)) eqn:Hab.
    + exists (-1)%Z. rewrite (StringOrder.lt_asym _ _ Hab).
      repeat split; auto; try discriminate; try lia; try contradiction.
    + destruct (JS.lt (keyOf b) (keyOf a)) eqn:Hba.
      * exists 1%Z. repeat split; auto; try discriminate; try lia; try contradiction.
      * exfalso. apply Hne. apply StringOrder.lt_total; assumption.
Qed.

End Comparator.

Section SortedInput.
Variable A : Type.
Variable compareFn : A -> A -> Completion Z.

(** An array in which every element may stand before its successor comes out
    of the sort as it went in. *)
Lemma sort_sorted_unchanged (l : list A) :
  Sorted (before compareFn) l -> sort compareFn l = Normal l.
Proof.
  induction 1 as [|x l Hs IH Hhd]; cbn [sort]; [reflexivity|].
  rewrite IH. cbn [cbind].
  destruct Hhd as [|y l' [z [Hz Hle]]]; cbn [insert]; [reflexivity|].
  rewrite Hz. cbn [cbind]. apply Z.leb_le in Hle. rewrite Hle. reflexivity.
Qed.

End SortedInput.

Section FixOrderIdempotent.
Import SortImports ImportSpec.
Variable resolves : string -> bool.
Variable declarationSort : string.
Hypothesis supported : declarationSort = "import" \/ declarationSort = "source".

(** X10.  In a supported strategy the order of the declaration fix is
    stable under the fix: sorting the sorted declarations again returns them
    unchanged, so a second fix reorders nothing. *)
Theorem X10_declaration_sort_idempotent (imports : list ImportDeclaration) :
  exists sorted,
    sortDeclarations resolves declarationSort imports = Normal sorted
    /\ sortDeclarations resolves declarationSort sorted = Normal sorted.
Proof.
  unfold sortDeclarations.
  destruct (@sort_returns _ _ (compareFn_total resolves supported) imports)
    as [sorted [Hsort _]].
  exists sorted. split; [exact Hsort|].
  apply sort_sorted_unchanged.
  apply (@sort_Sorted _ _ (compareFn_converse resolves supported) imports sorted Hsort).
Qed.

End FixOrderIdempotent.

(* ------------------------------------------------------------------ *)
(** ** sort-object-keys: after the fix *)

Section ObjectRuns.
Import SortObjectKeys KeySpec ObjectSpec.
Variable fixOption : bool.
Variable sourceCode : SourceCode.

(** A run whose keys are in order has no pair out of order. *)
Lemma ordered_run_no_disorder (rest : list Property) :
  forall first found,
    Sorted keyOrdered (first :: rest) ->
    disorderReports first rest = [] /\ lastDisorder first rest found = found.
Proof.
  induction rest as [|cur rest IH]; intros first found Hs; cbn [disorderReports lastDisorder].
  - split; reflexivity.
  - inversion Hs as [|? ? Hs' Hhd]; subst. inversion Hhd as [|? ? Hord]; subst.
    unfold keyOrdered in Hord. rewrite Hord. cbn [app].
    apply IH. exact Hs'.
Qed.

(** X11.  The fix of the object rule is idempotent on a run: the sort of the
    fix returns a permutation of the run on which the check of the run
    reports nothing, and which a second sort leaves unchanged. *)
Theorem X11_fixed_run_passes (node : ObjectExpressionNode) (span : list Property)
    (c : Ctx (option Property)) :
  exists sorted,
    sort (getSorter spanSortKey) span = Normal sorted
    /\ Permutation span sorted
    /\ reports (fst (checkSpan fixOption sourceCode node sorted c)) = reports c
    /\ snd (checkSpan fixOption sourceCode node sorted c) = Normal tt
    /\ sort (getSorter spanSortKey) sorted = Normal sorted.
Proof.
  destruct (@stringSort_sorted _ spanSortKey propKey (fun a => eq_refl) span)
    as [sorted [Hsort [Hperm Hsorted]]].
  exists sorted. split; [exact Hsort|]. split; [exact Hperm|].
  destruct (checkSpan_effect fixOption sourceCode node sorted c) as [found ->].
  cbn [fst snd reports].
  assert (Hnone : spanReports fixOption sourceCode node sorted = []).
  { unfold spanReports. destruct sorted as [|first [|second rest]]; try reflexivity.
    destruct (@ordered_run_no_disorder (second :: rest) first None Hsorted) as [-> ->].
    reflexivity. }
  rewrite Hnone, app_nil_r. split; [reflexivity|]. split; [reflexivity|].
  apply sort_sorted_unchanged.
  apply (@sort_Sorted _ _ (@stringSorter_converse _ spanSortKey propKey (fun a => eq_refl))
           span sorted Hsort).
Qed.

(** X12.  An object literal without spread properties is one run: all its
    properties, in order, are sorted and fixed together. *)
Theorem X12_no_spread_one_run (node : ObjectExpressionNode) :
  Forall (fun p => isSpread p = false) (properties node) ->
  properties node <> [] ->
  getDefinedPropSpansOfObjectExpression node = [properties node].
Proof.
  intros Hall Hne. rewrite getDefinedPropSpans_runs.
  assert (H : forall props run,
             Forall (fun p => isSpread p = false) props ->
             run ++ props <> [] ->
             runsOf isSpread run props = [run ++ props]).
  { induction props as [|p props IH]; intros run Hf Hn; cbn [runsOf].
    - rewrite app_nil_r in *. destruct run; [contradiction | reflexivity].
    - inversion Hf as [|? ? Hp Hf']; subst. rewrite Hp.
      rewrite IH; [rewrite <- app_assoc; reflexivity | exact Hf' |].
      intros E. apply app_eq_nil in E. destruct E as [E _].
      apply app_eq_nil in E. destruct E as [_ E]. discriminate. }
  apply (H (properties node) []); assumption.
Qed.

End ObjectRuns.

(* ------------------------------------------------------------------ *)
(** ** sort-pattern-keys: the scan and the fix *)

Section PatternScan.
Import SortPatternKeys KeySpec.
Variable sourceCode : SourceCode.

(** The scan of a pattern returns, and it leaves [isSorted] true exactly when
    it started true and nothing was reported. *)
Lemma pattern_scan (rest : list Property) :
  forall prev rs sorted0,
    exists violations,
      reduceM checkProperty rest prev (mkCtx rs sorted0)
      = (mkCtx (rs ++ violations) (sorted0 && (List.length violations =? 0)),
         Normal (last rest prev))
      /\ Forall (fun r => fix_ r = None) violations.
Proof.
  induction rest as [|cur rest IH]; intros prev rs sorted0.
  - exists []. cbn [reduceM last List.length Nat.eqb]. unfold ret.
    rewrite app_nil_r, andb_true_r. split; [reflexivity | constructor].
  - cbn [reduceM]. unfold bind at 1. unfold checkProperty at 1. rewrite last_cons.
    destruct (isRestElement cur).
    { unfold ret at 1. apply IH. }
    destruct (isRestElement prev).
    { unfold_visitor. cbn [reports locals].
      match goal with
      | |- context [reduceM checkProperty rest cur (mkCtx (rs ++ [?r]) false)] =>
          destruct (IH cur (rs ++ [r]) false) as [vs [-> Hvs]]; exists (r :: vs)
      end.
      rewrite <- app_assoc, andb_false_r. cbn [app List.length Nat.eqb andb].
      split; [reflexivity | constructor; [reflexivity | exact Hvs]]. }
    destruct (JS.lt _ _).
    { unfold_visitor. cbn [reports locals].
      match goal with
      | |- context [reduceM checkProperty rest cur (mkCtx (rs ++ [?r]) false)] =>
          destruct (IH cur (rs ++ [r]) false) as [vs [-> Hvs]]; exists (r :: vs)
      end.
      rewrite <- app_assoc, andb_false_r. cbn [app List.length Nat.eqb andb].
      split; [reflexivity | constructor; [reflexivity | exact Hvs]]. }
    unfold_visitor. apply IH.
Qed.

(** X13.  The pattern rule never throws, and its fix option only adds the
    fix: the handler completes on every pattern; with the option off no
    report carries a fix; and with the option on the reports are those made
    with the option off followed, exactly when there is at least one, by one
    report on the pattern that carries the fix. *)
Theorem X13_pattern_fix_option (node : ObjectPatternNode) :
  snd (runObjectPattern false sourceCode node) = Normal tt
  /\ snd (runObjectPattern true sourceCode node) = Normal tt
  /\ Forall (fun r => fix_ r = None) (fst (runObjectPattern false sourceCode node))
  /\ fst (runObjectPattern true sourceCode node)
     = fst (runObjectPattern false sourceCode node)
         ++ (if List.length (fst (runObjectPattern false sourceCode node)) =? 0
             then []
             else [mkReport (patternNode node) "Expected object properties to be sorted."
                     [] (Some (fixCallback sourceCode (properties node)))]).
Proof.
  destruct node as [n [|first rest]].
  - repeat split. constructor.
  - unfold runObjectPattern, run. rewrite !ObjectPattern_stages. cbn [reports].
    destruct (pattern_scan rest first [] true) as [vs [-> Hvs]].
    cbn [locals reports app andb patternNode properties].
    rewrite andb_false_r, andb_true_r.
    destruct vs as [|v vs]; cbn [List.length Nat.eqb negb fst snd reports].
    + repeat split. constructor.
    + repeat split. exact Hvs.
Qed.

(** The rest element, inserted among properties that are not rest elements,
    goes to the end. *)
Lemma insert_rest_goes_last (r : Property) (s : list Property) :
  isRestElement r = true ->
  Forall (fun p => isRestElement p = false) s ->
  insert (getSorter patternSortKey) r s = Normal (s ++ [r]).
Proof.
  intros Hr Hs. induction Hs as [|y s Hy Hs IH]; cbn [insert app]; [reflexivity|].
  unfold getSorter at 1. unfold patternSortKey at 1 2. rewrite Hr, Hy.
  cbn [cbind Z.leb Z.compare]. rewrite IH. reflexivity.
Qed.

(** The sort of the fix of a pattern with one rest element, wherever it
    stands: the other properties sorted, then the rest element. *)
Lemma sort_rest_anywhere (r : Property) (l1 l2 : list Property) :
  isRestElement r = true ->
  Forall (fun p => isRestElement p = false) (l1 ++ l2) ->
  sort (getSorter patternSortKey) (l1 ++ r :: l2)
  = cbind (sort (getSorter patternSortKey) (l1 ++ l2)) (fun s => Normal (s ++ [r])).
Proof.
  intros Hr. induction l1 as [|x l1 IH]; intros Hall; cbn [app sort].
  - destruct (sort (getSorter patternSortKey) l2) as [s|e] eqn:Hs; [|reflexivity].
    cbn [cbind]. apply insert_rest_goes_last; [exact Hr|].
    apply Forall_forall. intros y Hy. rewrite Forall_forall in Hall.
    apply Hall. apply (@sort_In _ _ l2 s y Hs Hy).
  - inversion Hall as [|? ? Hx Hall']; subst.
    rewrite (IH Hall').
    destruct (sort (getSorter patternSortKey) (l1 ++ l2)) as [s|e]; [|reflexivity].
    cbn [cbind]. apply insert_pinned.
    exists (-1)%Z. split; [|lia].
    apply patternSorter_rest_last; assumption.
Qed.

(** The scan of properties that are not rest elements and whose keys are in
    order reports nothing. *)
Lemma pattern_scan_ordered (rest : list Property) :
  forall first c,
    Forall (fun p => isRestElement p = false) (first :: rest) ->
    Sorted keyOrdered (first :: rest) ->
    reduceM checkProperty rest first c = (c, Normal (last rest first)).
Proof.
  induction rest as [|cur rest IH]; intros first c Hall Hs; [reflexivity|].
  cbn [reduceM]. unfold bind at 1. unfold checkProperty at 1. rewrite last_cons.
  inversion Hall as [|? ? Hf Hall']; subst. inversion Hall' as [|? ? Hc _]; subst.
  inversion Hs as [|? ? Hs' Hhd]; subst. inversion Hhd as [|? ? Hord]; subst.
  rewrite Hc, Hf. unfold keyOrdered, propKey in Hord. rewrite Hord.
  unfold_visitor. apply IH; assumption.
Qed.

(** X14.  In a pattern with one rest element, wherever it stands, the sort
    of the fix puts the other properties in the order of their lower-cased
    keys and the rest element last; and the pattern with its properties in
    that order passes the check: the handler reports nothing on it. *)
Theorem X14_misplaced_rest_is_fixed (fixOption : bool) (n : Node)
    (l1 l2 : list Property) (r : Property) :
  isRestElement r = true ->
  Forall (fun p => isRestElement p = false) (l1 ++ l2) ->
  exists others,
    sort (getSorter patternSortKey) (l1 ++ r :: l2) = Normal (others ++ [r])
    /\ Permutation (l1 ++ l2) others
    /\ Sorted keyOrdered others
    /\ runObjectPattern fixOption sourceCode (mkPattern n (others ++ [r]))
       = ([], Normal tt).
Proof.
  intros Hr Hall.
  destruct (@stringSort_sorted _ (fun p => Normal (KString (propKey p))) propKey
              (fun a => eq_refl) (l1 ++ l2)) as [others [Hsort [Hperm Hsorted]]].
  exists others.
  assert (Hothers : Forall (fun p => isRestElement p = false) others).
  { apply Forall_forall. intros y Hy. rewrite Forall_forall in Hall.
    apply Hall. apply (Permutation_in _ (Permutation_sym Hperm) Hy). }
  split.
  { rewrite (sort_rest_anywhere r l1 l2 Hr Hall).
    rewrite (@sort_agree _ (getSorter patternSortKey)
               (getSorter (fun p => Normal (KString (propKey p)))) (l1 ++ l2)).
    - rewrite Hsort. reflexivity.
    - intros a b Ha Hb. rewrite Forall_forall in Hall.
      apply patternSorter_string; apply Hall; assumption. }
  split; [exact Hperm|]. split; [exact Hsorted|].
  destruct others as [|first rest]; [reflexivity|].
  unfold runObjectPattern, run. cbn [app].
  rewrite ObjectPattern_stages, reduceM_app.
  rewrite (@pattern_scan_ordered rest first _ Hothers Hsorted).
  cbn [reduceM]. unfold bind at 1.
  rewrite (@checkProperty_rest (last rest first) r _ Hr).
  unfold ret at 1. cbn [locals negb andb reports]. reflexivity.
Qed.

End PatternScan.

(* ------------------------------------------------------------------ *)
(** ** The rebuilt text *)

Section Rebuild.
Import RewriteSpec.
Variable source : SourceCode.
Variable original : list Property.
Variable first : option Node.

(** The separator the reduce appends at a position. *)
Lemma separator_value (idx : nat) :
  getTextBetweenCommentedNodes source
    (option_map propNode (nth_error original idx))
    (option_map propNode (nth_error original (idx + 1)))
  = Normal (separatorAfter source original idx).
Proof.
  unfold getTextBetweenCommentedNodes, separatorAfter, ownedStart.
  destruct (nth_error original (idx + 1)) as [b|] eqn:Hb; cbn [option_map].
  - destruct (nth_error original idx) as [a|] eqn:Ha; cbn [option_map].
    + destruct (getCommentsBefore source (propNode b)); reflexivity.
    + exfalso. apply nth_error_None in Ha.
      assert (Hsome : nth_error original (idx + 1) <> None) by (rewrite Hb; discriminate).
      apply nth_error_Some in Hsome. lia.
  - destruct (nth_error original idx); reflexivity.
Qed.

(** The reduce of the fix computes the rebuilt text, for any new order. *)
Lemma rebuild_reduce (sorted : list Property) :
  forall idx acc,
    reduceIdxC
      (fun textBefore newProp idx =>
         (text <- (if differs (propNode newProp) first
                   then getCommentedText source (propNode newProp)
                   else Normal (getText source (propNode newProp))) ;;
          textAfter <- getTextBetweenCommentedNodes source
                         (option_map propNode (nth_error original idx))
                         (option_map propNode (nth_error original (idx + 1))) ;;
          Normal (textBefore ++ text ++ textAfter)%string)%C)
      sorted idx acc
    = Normal (acc ++ rebuilt source original first sorted idx)%string.
Proof.
  induction sorted as [|p sorted IH]; intros idx acc; cbn [reduceIdxC rebuilt].
  - rewrite StringFacts.append_nil_r. reflexivity.
  - rewrite separator_value.
    assert (Htext : (if differs (propNode p) first
                     then getCommentedText source (propNode p)
                     else Normal (getText source (propNode p)))
                    = Normal (nodeText source first (propNode p))).
    { unfold nodeText. destruct (differs (propNode p) first);
        [apply getCommentedText_value | reflexivity]. }
    rewrite Htext. cbn [cbind]. rewrite IH.
    rewrite !StringFacts.append_assoc. reflexivity.
Qed.

Lemma rebuildText_value (sorted : list Property) :
  rebuildText source original first sorted
  = Normal (rebuilt source original first sorted 0).
Proof. unfold rebuildText. rewrite rebuild_reduce. reflexivity. Qed.

(** Reordering the nodes does not change the length of the rebuilt text. *)
Lemma rebuilt_length_permutation (l l' : list Property) :
  Permutation l l' ->
  forall idx,
    String.length (rebuilt source original first l idx)
    = String.length (rebuilt source original first l' idx).
Proof.
  induction 1 as [|x l l' Hp IH|x y l|l l' l'' Hp1 IH1 Hp2 IH2]; intros idx;
    cbn [rebuilt].
  - reflexivity.
  - rewrite !StringFacts.length_append, IH. reflexivity.
  - rewrite !StringFacts.length_append. lia.
  - rewrite IH1. apply IH2.
Qed.

End Rebuild.

Section RebuildInOrder.
Import RewriteSpec.
Variable source : SourceCode.
Variable first : option Node.

Lemma inSequence_end (rest : list Property) :
  forall prev,
    inSequence source (propNode prev) (map propNode rest) ->
    snd (range (propNode prev)) <= snd (range (propNode (last rest prev))).
Proof.
  induction rest as [|p rest IH]; intros prev Hseq; [apply Nat.le_refl|].
  rewrite last_cons. cbn [map inSequence] in Hseq.
  destruct Hseq as (H1 & H2 & H3). specialize (IH p H3). lia.
Qed.

(** In the original order, the text rebuilt from a node on is that node's
    text followed by everything up to the end of the last node. *)
Lemma rebuilt_in_order (rest : list Property) :
  forall pre p,
    inSequence source (propNode p) (map propNode rest) ->
    Forall (fun q => differs (propNode q) first = true) rest ->
    rebuilt source (pre ++ p :: rest) first (p :: rest) (List.length pre)
    = (nodeText source first (propNode p)
       ++ JS.slice (text source) (snd (range (propNode p)))
                   (snd (range (propNode (last rest p)))))%string.
Proof.
  induction rest as [|q rest IH]; intros pre p Hseq Hdiff.
  - cbn [rebuilt last]. unfold separatorAfter.
    rewrite nth_error_app2 by apply Nat.le_refl. rewrite Nat.sub_diag. cbn [nth_error].
    replace (nth_error (pre ++ [p]) (List.length pre + 1)) with (@None Property)
      by (symmetry; apply nth_error_None; rewrite length_app; cbn; lia).
    unfold JS.slice. rewrite Nat.sub_diag, StringFacts.substring_zero. reflexivity.
  - cbn [map inSequence] in Hseq. destruct Hseq as (H1 & H2 & H3).
    inversion Hdiff as [|? ? Hq Hdiff']; subst.
    pose proof (@inSequence_end rest q H3) as Hend.
    change (rebuilt source (pre ++ p :: q :: rest) first (p :: q :: rest) (List.length pre))
      with (nodeText source first (propNode p)
            ++ separatorAfter source (pre ++ p :: q :: rest) (List.length pre)
            ++ rebuilt source (pre ++ p :: q :: rest) first (q :: rest)
                 (S (List.length pre)))%string.
    replace (pre ++ p :: q :: rest) with ((pre ++ [p]) ++ q :: rest)
      by (rewrite <- app_assoc; reflexivity).
    replace (S (List.length pre)) with (List.length (pre ++ [p]))
      by (rewrite length_app; cbn; lia).
    rewrite (IH (pre ++ [p]) q H3 Hdiff').
    unfold separatorAfter.
    replace (List.length (pre ++ [p])) with (List.length pre + 1)
      by (rewrite length_app; reflexivity).
    rewrite <- app_assoc. cbn [app].
    rewrite (nth_error_app2 pre (p :: q :: rest)) by apply Nat.le_refl.
    rewrite Nat.sub_diag. cbn [nth_error].
    rewrite (nth_error_app2 pre (p :: q :: rest)) by lia.
    replace (List.length pre + 1 - List.length pre) with 1 by lia. cbn [nth_error].
    rewrite last_cons.
    unfold nodeText at 2. rewrite Hq.
    rewrite StringFacts.slice_join by assumption.
    rewrite StringFacts.slice_join by lia.
    reflexivity.
Qed.

(** X15.  Rebuilding the text of nodes in the order they already have gives
    back the text they occupy, comments and separators included: from where
    the first node's text starts to the end of the last node. *)
Theorem X15_rebuild_in_order_is_the_span (p : Property) (rest : list Property) :
  (if differs (propNode p) first
   then ownedStart source (propNode p) else fst (range (propNode p)))
    <= snd (range (propNode p)) ->
  inSequence source (propNode p) (map propNode rest) ->
  Forall (fun q => differs (propNode q) first = true) rest ->
  rebuildText source (p :: rest) first (p :: rest)
  = Normal (JS.slice (text source)
              (if differs (propNode p) first
               then ownedStart source (propNode p) else fst (range (propNode p)))
              (snd (range (propNode (last rest p))))).
Proof.
  intros Hstart Hseq Hdiff.
  rewrite rebuildText_value.
  pose proof (@rebuilt_in_order rest [] p Hseq Hdiff) as Hrebuilt.
  cbn [app List.length] in Hrebuilt. rewrite Hrebuilt.
  pose proof (@inSequence_end rest p Hseq) as Hend.
  unfold nodeText.
  destruct (differs (propNode p) first);
    rewrite StringFacts.slice_join by assumption; reflexivity.
Qed.

End RebuildInOrder.

Section PatternFixLength.
Import RewriteSpec SortPatternKeys.
Variable source : SourceCode.

(** X16.  The fix of the pattern rule neither drops nor adds text: for a
    pattern whose properties follow one another in the source, the fix
    returns, and its replacement text is exactly as long as the range it
    replaces, so the fixed source has the length of the original. *)
Theorem X16_pattern_fix_keeps_length (p : Property) (rest : list Property) :
  fst (range (propNode p)) <= snd (range (propNode p)) ->
  inSequence source (propNode p) (map propNode rest) ->
  Forall (fun q => nid (propNode q) <> nid (propNode p)) rest ->
  snd (range (propNode (last rest p))) <= String.length (text source) ->
  exists replacement,
    fixCallback source (p :: rest)
    = Normal [mkFix (fst (range (propNode p)), snd (range (propNode (last rest p))))
                    replacement]
    /\ String.length replacement
       = snd (range (propNode (last rest p))) - fst (range (propNode p))
    /\ String.length
         (applyFix (text source)
            (mkFix (fst (range (propNode p)), snd (range (propNode (last rest p))))
                   replacement))
       = String.length (text source).
Proof.
  intros Hstart Hseq Hdistinct Hbound.
  pose proof (@inSequence_end source rest p Hseq) as Hend.
  destruct (@sort_returns _ (getSorter patternSortKey)
              (getSorter_total patternSortKey (fun a => ex_intro _ _ eq_refl))
              (p :: rest)) as [sorted [Hsort Hperm]].
  exists (rebuilt source (p :: rest) (Some (propNode p)) sorted 0).
  assert (Hlen : String.length (rebuilt source (p :: rest) (Some (propNode p)) sorted 0)
                 = snd (range (propNode (last rest p))) - fst (range (propNode p))).
  { rewrite <- (rebuilt_length_permutation source (p :: rest) (Some (propNode p)) Hperm 0).
    assert (Hdiff : Forall (fun q => differs (propNode q) (Some (propNode p)) = true) rest).
    { eapply Forall_impl; [|exact Hdistinct]. intros q Hq. cbn [differs].
      unfold sameNode. apply Bool.negb_true_iff. apply Nat.eqb_neq. exact Hq. }
    assert (Hself : differs (propNode p) (Some (propNode p)) = false).
    { cbn [differs]. unfold sameNode. rewrite Nat.eqb_refl. reflexivity. }
    pose proof (@rebuilt_in_order source (Some (propNode p)) rest [] p Hseq Hdiff)
      as Hrebuilt.
    cbn [app List.length] in Hrebuilt. rewrite Hrebuilt.
    unfold nodeText. rewrite Hself.
    rewrite StringFacts.slice_join by assumption.
    apply StringFacts.slice_length. exact Hbound. }
  split; [|split; [exact Hlen|]].
  - unfold fixCallback. cbn [map]. rewrite getSpanningRange_nonempty. cbn [cbind].
    rewrite Hsort. cbn [cbind nth_error option_map].
    rewrite rebuildText_value. cbn [cbind].
    change (propNode p :: map propNode rest) with (map propNode (p :: rest)).
    rewrite last_map, last_cons. reflexivity.
  - unfold applyFix. cbn [fixRange fixText fst snd].
    rewrite !StringFacts.length_append, Hlen.
    rewrite !StringFacts.slice_length by lia. lia.
Qed.

End PatternFixLength.

Section ObjectFixLength.
Import RewriteSpec SortObjectKeys.
Variable source : SourceCode.

(** X18.  In the object rule the leading comments of a run's first property
    are copied, not moved, when the run does not start the object literal:
    the range replaced starts at that property, while the replacement text is
    as long as the text from the property's first leading comment to the end
    of the run.  The fixed source is longer than the original by the distance
    between that comment and the property. *)
Theorem X18_object_fix_after_spread_copies_comment
    (node : ObjectExpressionNode) (p : Property) (rest : list Property) :
  Forall (fun q => differs (propNode q)
                     (option_map propNode (nth_error (properties node) 0)) = true)
         (p :: rest) ->
  ownedStart source (propNode p) <= fst (range (propNode p)) ->
  fst (range (propNode p)) <= snd (range (propNode p)) ->
  inSequence source (propNode p) (map propNode rest) ->
  snd (range (propNode (last rest p))) <= String.length (text source) ->
  exists replacement,
    fixCallback source node (p :: rest)
    = Normal [mkFix (fst (range (propNode p)), snd (range (propNode (last rest p))))
                    replacement]
    /\ String.length replacement
       = snd (range (propNode (last rest p))) - ownedStart source (propNode p)
    /\ String.length
         (applyFix (text source)
            (mkFix (fst (range (propNode p)), snd (range (propNode (last rest p))))
                   replacement))
       = String.length (text source)
         + (fst (range (propNode p)) - ownedStart source (propNode p)).
Proof.
  intros Hdiff Howned Hstart Hseq Hbound.
  inversion Hdiff as [|? ? Hp Hrest]; subst.
  pose proof (@inSequence_end source rest p Hseq) as Hend.
  destruct (@stringSort_sorted _ spanSortKey KeySpec.propKey (fun a => eq_refl) (p :: rest))
    as [sorted [Hsort [Hperm _]]].
  set (first := option_map propNode (nth_error (properties node) 0)) in *.
  exists (rebuilt source (p :: rest) first sorted 0).
  assert (Hlen : String.length (rebuilt source (p :: rest) first sorted 0)
                 = snd (range (propNode (last rest p))) - ownedStart source (propNode p)).
  { rewrite <- (rebuilt_length_permutation source (p :: rest) first Hperm 0).
    pose proof (@rebuilt_in_order source first rest [] p Hseq Hrest) as Hrebuilt.
    cbn [app List.length] in Hrebuilt. rewrite Hrebuilt.
    unfold nodeText. rewrite Hp.
    rewrite StringFacts.slice_join by lia.
    apply StringFacts.slice_length. exact Hbound. }
  split; [|split; [exact Hlen|]].
  - unfold fixCallback. cbn [map]. rewrite getSpanningRange_nonempty. cbn [cbind].
    rewrite Hsort. cbn [cbind]. fold first.
    rewrite rebuildText_value. cbn [cbind].
    change (propNode p :: map propNode rest) with (map propNode (p :: rest)).
    rewrite last_map, last_cons. reflexivity.
  - unfold applyFix. cbn [fixRange fixText fst snd].
    rewrite !StringFacts.length_append, Hlen.
    rewrite !StringFacts.slice_length by lia. lia.
Qed.

End ObjectFixLength.

(* ------------------------------------------------------------------ *)
(** ** getExpressionSortName: template literals *)

Section TemplateLiterals.
Import TemplateSpec.

Lemma template_tail (quasis : list string) :
  forall text,
    fold_left (fun text raw => text ++ raw ++ "")%string quasis text
    = (text ++ templateKey expressionSortName quasis [])%string.
Proof.
  induction quasis as [|raw quasis IH]; intros text; cbn [fold_left templateKey].
  - rewrite StringFacts.append_nil_r. reflexivity.
  - rewrite IH, StringFacts.append_nil_r, StringFacts.append_assoc. reflexivity.
Qed.

(** X17.  The key of a template literal is its raw segments in order, each
    followed by the key of the interpolated expression of the same position;
    a segment with no expression after it stands alone, and an expression of
    an unrecognised shape contributes nothing. *)
Theorem X17_template_literal_key (quasis : list string) (expressions : list Expression) :
  getExpressionSortName (Some (TemplateLiteral quasis expressions))
  = templateKey expressionSortName quasis expressions
  /\ expressionSortName OtherExpression = "".
Proof.
  split; [|reflexivity].
  cbn [getExpressionSortName expressionSortName].
  assert (H : forall es qs text,
             (fix go (es : list Expression) (qs : list string) (text : string)
                  {struct es} : string :=
                match es with
                | [] => fold_left (fun text raw => text ++ raw ++ "")%string qs text
                | e :: es' =>
                    match qs with
                    | [] => text
                    | raw :: qs' => go es' qs' (text ++ raw ++ expressionSortName e)%string
                    end
                end) es qs text
             = (text ++ templateKey expressionSortName qs es)%string).
  { induction es as [|e es IH]; intros qs text.
    - apply template_tail.
    - destruct qs as [|raw qs]; cbn [templateKey].
      + rewrite StringFacts.append_nil_r. reflexivity.
      + rewrite IH, !StringFacts.append_assoc. reflexivity. }
  rewrite H. reflexivity.
Qed.

End TemplateLiterals.

(* ------------------------------------------------------------------ *)
(** ** sort-imports: after the specifier fix *)

Section SpecifierFixOrder.
Import SortImports ImportSpec.

Lemma ordered_specifiers_no_disorder (rest : list ImportSpecifierNode) :
  forall first,
    Sorted (fun a b => JS.lt (JS.toLowerCase (getImportSpecifierSortName b))
                             (JS.toLowerCase (getImportSpecifierSortName a)) = false)
           (first :: rest) ->
    firstDisorder first rest = None.
Proof.
  induction rest as [|cur rest IH]; intros first Hs; cbn [firstDisorder]; [reflexivity|].
  inversion Hs as [|? ? Hs' Hhd]; subst. inversion Hhd as [|? ? Hord]; subst.
  rewrite Hord. apply IH. exact Hs'.
Qed.

(** X19.  The order of the narrower fix passes the specifier check: the sort
    of a declaration's named specifiers returns a permutation of them, and
    the specifier scan of any declaration whose named specifiers stand in
    that order reports nothing. *)
Theorem X19_specifier_fix_order_passes (imp : ImportDeclaration) :
  exists sorted,
    sort (getSorter (fun node =>
            Normal (KString (JS.toLowerCase (getImportSpecifierSortName node)))))
         (namedSpecifiers imp) = Normal sorted
    /\ Permutation (namedSpecifiers imp) sorted
    /\ forall fixed c,
         namedSpecifiers fixed = sorted ->
         reports (fst (checkSpecifiers fixed c)) = reports c
         /\ snd (checkSpecifiers fixed c) = Normal tt.
Proof.
  destruct (@stringSort_sorted _
              (fun node => Normal (KString (JS.toLowerCase
                                              (getImportSpecifierSortName node))))
              (fun node => JS.toLowerCase (getImportSpecifierSortName node))
              (fun a => eq_refl) (namedSpecifiers imp))
    as [sorted [Hsort [Hperm Hsorted]]].
  exists sorted. split; [exact Hsort|]. split; [exact Hperm|].
  intros fixed c Hfixed.
  destruct (checkSpecifiers_effect fixed c) as [s ->]. cbn [fst snd reports].
  split; [|reflexivity].
  unfold specifierReports. rewrite Hfixed.
  destruct sorted as [|first rest]; [apply app_nil_r|].
  rewrite (ordered_specifiers_no_disorder Hsorted). apply app_nil_r.
Qed.

End SpecifierFixOrder.

(* ------------------------------------------------------------------ *)
(** ** The further properties at concrete inputs *)

Section Instances.
Import SortImports ImportSpec.

(** X2 at [import React from 'react'] followed by
    [import PropTypes from 'prop-types'] in the 'source' strategy. *)
Lemma X2_check_agrees_witness :
  ("source" = "import" \/ "source" = "source")
  /\ (reports (fst (checkDeclaration Programs.resolves "source" Programs.react
                      Programs.propTypes (mkCtx [] initialLocals))) = []
      <-> JS.lt (compositeKey Programs.resolves "source" Programs.propTypes)
                (compositeKey Programs.resolves "source" Programs.react) = false).
Proof.
  split; [right; reflexivity|].
  apply (@X2_check_agrees_with_composite_key Programs.resolves "source"
           (or_intror eq_refl) Programs.react Programs.propTypes
           (mkCtx [] initialLocals)).
Defined.

(** X3 at a module whose one import declaration has its specifiers out of
    order. *)
Lemma X3_fewer_than_two_imports_witness :
  List.length (importsOf MoreInputs.oneImport) < 2
  /\ runProgram Programs.resolves "source" true (mkSource "" Programs.noComments)
       MoreInputs.oneImport = ([], Normal tt).
Proof.
  assert (H : List.length (importsOf MoreInputs.oneImport) < 2) by (cbn; lia).
  split; [exact H|].
  apply (X3_fewer_than_two_imports_silent Programs.resolves "source"
           (mkSource "" Programs.noComments) true MoreInputs.oneImport H).
Defined.

(** X6 at the interleaved program in the 'import' strategy. *)
Lemma X6_supported_traversal_witness :
  ("import" = "import" \/ "import" = "source")
  /\ snd (runProgram Programs.resolves "import" true (mkSource "" Programs.noComments)
            Programs.interleavedProgram) = Normal tt.
Proof.
  split; [left; reflexivity|].
  apply (@X6_supported_traversal_completes Programs.resolves "import"
           (mkSource "" Programs.noComments) (or_introl eq_refl) true
           Programs.interleavedProgram).
Defined.

(** X7 at [import './polyfill'] followed by [import React from 'react']. *)
Lemma X7_silent_iff_ordered_witness :
  ("source" = "import" \/ "source" = "source")
  /\ (fst (runProgram Programs.resolves "source" true (mkSource "" Programs.noComments)
             Programs.sideEffectThenPackage) = []
      <-> Sorted (fun a b => JS.lt (compositeKey Programs.resolves "source" b)
                                   (compositeKey Programs.resolves "source" a) = false)
                 (importsOf Programs.sideEffectThenPackage)
          /\ Forall (fun d => specifierReports d = [])
                    (tl (importsOf Programs.sideEffectThenPackage))).
Proof.
  split; [right; reflexivity|].
  apply (@X7_silent_iff_ordered Programs.resolves "source"
           (mkSource "" Programs.noComments) (or_intror eq_refl) true
           Programs.sideEffectThenPackage).
Defined.

(** X8 at [import React from 'react'; import PropTypes from 'prop-types'],
    followed by a call. *)
Lemma X8_contiguous_imports_witness :
  ("source" = "import" \/ "source" = "source")
  /\ importsOf (@nil Statement) = [] /\ importsOf [Programs.setupCall] = []
  /\ exists lastUnsorted callback,
       fst (runProgram Programs.resolves "source" true (mkSource "" Programs.noComments)
              ([] ++ map ImportDecl [Programs.react; Programs.propTypes]
                  ++ [Programs.setupCall]))
       = fst (runProgram Programs.resolves "source" false
                (mkSource "" Programs.noComments)
                ([] ++ map ImportDecl [Programs.react; Programs.propTypes]
                    ++ [Programs.setupCall]))
           ++ [fixReport lastUnsorted callback].
Proof.
  split; [right; reflexivity|]. split; [reflexivity|]. split; [reflexivity|].
  apply (@X8_contiguous_imports_get_the_fix Programs.resolves "source"
           (mkSource "" Programs.noComments) (or_intror eq_refl)
           [] [Programs.setupCall] [Programs.react; Programs.propTypes]
           eq_refl eq_refl).
  vm_compute. discriminate.
Defined.

(** X9 at the properties [b] and [a] of an object literal. *)
Lemma X9_comparator_witness :
  (forall a, SortObjectKeys.spanSortKey a = Normal (KString (KeySpec.propKey a)))
  /\ exists z,
       getSorter SortObjectKeys.spanSortKey SpreadObject.propB SpreadObject.propA
       = Normal z
       /\ getSorter SortObjectKeys.spanSortKey SpreadObject.propA SpreadObject.propB
          = Normal (- z)%Z
       /\ (z = (-1)%Z \/ z = 0%Z \/ z = 1%Z)
       /\ (z = 0%Z <-> KeySpec.propKey SpreadObject.propB = KeySpec.propKey SpreadObject.propA)
       /\ (z = (-1)%Z
           <-> JS.lt (KeySpec.propKey SpreadObject.propB)
                     (KeySpec.propKey SpreadObject.propA) = true).
Proof.
  split; [intros a; reflexivity|].
  apply (@X9_comparator_on_strings _ SortObjectKeys.spanSortKey KeySpec.propKey
           (fun a => eq_refl) SpreadObject.propB SpreadObject.propA).
Defined.

(** X10 at the three declarations of the end-to-end example. *)
Lemma X10_declaration_sort_idempotent_witness :
  ("source" = "import" \/ "source" = "source")
  /\ exists sorted,
       sortDeclarations EndToEnd.resolves "source" EndToEnd.imports = Normal sorted
       /\ sortDeclarations EndToEnd.resolves "source" sorted = Normal sorted.
Proof.
  split; [right; reflexivity|].
  apply (@X10_declaration_sort_idempotent EndToEnd.resolves "source"
           (or_intror eq_refl) EndToEnd.imports).
Defined.

(** X12 at the object literal [{b, a}]. *)
Lemma X12_no_spread_one_run_witness :
  Forall (fun p => SortObjectKeys.isSpread p = false)
         (SortObjectKeys.properties MoreInputs.plainObject)
  /\ SortObjectKeys.properties MoreInputs.plainObject <> []
  /\ SortObjectKeys.getDefinedPropSpansOfObjectExpression MoreInputs.plainObject
     = [SortObjectKeys.properties MoreInputs.plainObject].
Proof.
  assert (H1 : Forall (fun p => SortObjectKeys.isSpread p = false)
                      (SortObjectKeys.properties MoreInputs.plainObject))
    by (repeat constructor).
  assert (H2 : SortObjectKeys.properties MoreInputs.plainObject <> []) by discriminate.
  split; [exact H1|]. split; [exact H2|].
  apply (X12_no_spread_one_run MoreInputs.plainObject H1 H2).
Defined.

(** X14 at the pattern [{b, ...rest, a}]. *)
Lemma X14_misplaced_rest_witness :
  SortPatternKeys.isRestElement RestPattern.rest = true
  /\ Forall (fun p => SortPatternKeys.isRestElement p = false)
            ([RestPattern.propB] ++ [RestPattern.propA])
  /\ exists others,
       sort (getSorter SortPatternKeys.patternSortKey) MoreInputs.restInTheMiddle
       = Normal (others ++ [RestPattern.rest])
       /\ Permutation ([RestPattern.propB] ++ [RestPattern.propA]) others
       /\ Sorted KeySpec.keyOrdered others
       /\ SortPatternKeys.runObjectPattern true RestPattern.sourceCode
            (SortPatternKeys.mkPattern (mkNode 0 (0, 15)) (others ++ [RestPattern.rest]))
          = ([], Normal tt).
Proof.
  assert (H1 : SortPatternKeys.isRestElement RestPattern.rest = true) by reflexivity.
  assert (H2 : Forall (fun p => SortPatternKeys.isRestElement p = false)
                      ([RestPattern.propB] ++ [RestPattern.propA]))
    by (repeat constructor).
  split; [exact H1|]. split; [exact H2|].
  apply (@X14_misplaced_rest_is_fixed RestPattern.sourceCode true (mkNode 0 (0, 15))
           [RestPattern.propB] [RestPattern.propA] RestPattern.rest H1 H2).
Defined.

(** X15 at the pattern [{b, /* c */ a}]. *)
Lemma X15_rebuild_in_order_witness :
  rebuildText CommentedPattern.sourceCode
    [CommentedPattern.propB; CommentedPattern.propA]
    (Some (propNode CommentedPattern.propB))
    [CommentedPattern.propB; CommentedPattern.propA]
  = Normal "b, /* c */ a".
Proof.
  apply (@X15_rebuild_in_order_is_the_span CommentedPattern.sourceCode
           (Some (propNode CommentedPattern.propB))
           CommentedPattern.propB [CommentedPattern.propA]).
  - cbn. lia.
  - cbn. lia.
  - repeat constructor.
Defined.

(** X16 at the pattern [{b, /* c */ a}]. *)
Lemma X16_pattern_fix_keeps_length_witness :
  exists replacement,
    SortPatternKeys.fixCallback CommentedPattern.sourceCode
      [CommentedPattern.propB; CommentedPattern.propA]
    = Normal [mkFix (1, 13) replacement]
    /\ String.length replacement = 13 - 1
    /\ String.length (applyFix CommentedPattern.sourceText (mkFix (1, 13) replacement))
       = String.length CommentedPattern.sourceText.
Proof.
  apply (@X16_pattern_fix_keeps_length CommentedPattern.sourceCode
           CommentedPattern.propB [CommentedPattern.propA]).
  - cbn. lia.
  - cbn. lia.
  - repeat constructor. cbn. lia.
  - cbn. lia.
Defined.

(** X18 at the object literal [{...x, /* c */ b, a}], which the fix turns
    into [{...x, /* c */ a, /* c */ b}]. *)
Lemma X18_object_fix_after_spread_witness :
  exists replacement,
    SortObjectKeys.fixCallback CommentAfterSpread.sourceCode CommentAfterSpread.object
      [CommentAfterSpread.propB; CommentAfterSpread.propA]
    = Normal [mkFix (15, 19) replacement]
    /\ String.length replacement = 19 - 7
    /\ String.length (applyFix CommentAfterSpread.sourceText (mkFix (15, 19) replacement))
       = String.length CommentAfterSpread.sourceText + (15 - 7).
Proof.
  apply (@X18_object_fix_after_spread_copies_comment CommentAfterSpread.sourceCode
           CommentAfterSpread.object CommentAfterSpread.propB [CommentAfterSpread.propA]).
  - repeat constructor.
  - cbn. lia.
  - cbn. lia.
  - cbn. lia.
  - cbn. lia.
Defined.

End Instances.
